(** * Research-Note: block document model and export pagination

    A shallow embedding of the block editor of
    [src/components/RichNoteEditor.tsx] (block store, table and chart
    mutations, JSON persistence) and of the export routine [exportToPDF] of
    [src/components/ProjectView.tsx] (pagination of one rendered canvas into
    page slices).

    Conventions.
    - React state is passed explicitly: every handler takes the current
      [blocks] (or the current [TableData] / [ChartData]) and yields what it
      hands to [updateBlocks] / [onChange].
    - Every call of [Date.now()] is an input of the handler that makes it:
      [now] for a handler that reads the clock once, [now] and [now'] for
      one that reads it twice.
    - A handler either calls its callback with a new value ([Emit]), returns
      without calling it ([Skip]), or raises a [TypeError] ([Throw]).
    - A stored number ([width], a chart value) is zero, a non-zero finite
      number given by the decimal digits and the point position that
      [Number::toString] prints, or one of the three doubles that are not
      finite; there is no rounding to 53 bits.  The geometry of the export
      (millimetres, pixels) is computed in IEEE 754 binary64 arithmetic. *)

From Stdlib Require Import String Ascii List Bool Arith ZArith Lia.
From Stdlib Require Import DecimalString DecimalZ.
From Stdlib Require Import SpecFloat.
Import ListNotations.

Local Open Scope string_scope.
Local Open Scope list_scope.
Local Open Scope nat_scope.

(** ** Outcomes of a handler *)

Inductive outcome (A : Type) : Type :=
| Emit (a : A)
| Skip
| Throw.

Arguments Emit {A} a.
Arguments Skip {A}.
Arguments Throw {A}.

(** The state after a handler ran: only [Emit] replaces the stored value. *)
Definition commit {A : Type} (old : A) (o : outcome A) : A :=
  match o with
  | Emit a => a
  | Skip | Throw => old
  end.

(** ** Data model (RichNoteEditor.tsx, lines 5-26) *)

(** A stored JavaScript number.  A finite double other than zero is given
    by the triple that [Number::toString] works with: its sign, the decimal
    digits [s] of its shortest representation and the position [n] of the
    decimal point, the value being [0.s * 10^n].  The two zeros are not told
    apart. *)
Inductive number : Type :=
| Zero
| Finite (negative : bool) (digits : string) (point : Z)
| PosInfinity
| NegInfinity
| NaN.

Definition is_finite (n : number) : bool :=
  match n with
  | Zero | Finite _ _ _ => true
  | PosInfinity | NegInfinity | NaN => false
  end.

Definition isDigit (c : ascii) : bool :=
  Nat.leb 48 (nat_of_ascii c) && Nat.leb (nat_of_ascii c) 57.

Fixpoint allDigits (s : string) : bool :=
  match s with
  | EmptyString => true
  | String c r => isDigit c && allDigits r
  end.

Fixpoint zeros (m : nat) : string :=
  match m with
  | O => EmptyString
  | S m' => String "0" (zeros m')
  end.

(** The number of leading zeros and what follows them. *)
Fixpoint stripLeadingZeros (s : string) : nat * string :=
  match s with
  | EmptyString => (0, EmptyString)
  | String c r =>
      if Ascii.eqb c "0"
      then let '(m, r') := stripLeadingZeros r in (S m, r')
      else (0, s)
  end.

Fixpoint stripTrailingZeros (s : string) : string :=
  match s with
  | EmptyString => EmptyString
  | String c r =>
      match stripTrailingZeros r with
      | EmptyString => if Ascii.eqb c "0" then EmptyString else String c EmptyString
      | r' => String c r'
      end
  end.

(** The digits of a shortest representation: at least one, the first and
    the last not zero. *)
Definition canonicalDigits (ds : string) : bool :=
  allDigits ds
  && negb (String.eqb ds "")
  && Nat.eqb (fst (stripLeadingZeros ds)) 0
  && String.eqb (stripTrailingZeros ds) ds.

Definition canonical (x : number) : bool :=
  match x with
  | Finite _ ds _ => canonicalDigits ds
  | Zero | PosInfinity | NegInfinity | NaN => true
  end.

(** The number written [int.frac * 10^e] in decimal. *)
Definition normalize (neg : bool) (int frac : string) (e : Z) : number :=
  let '(m, t) := stripLeadingZeros (int ++ frac)%string in
  match stripTrailingZeros t with
  | EmptyString => Zero
  | ds => Finite neg ds (Z.of_nat (String.length int) + e - Z.of_nat m)
  end.

Record TableData : Type := mkTable {
  rows : list (list string);
  colHeaders : option (list string);
  rowHeaders : option (list string)
}.

Inductive ChartType : Type := line | bar.

Record ChartPoint : Type := mkPoint {
  name : string;
  value : number
}.

Record ChartData : Type := mkChart {
  chartType : ChartType;
  title : option string;
  xAxisLabel : option string;
  yAxisLabel : option string;
  data : list ChartPoint
}.

Inductive BlockType : Type := text | image | table | chart.

Record Block : Type := mkBlock {
  id : string;
  type : BlockType;
  content : string;
  width : option number;
  tableData : option TableData;
  chartData : option ChartData
}.

Definition BlockType_eqb (a b : BlockType) : bool :=
  match a, b with
  | text, text | image, image | table, table | chart, chart => true
  | _, _ => false
  end.

(** [n.toString()] for an integer-valued number. *)
Definition toString (z : Z) : string :=
  NilZero.string_of_int (Z.to_int z).

(** The number with the integer value [z]. *)
Definition numberOfZ (z : Z) : number :=
  normalize (Z.ltb z 0) (toString (Z.abs z)) EmptyString 0.

(** [array.filter((_, i) => i !== index)] *)
Fixpoint filter_index_from {A : Type} (i : nat) (index : nat) (l : list A) : list A :=
  match l with
  | [] => []
  | x :: l' =>
      if Nat.eqb i index then filter_index_from (S i) index l'
      else x :: filter_index_from (S i) index l'
  end.

Definition filter_index {A : Type} (index : nat) (l : list A) : list A :=
  filter_index_from 0 index l.


(** ** Block store (RichNoteEditor.tsx, lines 392-464) *)

Definition textBlock (i c : string) : Block :=
  mkBlock i text c None None None.

Definition handleTextChange (blocks : list Block) (i c : string) : list Block :=
  map (fun b => if String.eqb (id b) i
                then mkBlock (id b) (type b) c (width b) (tableData b) (chartData b)
                else b) blocks.

Definition handleImageResize (blocks : list Block) (i : string) (w : number) : list Block :=
  map (fun b => if String.eqb (id b) i
                then mkBlock (id b) (type b) (content b) (Some w) (tableData b) (chartData b)
                else b) blocks.

Definition handleTableChange (blocks : list Block) (i : string) (t : TableData) : list Block :=
  map (fun b => if String.eqb (id b) i
                then mkBlock (id b) (type b) (content b) (width b) (Some t) (chartData b)
                else b) blocks.

Definition handleChartChange (blocks : list Block) (i : string) (c : ChartData) : list Block :=
  map (fun b => if String.eqb (id b) i
                then mkBlock (id b) (type b) (content b) (width b) (tableData b) (Some c)
                else b) blocks.

(** [blocks.length <= 1 && blocks[0].type === 'text'] reads [blocks[0]] only
    when the length test holds; on the empty array that read is [undefined]
    and [.type] raises. *)
Definition removeBlock (now : Z) (blocks : list Block) (i : string)
  : outcome (list Block) :=
  let removed := filter (fun b => negb (String.eqb (id b) i)) blocks in
  if Nat.leb (length blocks) 1 then
    match blocks with
    | [] => Throw
    | b0 :: _ =>
        if BlockType_eqb (type b0) text
        then Emit [textBlock (toString now) ""]
        else Emit removed
    end
  else Emit removed.

(** An insertion calls [Date.now()] twice: for the id of the inserted block
    (lines 422, 433, 450) and, after the block is built, for the id of the
    text block appended behind it (lines 428, 445, 463).  [now] and [now']
    are the two readings, in that order. *)
Definition addImageBlock (now now' : Z) (blocks : list Block) (src : string) : list Block :=
  blocks ++ [mkBlock (toString now) image src (Some (numberOfZ 100)) None None;
             textBlock (toString (now' + 1)) ""].

Definition defaultTable : TableData :=
  mkTable [[""; ""; ""]; [""; ""; ""]] (Some ["A"; "B"; "C"]) (Some ["1"; "2"]).

Definition addTableBlock (now now' : Z) (blocks : list Block) : list Block :=
  blocks ++ [mkBlock (toString now) table "" None (Some defaultTable) None;
             textBlock (toString (now' + 1)) ""].

Definition defaultChart : ChartData :=
  mkChart line (Some "New Research Chart") None None
    [mkPoint "Jan" (numberOfZ 400); mkPoint "Feb" (numberOfZ 300);
     mkPoint "Mar" (numberOfZ 600)].

Definition addChartBlock (now now' : Z) (blocks : list Block) : list Block :=
  blocks ++ [mkBlock (toString now) chart "" None None (Some defaultChart);
             textBlock (toString (now' + 1)) ""].

(** ** Table mutations (RichNoteEditor.tsx, lines 236-294)

    The handlers of [TableBlock] close over [data]; [onChange] receives the
    new table.  The header editors [updateColHeader] / [updateRowHeader] are
    the only handlers that write a header chosen by the user; the four
    structural handlers below and [updateCell] never look at one. *)

(** Strings are held as their UTF-8 bytes.  [utf8 n] is the encoding of the
    code point [n]. *)
Definition utf8 (n : N) : string :=
  let byte (k : N) := ascii_of_N k in
  (if n <? 128 then String (byte n) EmptyString
   else if n <? 2048 then
     String (byte (192 + n / 64)) (String (byte (128 + n mod 64)) EmptyString)
   else if n <? 65536 then
     String (byte (224 + n / 4096))
       (String (byte (128 + (n / 64) mod 64))
          (String (byte (128 + n mod 64)) EmptyString))
   else
     String (byte (240 + n / 262144))
       (String (byte (128 + (n / 4096) mod 64))
          (String (byte (128 + (n / 64) mod 64))
             (String (byte (128 + n mod 64)) EmptyString))))%N.

(** [String.fromCharCode(n)]: the character with the code [n] modulo 2^16. *)
Definition fromCharCode (n : nat) : string :=
  utf8 (N.of_nat n mod 65536)%N.

Fixpoint mapi_from {A B : Type} (i : nat) (f : A -> nat -> B) (l : list A) : list B :=
  match l with
  | [] => []
  | x :: l' => f x i :: mapi_from (S i) f l'
  end.

(** [array.map((x, i) => ...)] *)
Definition mapi {A B : Type} (f : A -> nat -> B) (l : list A) : list B :=
  mapi_from 0 f l.

Definition updateCell (d : TableData) (rowIndex colIndex : nat) (v : string)
  : outcome TableData :=
  let newRows :=
    mapi (fun row rIdx =>
            if Nat.eqb rIdx rowIndex
            then mapi (fun cell cIdx => if Nat.eqb cIdx colIndex then v else cell) row
            else row) (rows d) in
  Emit (mkTable newRows (colHeaders d) (rowHeaders d)).

(** [data.rows[0]?.length || 1]: [undefined] and [0] are both falsy. *)
Definition colCount (d : TableData) : nat :=
  match rows d with
  | [] => 1
  | r0 :: _ => if Nat.eqb (length r0) 0 then 1 else length r0
  end.

Definition addRow (d : TableData) : outcome TableData :=
  let newRowHeaders :=
    match rowHeaders d with
    | Some h => Some (h ++ [toString (Z.of_nat (length (rows d) + 1))])
    | None => None
    end in
  Emit (mkTable (rows d ++ [repeat "" (colCount d)]) (colHeaders d) newRowHeaders).

Definition removeRow (d : TableData) (index : nat) : outcome TableData :=
  if Nat.ltb 1 (length (rows d)) then
    let newRowHeaders :=
      match rowHeaders d with
      | Some h => Some (filter_index index h)
      | None => None
      end in
    Emit (mkTable (filter_index index (rows d)) (colHeaders d) newRowHeaders)
  else Skip.

(** [data.rows[0].length] raises when there is no first row. *)
Definition addColumn (d : TableData) : outcome TableData :=
  match colHeaders d, rows d with
  | Some _, [] => Throw
  | Some h, r0 :: _ =>
      Emit (mkTable (map (fun row => row ++ [""]) (rows d))
                    (Some (h ++ [fromCharCode (65 + length r0)]))
                    (rowHeaders d))
  | None, _ =>
      Emit (mkTable (map (fun row => row ++ [""]) (rows d)) None (rowHeaders d))
  end.

Definition removeColumn (d : TableData) (index : nat) : outcome TableData :=
  match rows d with
  | [] => Throw
  | r0 :: _ =>
      if Nat.ltb 1 (length r0) then
        let newColHeaders :=
          match colHeaders d with
          | Some h => Some (filter_index index h)
          | None => None
          end in
        Emit (mkTable (map (fun row => filter_index index row) (rows d))
                      newColHeaders (rowHeaders d))
      else Skip
  end.

(** What the grid shows in a header cell (lines 307 and 333):
    [data.colHeaders?.[i] || String.fromCharCode(65 + i)], where a missing
    list, a missing entry and the empty string all fall through to the
    positional default. *)
Definition shownHeader (h : option (list string)) (i : nat) (fallback : string) : string :=
  match h with
  | None => fallback
  | Some l =>
      match nth_error l i with
      | None => fallback
      | Some s => if String.eqb s "" then fallback else s
      end
  end.

Definition shownColHeader (d : TableData) (colIndex : nat) : string :=
  shownHeader (colHeaders d) colIndex (fromCharCode (65 + colIndex)).

Definition shownRowHeader (d : TableData) (rowIndex : nat) : string :=
  shownHeader (rowHeaders d) rowIndex (toString (Z.of_nat (rowIndex + 1))).

Inductive TableOp : Type :=
| AddRow
| AddColumn
| RemoveRow (index : nat)
| RemoveColumn (index : nat).

Definition tableOp (d : TableData) (op : TableOp) : outcome TableData :=
  match op with
  | AddRow => addRow d
  | AddColumn => addColumn d
  | RemoveRow i => removeRow d i
  | RemoveColumn i => removeColumn d i
  end.

(** A click sequence: each handler sees the table left by the previous one
    ([handleTableChange] stores what [onChange] received). *)
Definition runTableOps (d : TableData) (ops : list TableOp) : TableData :=
  fold_left (fun cur op => commit cur (tableOp cur op)) ops d.

Definition header_ok (h : option (list string)) (n : nat) : bool :=
  match h with
  | None => true
  | Some l => Nat.eqb (length l) n
  end.

(** The table invariant of the data model: at least one row and one column,
    all rows as long as the first, stored headers as long as the axis they
    label. *)
Definition rectangular (d : TableData) : bool :=
  match rows d with
  | [] => false
  | r0 :: _ =>
      Nat.leb 1 (length r0)
      && forallb (fun r => Nat.eqb (length r) (length r0)) (rows d)
      && header_ok (colHeaders d) (length r0)
      && header_ok (rowHeaders d) (length (rows d))
  end.

(** The same invariant, with the common row length [n] named. *)
Definition Rect (n : nat) (d : TableData) : Prop :=
  1 <= n /\
  rows d <> [] /\
  (forall r, In r (rows d) -> length r = n) /\
  header_ok (colHeaders d) n = true /\
  header_ok (rowHeaders d) (length (rows d)) = true.

(** ** Chart mutations (RichNoteEditor.tsx, lines 79-100)

    The handlers that change the shape or the labels of a chart.
    [updatePoint], which rewrites one entry in place with [parseFloat] of the
    typed text, is left out. *)

Definition addPoint (c : ChartData) : outcome ChartData :=
  Emit (mkChart (chartType c) (title c) (xAxisLabel c) (yAxisLabel c)
          (data c ++ [mkPoint ("Point " ++ toString (Z.of_nat (length (data c) + 1)))
                              (numberOfZ 0)])).

Definition removePoint (c : ChartData) (index : nat) : outcome ChartData :=
  if Nat.ltb 1 (length (data c)) then
    Emit (mkChart (chartType c) (title c) (xAxisLabel c) (yAxisLabel c)
            (filter_index index (data c)))
  else Skip.

Definition toggleType (c : ChartData) : outcome ChartData :=
  Emit (mkChart (match chartType c with line => bar | bar => line end)
          (title c) (xAxisLabel c) (yAxisLabel c) (data c)).

Definition updateTitle (c : ChartData) (t : string) : outcome ChartData :=
  Emit (mkChart (chartType c) (Some t) (xAxisLabel c) (yAxisLabel c) (data c)).

Inductive Axis : Type := AxisX | AxisY.

Definition updateAxisLabel (c : ChartData) (axis : Axis) (label : string)
  : outcome ChartData :=
  match axis with
  | AxisX => Emit (mkChart (chartType c) (title c) (Some label) (yAxisLabel c) (data c))
  | AxisY => Emit (mkChart (chartType c) (title c) (xAxisLabel c) (Some label) (data c))
  end.

Inductive ChartOp : Type :=
| AddPoint
| RemovePoint (index : nat)
| ToggleType
| UpdateTitle (t : string)
| UpdateAxisLabel (axis : Axis) (label : string).

Definition chartOp (c : ChartData) (op : ChartOp) : outcome ChartData :=
  match op with
  | AddPoint => addPoint c
  | RemovePoint i => removePoint c i
  | ToggleType => toggleType c
  | UpdateTitle t => updateTitle c t
  | UpdateAxisLabel a l => updateAxisLabel c a l
  end.

Definition runChartOps (c : ChartData) (ops : list ChartOp) : ChartData :=
  fold_left (fun cur op => commit cur (chartOp cur op)) ops c.

(** ** JSON text ([JSON.stringify] and [JSON.parse])

    The persisted form of a note is the text [JSON.stringify(blocks)], read
    back with [JSON.parse].  JavaScript values are the trees below; an object
    is its list of members in insertion order, and reading a property takes
    the last member with that key.  Strings are their UTF-8 bytes and are
    taken to be well formed (no unpaired surrogate). *)

#[local] Set Warnings "-register-all".

Local Open Scope string_scope.

Inductive json : Type :=
| JNull
| JBool (b : bool)
| JNumber (n : number)
| JString (s : string)
| JArray (elements : list json)
| JObject (members : list (string * json)).

Definition dquote : ascii := "034"%char.
Definition backslash : ascii := "092"%char.

Definition hexDigit (n : nat) : ascii :=
  match n with
  | 0 => "0" | 1 => "1" | 2 => "2" | 3 => "3" | 4 => "4"
  | 5 => "5" | 6 => "6" | 7 => "7" | 8 => "8" | 9 => "9"
  | 10 => "a" | 11 => "b" | 12 => "c" | 13 => "d" | 14 => "e"
  | _ => "f"
  end%char.

(** [QuoteJSONString]: the two delimiters and the short escapes are spelled
    out, every other control character becomes a four-digit unicode escape,
    all other characters stand for themselves. *)
Definition escapeChar (c : ascii) : string :=
  if Ascii.eqb c dquote then String backslash (String dquote EmptyString)
  else if Ascii.eqb c backslash then String backslash (String backslash EmptyString)
  else
    match nat_of_ascii c with
    | 8 => String backslash "b"
    | 9 => String backslash "t"
    | 10 => String backslash "n"
    | 12 => String backslash "f"
    | 13 => String backslash "r"
    | n =>
        if Nat.ltb n 32
        then String backslash
               (String "u" (String "0" (String "0"
                  (String (hexDigit (n / 16)) (String (hexDigit (n mod 16)) EmptyString)))))
        else String c EmptyString
    end.

Fixpoint quoteBody (s : string) : string :=
  match s with
  | EmptyString => EmptyString
  | String c r => escapeChar c ++ quoteBody r
  end.

Definition quote (s : string) : string :=
  String dquote (quoteBody s ++ String dquote EmptyString).

(** The most significant [n] characters of [s], and the remaining ones. *)
Fixpoint takeDigits (n : nat) (s : string) : string :=
  match n, s with
  | S n', String c r => String c (takeDigits n' r)
  | _, _ => EmptyString
  end.

Fixpoint dropDigits (n : nat) (s : string) : string :=
  match n, s with
  | S n', String _ r => dropDigits n' r
  | _, _ => s
  end.

(** [Number::toString] for the digits [ds] of [k] characters and the point
    position [n]: plain digits with [n - k] zeros after them when
    [k <= n <= 21], a decimal point inside the digits when [0 < n <= 21],
    a leading [0.] and [-n] zeros when [-6 < n <= 0], and the exponent
    notation otherwise. *)
Definition digitsToString (ds : string) (n : Z) : string :=
  let k := Z.of_nat (String.length ds) in
  if Z.leb k n && Z.leb n 21 then
    ds ++ zeros (Z.to_nat (n - k))
  else if Z.ltb 0 n && Z.leb n 21 then
    takeDigits (Z.to_nat n) ds ++ "." ++ dropDigits (Z.to_nat n) ds
  else if Z.ltb (-6) n && Z.leb n 0 then
    "0." ++ zeros (Z.to_nat (- n)) ++ ds
  else
    let e := (n - 1)%Z in
    let mantissa :=
      match ds with
      | String d EmptyString => ds
      | String d r => String d ("." ++ r)
      | EmptyString => EmptyString
      end in
    mantissa ++ "e" ++ (if Z.ltb e 0 then "-" else "+") ++ toString (Z.abs e).

Definition Number_toString (x : number) : string :=
  match x with
  | Zero => "0"
  | Finite neg ds n => (if neg then "-" else "") ++ digitsToString ds n
  | PosInfinity => "Infinity"
  | NegInfinity => "-Infinity"
  | NaN => "NaN"
  end.

(** A number under [JSON.stringify]: a number that is not finite is written
    as [null]. *)
Definition stringifyNumber (x : number) : string :=
  if is_finite x then Number_toString x else "null".

Fixpoint joinWith (sep : string) (l : list string) : string :=
  match l with
  | [] => EmptyString
  | [x] => x
  | x :: l' => x ++ sep ++ joinWith sep l'
  end.

Fixpoint stringify (j : json) : string :=
  match j with
  | JNull => "null"
  | JBool true => "true"
  | JBool false => "false"
  | JNumber n => stringifyNumber n
  | JString s => quote s
  | JArray l => "[" ++ joinWith "," (map stringify l) ++ "]"
  | JObject m =>
      "{" ++ joinWith "," (map (fun kv => quote (fst kv) ++ ":" ++ stringify (snd kv)) m) ++ "}"
  end.

Definition JSON_stringify (j : json) : string := stringify j.

(** *** Reading *)

Definition isWs (c : ascii) : bool :=
  match nat_of_ascii c with
  | 9 | 10 | 13 | 32 => true
  | _ => false
  end.

Fixpoint skipWs (s : string) : string :=
  match s with
  | EmptyString => EmptyString
  | String c r => if isWs c then skipWs r else s
  end.

Fixpoint dropPrefix (p s : string) : option string :=
  match p, s with
  | EmptyString, _ => Some s
  | String a p', String b s' => if Ascii.eqb a b then dropPrefix p' s' else None
  | String _ _, EmptyString => None
  end.

Definition hexValue (c : ascii) : option N :=
  let n := N_of_ascii c in
  if N.leb 48 n && N.leb n 57 then Some (n - 48)%N
  else if N.leb 97 n && N.leb n 102 then Some (n - 87)%N
  else if N.leb 65 n && N.leb n 70 then Some (n - 55)%N
  else None.

Definition hexValue4 (a b c d : ascii) : option N :=
  match hexValue a, hexValue b, hexValue c, hexValue d with
  | Some x, Some y, Some z, Some w => Some (((x * 16 + y) * 16 + z) * 16 + w)%N
  | _, _, _, _ => None
  end.

Definition unescape (e : ascii) : option ascii :=
  if Ascii.eqb e dquote then Some dquote
  else if Ascii.eqb e backslash then Some backslash
  else
    match e with
    | "/" => Some "/"
    | "b" => Some "008"
    | "t" => Some "009"
    | "n" => Some "010"
    | "f" => Some "012"
    | "r" => Some "013"
    | _ => None
    end%char.

Definition consChar (c : ascii) (r : option (string * string)) : option (string * string) :=
  match r with
  | Some (body, rest) => Some (String c body, rest)
  | None => None
  end.

Definition consString (s : string) (r : option (string * string))
  : option (string * string) :=
  match r with
  | Some (body, rest) => Some (s ++ body, rest)
  | None => None
  end.

Definition isHighSurrogate (n : N) : bool := N.leb 55296 n && N.leb n 56319.

Definition isLowSurrogate (n : N) : bool := N.leb 56320 n && N.leb n 57343.

(** The code point of a surrogate pair. *)
Definition pairCodePoint (hi lo : N) : N :=
  (65536 + (hi - 55296) * 1024 + (lo - 56320))%N.

(** The characters after an opening quote, up to the closing one.  A unicode
    escape stands for its code point, two escapes that form a surrogate pair
    for the code point of the pair. *)
Fixpoint parseStringBody (s : string) : option (string * string) :=
  match s with
  | EmptyString => None
  | String c r =>
      if Ascii.eqb c dquote then Some (EmptyString, r)
      else if Ascii.eqb c backslash then
        match r with
        | EmptyString => None
        | String e r1 =>
            match unescape e with
            | Some c' => consChar c' (parseStringBody r1)
            | None =>
                if Ascii.eqb e "u" then
                  match r1 with
                  | String h1 (String h2 (String h3 (String h4 r2))) =>
                      match hexValue4 h1 h2 h3 h4 with
                      | Some n =>
                          if isHighSurrogate n then
                            match r2 with
                            | String b (String u (String l1 (String l2 (String l3 (String l4 r3))))) =>
                                match hexValue4 l1 l2 l3 l4 with
                                | Some m =>
                                    if Ascii.eqb b backslash && Ascii.eqb u "u"
                                       && isLowSurrogate m
                                    then consString (utf8 (pairCodePoint n m))
                                                    (parseStringBody r3)
                                    else consString (utf8 n) (parseStringBody r2)
                                | None => consString (utf8 n) (parseStringBody r2)
                                end
                            | _ => consString (utf8 n) (parseStringBody r2)
                            end
                          else consString (utf8 n) (parseStringBody r2)
                      | None => None
                      end
                  | _ => None
                  end
                else None
            end
        end
      else if Nat.ltb (nat_of_ascii c) 32 then None
      else consChar c (parseStringBody r)
  end.

Fixpoint spanDigits (s : string) : string * string :=
  match s with
  | EmptyString => (EmptyString, EmptyString)
  | String c r =>
      if isDigit c
      then let '(ds, rest) := spanDigits r in (String c ds, rest)
      else (EmptyString, s)
  end.

Definition startsFraction (s : string) : bool :=
  match s with
  | String c _ => Ascii.eqb c "." || Ascii.eqb c "e" || Ascii.eqb c "E"
  | EmptyString => false
  end.

Definition parseSign (s : string) : bool * string :=
  match s with
  | String c r => if Ascii.eqb c "-" then (true, r) else (false, s)
  | EmptyString => (false, s)
  end.

(** The integer part of a JSON number: a single zero, or digits that do not
    start with a zero. *)
Definition validInt (int : string) : bool :=
  match int with
  | EmptyString => false
  | String c r => negb (Ascii.eqb c "0") || String.eqb r ""
  end.

(** An optional fraction: a point and at least one digit. *)
Definition parseFraction (s : string) : option (string * string) :=
  match s with
  | String c r =>
      if Ascii.eqb c "." then
        let '(f, rest) := spanDigits r in
        if String.eqb f "" then None else Some (f, rest)
      else Some (EmptyString, s)
  | EmptyString => Some (EmptyString, s)
  end.

(** An optional exponent: [e] or [E], an optional sign and at least one
    digit. *)
Definition parseExponent (s : string) : option (Z * string) :=
  match s with
  | String c r =>
      if Ascii.eqb c "e" || Ascii.eqb c "E" then
        let '(neg, r1) :=
          match r with
          | String c' r' =>
              if Ascii.eqb c' "-" then (true, r')
              else if Ascii.eqb c' "+" then (false, r')
              else (false, r)
          | EmptyString => (false, r)
          end in
        let '(ds, rest) := spanDigits r1 in
        if String.eqb ds "" then None
        else
          match NilEmpty.uint_of_string ds with
          | Some u => Some (if neg then (- Z.of_uint u)%Z else Z.of_uint u, rest)
          | None => None
          end
      else Some (0%Z, s)
  | EmptyString => Some (0%Z, s)
  end.

Definition parseUnsigned (neg : bool) (s : string) : option (number * string) :=
  let '(int, r1) := spanDigits s in
  if validInt int then
    match parseFraction r1 with
    | Some (frac, r2) =>
        match parseExponent r2 with
        | Some (e, r3) => Some (normalize neg int frac e, r3)
        | None => None
        end
    | None => None
    end
  else None.

(** The JSON number grammar: an optional minus sign, the integer part, an
    optional fraction, an optional exponent. *)
Definition parseNumber (s : string) : option (number * string) :=
  let '(neg, s1) := parseSign s in parseUnsigned neg s1.

Definition expectLiteral (lit : string) (v : json) (s : string) : option (json * string) :=
  match dropPrefix lit s with
  | Some r => Some (v, r)
  | None => None
  end.

(** Array elements after the first character of a non-empty array; [pv]
    reads one value, [n] bounds the number of elements read. *)
Fixpoint parseElements (pv : string -> option (json * string)) (n : nat) (s : string)
  : option (list json * string) :=
  match n with
  | O => None
  | S n' =>
      match pv s with
      | None => None
      | Some (v, r) =>
          match skipWs r with
          | String c r' =>
              if Ascii.eqb c "," then
                match parseElements pv n' r' with
                | Some (vs, rest) => Some (v :: vs, rest)
                | None => None
                end
              else if Ascii.eqb c "]" then Some ([v], r')
              else None
          | EmptyString => None
          end
      end
  end.

Fixpoint parseMembers (pv : string -> option (json * string)) (n : nat) (s : string)
  : option (list (string * json) * string) :=
  match n with
  | O => None
  | S n' =>
      match skipWs s with
      | String q r0 =>
          if Ascii.eqb q dquote then
            match parseStringBody r0 with
            | None => None
            | Some (k, r1) =>
                match skipWs r1 with
                | String c r2 =>
                    if Ascii.eqb c ":" then
                      match pv r2 with
                      | None => None
                      | Some (v, r3) =>
                          match skipWs r3 with
                          | String c' r4 =>
                              if Ascii.eqb c' "," then
                                match parseMembers pv n' r4 with
                                | Some (kvs, rest) => Some ((k, v) :: kvs, rest)
                                | None => None
                                end
                              else if Ascii.eqb c' "}" then Some ([(k, v)], r4)
                              else None
                          | EmptyString => None
                          end
                      end
                    else None
                | EmptyString => None
                end
            end
          else None
      | EmptyString => None
      end
  end.

Fixpoint parseValue (fuel : nat) (s : string) : option (json * string) :=
  match fuel with
  | O => None
  | S fuel' =>
      match skipWs s with
      | EmptyString => None
      | String c r =>
          if Ascii.eqb c "n" then expectLiteral "ull" JNull r
          else if Ascii.eqb c "t" then expectLiteral "rue" (JBool true) r
          else if Ascii.eqb c "f" then expectLiteral "alse" (JBool false) r
          else if Ascii.eqb c dquote then
            match parseStringBody r with
            | Some (str, rest) => Some (JString str, rest)
            | None => None
            end
          else if Ascii.eqb c "[" then
            match skipWs r with
            | String c' r' =>
                if Ascii.eqb c' "]" then Some (JArray [], r')
                else
                  match parseElements (parseValue fuel') fuel' r with
                  | Some (vs, rest) => Some (JArray vs, rest)
                  | None => None
                  end
            | EmptyString => None
            end
          else if Ascii.eqb c "{" then
            match skipWs r with
            | String c' r' =>
                if Ascii.eqb c' "}" then Some (JObject [], r')
                else
                  match parseMembers (parseValue fuel') fuel' r with
                  | Some (kvs, rest) => Some (JObject kvs, rest)
                  | None => None
                  end
            | EmptyString => None
            end
          else
            match parseNumber (String c r) with
            | Some (n, rest) => Some (JNumber n, rest)
            | None => None
            end
      end
  end.

(** [JSON.parse]: one value, surrounded by optional white space; [None]
    stands for the [SyntaxError]. *)
Definition JSON_parse (s : string) : option json :=
  match parseValue (S (String.length s)) s with
  | Some (j, rest) =>
      match skipWs rest with
      | EmptyString => Some j
      | String _ _ => None
      end
  | None => None
  end.

(** A finite number in the form [Number::toString] expects. *)
Definition finiteNumber (x : number) : bool := is_finite x && canonical x.

(** Values all of whose numbers are finite. *)
Fixpoint finiteJson (j : json) : bool :=
  match j with
  | JNumber n => finiteNumber n
  | JArray l => forallb finiteJson l
  | JObject m => forallb (fun kv => finiteJson (snd kv)) m
  | JNull | JBool _ | JString _ => true
  end.

(** A bound on the passes [parseValue] needs to read a value back. *)
Fixpoint weight (j : json) : nat :=
  match j with
  | JArray l => S (length l + list_sum (map weight l))
  | JObject m => S (length m + list_sum (map (fun kv => weight (snd kv)) m))
  | JNull | JBool _ | JNumber _ | JString _ => 1
  end.

(** What may follow a number: no further digit, fraction or exponent. *)
Definition digitFree (rest : string) : bool :=
  match rest with
  | EmptyString => true
  | String c _ => negb (isDigit c)
  end.

Definition numberEnds (rest : string) : bool :=
  digitFree rest && negb (startsFraction rest).

(** Induction over values, with the hypothesis available for every element
    of an array and every member of an object. *)
Section JsonInduction.

Variable Pj : json -> Prop.
Hypothesis Hnull : Pj JNull.
Hypothesis Hbool : forall b, Pj (JBool b).
Hypothesis Hnumber : forall n, Pj (JNumber n).
Hypothesis Hstring : forall s, Pj (JString s).
Hypothesis Harray : forall l, Forall Pj l -> Pj (JArray l).
Hypothesis Hobject : forall m, Forall (fun kv => Pj (snd kv)) m -> Pj (JObject m).

Fixpoint json_induction (j : json) : Pj j :=
  match j with
  | JNull => Hnull
  | JBool b => Hbool b
  | JNumber n => Hnumber n
  | JString s => Hstring s
  | JArray l =>
      Harray l
        ((fix all (l : list json) : Forall Pj l :=
            match l with
            | [] => Forall_nil Pj
            | x :: l' => Forall_cons x (json_induction x) (all l')
            end) l)
  | JObject m =>
      Hobject m
        ((fix all (m : list (string * json)) : Forall (fun kv => Pj (snd kv)) m :=
            match m with
            | [] => Forall_nil _
            | kv :: m' => Forall_cons kv (json_induction (snd kv)) (all m')
            end) m)
  end.

End JsonInduction.

(** *** Blocks as JavaScript values

    [jsonOfBlock] is the object a [Block] is at run time: the properties of
    the literal that creates it, in that order, a property whose value is
    [undefined] being left out as [JSON.stringify] does.  [blockOfJson] reads
    the same properties back as the type [Block] declares them. *)

Definition optField (k : string) (o : option json) : list (string * json) :=
  match o with
  | Some v => [(k, v)]
  | None => []
  end.

Definition jsonOfStrings (l : list string) : json :=
  JArray (map JString l).

Definition jsonOfTable (t : TableData) : json :=
  JObject ([("rows", JArray (map jsonOfStrings (rows t)))]
           ++ optField "colHeaders" (option_map jsonOfStrings (colHeaders t))
           ++ optField "rowHeaders" (option_map jsonOfStrings (rowHeaders t)))%list.

Definition chartTypeName (t : ChartType) : string :=
  match t with
  | line => "line"
  | bar => "bar"
  end.

Definition jsonOfPoint (p : ChartPoint) : json :=
  JObject [("name", JString (name p)); ("value", JNumber (value p))].

Definition jsonOfChart (c : ChartData) : json :=
  JObject ([("type", JString (chartTypeName (chartType c)))]
           ++ optField "title" (option_map JString (title c))
           ++ [("data", JArray (map jsonOfPoint (data c)))]
           ++ optField "xAxisLabel" (option_map JString (xAxisLabel c))
           ++ optField "yAxisLabel" (option_map JString (yAxisLabel c)))%list.

Definition blockTypeName (t : BlockType) : string :=
  match t with
  | text => "text"
  | image => "image"
  | table => "table"
  | chart => "chart"
  end.

Definition jsonOfBlock (b : Block) : json :=
  JObject ([("id", JString (id b));
            ("type", JString (blockTypeName (type b)));
            ("content", JString (content b))]
           ++ optField "width" (option_map JNumber (width b))
           ++ optField "tableData" (option_map jsonOfTable (tableData b))
           ++ optField "chartData" (option_map jsonOfChart (chartData b)))%list.

Definition jsonOfBlocks (blocks : list Block) : json :=
  JArray (map jsonOfBlock blocks).

(** Property read [o.k]: the last member named [k], if any. *)
Fixpoint getField (k : string) (m : list (string * json)) : option json :=
  match m with
  | [] => None
  | (k', v) :: m' =>
      match getField k m' with
      | Some v' => Some v'
      | None => if String.eqb k' k then Some v else None
      end
  end.

Fixpoint traverse {A B : Type} (f : A -> option B) (l : list A) : option (list B) :=
  match l with
  | [] => Some []
  | x :: l' =>
      match f x, traverse f l' with
      | Some y, Some ys => Some (y :: ys)
      | _, _ => None
      end
  end.

Definition asString (j : json) : option string :=
  match j with
  | JString s => Some s
  | _ => None
  end.

Definition asNumber (j : json) : option number :=
  match j with
  | JNumber n => Some n
  | _ => None
  end.

Definition asStrings (j : json) : option (list string) :=
  match j with
  | JArray l => traverse asString l
  | _ => None
  end.

(** An optional property: absent, or present with the declared type. *)
Definition optional {A : Type} (read : json -> option A) (o : option json)
  : option (option A) :=
  match o with
  | None => Some None
  | Some j =>
      match read j with
      | Some a => Some (Some a)
      | None => None
      end
  end.

Definition required {A : Type} (read : json -> option A) (o : option json) : option A :=
  match o with
  | None => None
  | Some j => read j
  end.

Definition tableOfJson (j : json) : option TableData :=
  match j with
  | JObject m =>
      match required (fun r => match r with
                               | JArray l => traverse asStrings l
                               | _ => None
                               end) (getField "rows" m),
            optional asStrings (getField "colHeaders" m),
            optional asStrings (getField "rowHeaders" m) with
      | Some r, Some c, Some h => Some (mkTable r c h)
      | _, _, _ => None
      end
  | _ => None
  end.

Definition chartTypeOfName (s : string) : option ChartType :=
  if String.eqb s "line" then Some line
  else if String.eqb s "bar" then Some bar
  else None.

Definition pointOfJson (j : json) : option ChartPoint :=
  match j with
  | JObject m =>
      match required asString (getField "name" m),
            required asNumber (getField "value" m) with
      | Some n, Some v => Some (mkPoint n v)
      | _, _ => None
      end
  | _ => None
  end.

Definition chartOfJson (j : json) : option ChartData :=
  match j with
  | JObject m =>
      match required (fun t => match asString t with
                               | Some s => chartTypeOfName s
                               | None => None
                               end) (getField "type" m),
            optional asString (getField "title" m),
            optional asString (getField "xAxisLabel" m),
            optional asString (getField "yAxisLabel" m),
            required (fun d => match d with
                               | JArray l => traverse pointOfJson l
                               | _ => None
                               end) (getField "data" m) with
      | Some t, Some ti, Some x, Some y, Some d => Some (mkChart t ti x y d)
      | _, _, _, _, _ => None
      end
  | _ => None
  end.

Definition blockTypeOfName (s : string) : option BlockType :=
  if String.eqb s "text" then Some text
  else if String.eqb s "image" then Some image
  else if String.eqb s "table" then Some table
  else if String.eqb s "chart" then Some chart
  else None.

Definition blockOfJson (j : json) : option Block :=
  match j with
  | JObject m =>
      match required asString (getField "id" m),
            required (fun t => match asString t with
                               | Some s => blockTypeOfName s
                               | None => None
                               end) (getField "type" m),
            required asString (getField "content" m),
            optional asNumber (getField "width" m),
            optional tableOfJson (getField "tableData" m),
            optional chartOfJson (getField "chartData" m) with
      | Some i, Some t, Some c, Some w, Some td, Some cd => Some (mkBlock i t c w td cd)
      | _, _, _, _, _, _ => None
      end
  | _ => None
  end.

Definition blocksOfJson (j : json) : option (list Block) :=
  match j with
  | JArray l => traverse blockOfJson l
  | _ => None
  end.

(** *** Persistence (RichNoteEditor.tsx, lines 374-390) *)

(** [s.startsWith(p)] *)
Definition startsWith (s p : string) : bool := String.prefix p s.

(** [s.endsWith(p)]: the last [p.length] characters of [s] are [p]. *)
Definition endsWith (s p : string) : bool :=
  if Nat.ltb (String.length s) (String.length p) then false
  else String.eqb (String.substring (String.length s - String.length p)
                                    (String.length p) s) p.

(** [updateBlocks]: what [onChange] receives. *)
Definition encode (blocks : list Block) : string :=
  JSON_stringify (jsonOfBlocks blocks).

(** The legacy document: [[{ id: 'initial', type: 'text', content: value }]]. *)
Definition legacyBlocks (value : string) : list Block :=
  [textBlock "initial" value].

(** The effect of lines 374-385 on [blocks], for any reader [parse] of JSON
    text: the value handed to [setBlocks]. *)
Definition decodeWith (parse : string -> option json) (value : string) : json :=
  if startsWith value "[" && endsWith value "]" then
    match parse value with
    | Some j => j
    | None => jsonOfBlocks (legacyBlocks value)
    end
  else jsonOfBlocks (legacyBlocks value).

Definition decode (value : string) : json := decodeWith JSON_parse value.

(** [s.trim()], for the white space characters of one byte. *)
Definition isSpace (c : ascii) : bool :=
  match nat_of_ascii c with
  | 9 | 10 | 11 | 12 | 13 | 32 => true
  | _ => false
  end.

Fixpoint trimStart (s : string) : string :=
  match s with
  | EmptyString => EmptyString
  | String c r => if isSpace c then trimStart r else s
  end.

Fixpoint trimEnd (s : string) : string :=
  match s with
  | EmptyString => EmptyString
  | String c r =>
      match trimEnd r with
      | EmptyString => if isSpace c then EmptyString else String c EmptyString
      | r' => String c r'
      end
  end.

Definition trim (s : string) : string := trimEnd (trimStart s).

(** The detection rule as the specification words it: the test is made on
    the trimmed text. *)
Definition spec_looksStructured (raw : string) : bool :=
  startsWith (trim raw) "[" && endsWith (trim raw) "]".

(** Stored numbers that [JSON.stringify] writes as numbers. *)
Definition finiteOpt (o : option number) : bool :=
  match o with
  | Some n => finiteNumber n
  | None => true
  end.

Definition finiteChart (c : ChartData) : bool :=
  forallb (fun p => finiteNumber (value p)) (data c).

Definition finiteBlock (b : Block) : bool :=
  finiteOpt (width b)
  && match chartData b with
     | Some c => finiteChart c
     | None => true
     end.

Local Open Scope list_scope.
Local Open Scope nat_scope.
(** ** Export (ProjectView.tsx, lines 310-458)

    The routine renders a cover and then every note to a canvas and cuts each
    note canvas into page-high slices.  Assembling the HTML and rasterising
    it ([html2canvas]) are inputs: [renderCover] and [renderNote] give the
    canvas, or the message of the error the rasteriser raised.

    Lengths are JavaScript numbers, that is IEEE 754 binary64 values: the
    type [spec_float] of the standard library's specification of
    floating-point arithmetic, with its operations at precision 53 and
    exponent bound 1024 (rounding to nearest, ties to even). *)

Definition double : Type := spec_float.

Definition dadd : double -> double -> double := SFadd 53 1024.
Definition dsub : double -> double -> double := SFsub 53 1024.
Definition dmul : double -> double -> double := SFmul 53 1024.
Definition ddiv : double -> double -> double := SFdiv 53 1024.

(** The double nearest to an integer (the integer itself below 2^53). *)
Definition doubleOfZ (z : Z) : double := binary_normalize 53 1024 z 0 false.



(** [Math.min(x, y)]: [NaN] when an argument is [NaN]; the negative zero
    counts as smaller than the positive one. *)
Definition Math_min (x y : double) : double :=
  match SFcompare x y with
  | None => S754_nan
  | Some Lt => x
  | Some Gt => y
  | Some Eq =>
      match x with
      | S754_zero true => x
      | _ => y
      end
  end.

(** [x > 0]: false for [NaN]. *)
Definition isPositive (x : double) : bool := SFltb (S754_zero false) x.

Module Types.

Record User : Type := mkUser {
  email : string
}.

Record Project : Type := mkProject {
  name : string;
  description : string
}.

Record Note : Type := mkNote {
  title : string;
  content : string;
  date : string
}.

End Types.

Module Canvas.

(** [canvas.width] and [canvas.height], in pixels: whole numbers. *)
Record t : Type := make {
  width : N;
  height : N
}.

Definition widthD (c : t) : double := doubleOfZ (Z.of_N (width c)).

Definition heightD (c : t) : double := doubleOfZ (Z.of_N (height c)).

End Canvas.

Inductive rendered : Type :=
| Rendered (canvas : Canvas.t)
| RenderError (message : string).

(** What [addImage] is given: the whole cover canvas, or the source
    rectangle [(0, sourceY, canvas.width, sliceHeight)] of a note canvas. *)
Inductive Picture : Type :=
| WholeCanvas (canvas : Canvas.t)
| CanvasSlice (canvas : Canvas.t) (sourceY sliceHeight : double).

Record Image : Type := mkImage {
  picture : Picture;
  imageX : double;
  imageY : double;
  imageWidth : double;
  imageHeight : double
}.

(** A [jsPDF] document: its pages, first to last, each with the images drawn
    on it. *)
Definition Pdf : Type := list (list Image).

Definition newPdf : Pdf := [[]].

Definition addPage (pdf : Pdf) : Pdf := pdf ++ [[]].

(** [pdf.addImage] draws on the current (last) page. *)
Fixpoint addImage (img : Image) (pdf : Pdf) : Pdf :=
  match pdf with
  | [] => []
  | [page] => [page ++ [img]]
  | page :: rest => page :: addImage img rest
  end.

(** [pageWidth] and [pageHeight] are what [jsPDF] reports for the page. *)
Record Env : Type := mkEnv {
  pageWidth : double;
  pageHeight : double;
  renderCover : Types.Project -> option Types.User -> rendered;
  renderNote : Types.Note -> rendered;
  ctx2d : bool
}.

Definition margin : double := doubleOfZ 10.

Record Slice : Type := mkSlice {
  sliceY : double;
  sliceHeight : double
}.

(** The variables of the slicing [while] loop, with the log of the source
    rectangles taken so far. *)
Record SliceState : Type := mkSliceState {
  pdf : Pdf;
  heightLeftPx : double;
  sourceY : double;
  pageNum : nat;
  slices : list Slice
}.

(** One pass through the loop body, lines 417-442. *)
Definition sliceBody (env : Env) (canvas : Canvas.t) (imgWidth pxPerPage : double)
  (st : SliceState) : SliceState :=
  let pdf1 := if Nat.ltb 0 (pageNum st) then addPage (pdf st) else pdf st in
  let currentSliceHeightPx := Math_min (heightLeftPx st) pxPerPage in
  let pdf2 :=
    if ctx2d env then
      let sliceHeightMm :=
        ddiv (dmul currentSliceHeightPx imgWidth) (Canvas.widthD canvas) in
      addImage (mkImage (CanvasSlice canvas (sourceY st) currentSliceHeightPx)
                        margin margin imgWidth sliceHeightMm) pdf1
    else pdf1 in
  mkSliceState pdf2
    (dsub (heightLeftPx st) currentSliceHeightPx)
    (dadd (sourceY st) currentSliceHeightPx)
    (S (pageNum st))
    (slices st ++ [mkSlice (sourceY st) currentSliceHeightPx]).

(** [while (heightLeftPx > 0) { body; if (pageNum > 20) break; }];
    [None] when [fuel] passes are not enough. *)
Fixpoint sliceLoop (fuel : nat) (env : Env) (canvas : Canvas.t)
  (imgWidth pxPerPage : double) (st : SliceState) : option SliceState :=
  if isPositive (heightLeftPx st) then
    match fuel with
    | O => None
    | S fuel' =>
        let st' := sliceBody env canvas imgWidth pxPerPage st in
        if Nat.ltb 20 (pageNum st') then Some st'
        else sliceLoop fuel' env canvas imgWidth pxPerPage st'
    end
  else Some st.

(** [pageWidth - (margin * 2)] *)
Definition imgWidthOf (env : Env) : double :=
  dsub (pageWidth env) (dmul margin (doubleOfZ 2)).

(** [pageHeight - (margin * 2)] *)
Definition pageContentHeightOf (env : Env) : double :=
  dsub (pageHeight env) (dmul margin (doubleOfZ 2)).

(** [pxPerPage = (pageContentHeight * canvas.width) / imgWidth] *)
Definition pxPerPageOf (env : Env) (canvas : Canvas.t) : double :=
  ddiv (dmul (pageContentHeightOf env) (Canvas.widthD canvas)) (imgWidthOf env).

(** The state in which the loop is entered for one note canvas. *)
Definition sliceStart (pdf0 : Pdf) (canvas : Canvas.t) : SliceState :=
  mkSliceState pdf0 (Canvas.heightD canvas) (doubleOfZ 0) 0 [].

(** Lines 406-445 for one rendered note. *)
Definition paginate (fuel : nat) (env : Env) (canvas : Canvas.t) (pdf0 : Pdf)
  : option SliceState :=
  sliceLoop fuel env canvas (imgWidthOf env) (pxPerPageOf env canvas)
    (sliceStart pdf0 canvas).

(** The [for] loop over the notes, lines 364-446: the document, or the
    message of the error that left the [try] block. *)
Fixpoint notesLoop (fuel : nat) (env : Env) (notes : list Types.Note) (pdf0 : Pdf)
  : option (Pdf + string) :=
  match notes with
  | [] => Some (inl pdf0)
  | note :: rest =>
      let pdf1 := addPage pdf0 in
      match renderNote env note with
      | RenderError m => Some (inr m)
      | Rendered canvas =>
          match paginate fuel env canvas pdf1 with
          | None => None
          | Some st => notesLoop fuel env rest (pdf st)
          end
      end
  end.

(** The part of the component state the routine writes. *)
Record View : Type := mkView {
  error : option string;
  isExporting : bool
}.

Record Exported : Type := mkExported {
  view : View;
  saved : option (string * Pdf)
}.

(** The [catch] and [finally] clauses. *)
Definition exportFailed (v : View) (message : string) : Exported :=
  let shown := if String.eqb message "" then "Unknown error" else message in
  mkExported
    (mkView (Some ("Failed to export PDF: " ++ shown ++ ". Check console for details.")%string)
            false)
    None.

Definition exportToPDF (fuel : nat) (env : Env) (v : View)
  (project : Types.Project) (user : option Types.User) (notes : list Types.Note)
  : option Exported :=
  if Nat.eqb (length notes) 0 then
    Some (mkExported (mkView (Some "No notes to export.") (isExporting v)) None)
  else
    match renderCover env project user with
    | RenderError m => Some (exportFailed v m)
    | Rendered coverCanvas =>
        let imgWidth := imgWidthOf env in
        let coverImgHeight :=
          ddiv (dmul (Canvas.heightD coverCanvas) imgWidth)
               (Canvas.widthD coverCanvas) in
        let pdf0 :=
          addImage (mkImage (WholeCanvas coverCanvas) margin margin imgWidth coverImgHeight)
                   newPdf in
        match notesLoop fuel env notes pdf0 with
        | None => None
        | Some (inr m) => Some (exportFailed v m)
        | Some (inl pdf1) =>
            Some (mkExported (mkView (error v) false)
                    (Some ((Types.name project ++ "_Research_Report.pdf")%string, pdf1)))
        end
    end.

(** The slices as the loop cuts them, told in double arithmetic: [l]
    continues a run in which [heightLeft] is left and the next slice starts
    at [start].  Each slice is [Math.min(heightLeft, pxPerPage)] high, the
    next one starts at the rounded sum of its start and its height, and what
    is left is reduced by the rounded difference. *)
Fixpoint cutFrom (pxPerPage heightLeft start : double) (l : list Slice) : Prop :=
  match l with
  | [] => True
  | s :: l' =>
      sliceY s = start /\
      sliceHeight s = Math_min heightLeft pxPerPage /\
      cutFrom pxPerPage (dsub heightLeft (sliceHeight s)) (dadd start (sliceHeight s)) l'
  end.


(** [pxPerPage] added [k] times to 0, and subtracted [k] times from
    [height], each result rounded. *)
Definition gridY (pxPerPage : double) (k : nat) : double :=
  Nat.iter k (fun y => dadd y pxPerPage) (doubleOfZ 0).

Definition leftAfter (pxPerPage height : double) (k : nat) : double :=
  Nat.iter k (fun h => dsub h pxPerPage) height.

(** The ceiling of [h / p], for a positive [p]. *)
Definition ceilDiv (h p : Z) : Z := ((h + p - 1) / p)%Z.



(** ** Block identifiers

    An id is ['initial'] (the legacy document) or [Date.now().toString()],
    for the inserted block, and [(Date.now() + 1).toString()], for the text
    block that follows it.  [uniqueIds bound blocks]: no id occurs twice, and
    every id is ['initial'] or the decimal form of a clock reading below
    [bound]. *)

Definition stamped (bound : Z) (i : string) : Prop :=
  i = "initial" \/ exists t, (t < bound)%Z /\ i = toString t.

Definition uniqueIds (bound : Z) (blocks : list Block) : Prop :=
  NoDup (map id blocks) /\ Forall (fun b => stamped bound (id b)) blocks.

(** [data.rows[r]?.[c]]: the cell in row [r] and column [c], if there is
    one. *)
Definition cell (d : TableData) (r c : nat) : option string :=
  match nth_error (rows d) r with
  | Some row => nth_error row c
  | None => None
  end.

(** ** Reading a stored note (ProjectView.tsx, lines 243-308 and 376-397)

    The search filter, the note card, the read-only view and the export
    parse the stored text themselves and work on the parsed value, whatever
    it is: the value need not be a list of blocks.  An evaluation either
    completes with a value or raises a [TypeError], which the [catch] clause
    around it turns into the fallback. *)

Inductive completion (A : Type) : Type :=
| Normal (a : A)
| Raised.

Arguments Normal {A} a.
Arguments Raised {A}.

Definition bind {A B : Type} (c : completion A) (f : A -> completion B) : completion B :=
  match c with
  | Normal a => f a
  | Raised => Raised
  end.

Local Notation "x <- c ;; f" := (bind c (fun x => f))
  (at level 61, c at next level, right associativity).

(** [array.map(f)], the callback being run on the elements in turn. *)
Fixpoint mapM {A B : Type} (f : A -> completion B) (l : list A) : completion (list B) :=
  match l with
  | [] => Normal []
  | x :: l' => y <- f x;; ys <- mapM f l';; Normal (y :: ys)
  end.

(** [array.find(p)] *)
Fixpoint findM {A : Type} (p : A -> completion bool) (l : list A) : completion (option A) :=
  match l with
  | [] => Normal None
  | x :: l' => t <- p x;; if t then Normal (Some x) else findM p l'
  end.

(** The three properties the readers look at. *)
Inductive Key : Type := KType | KContent | KWidth.

Definition keyName (k : Key) : string :=
  match k with
  | KType => "type"
  | KContent => "content"
  | KWidth => "width"
  end.

(** [b.type], [b.content], [b.width] for a parsed value [b]: reading a
    property of [null] raises; an object gives its member or [undefined]; a
    boolean, a number, a string and an array have no property of these
    names. *)
Definition property (k : Key) (b : json) : completion (option json) :=
  match b with
  | JNull => Raised
  | JObject m => Normal (getField (keyName k) m)
  | JBool _ | JNumber _ | JString _ | JArray _ => Normal None
  end.

(** [b.type === k] *)
Definition hasType (k : string) (b : json) : completion bool :=
  v <- property KType b;;
  Normal (match v with
          | Some (JString s) => String.eqb s k
          | _ => false
          end).

(** [ToBoolean]: [undefined], [null], [false], zero, [NaN] and the empty
    string are falsy. *)
Definition truthy (v : option json) : bool :=
  match v with
  | None | Some JNull => false
  | Some (JBool b) => b
  | Some (JNumber Zero) | Some (JNumber NaN) => false
  | Some (JNumber _) => true
  | Some (JString s) => negb (String.eqb s "")
  | Some (JArray _) | Some (JObject _) => true
  end.

(** [v || d] *)
Definition orElse (v : option json) (d : json) : json :=
  match v with
  | Some j => if truthy v then j else d
  | None => d
  end.

(** Each element's [ToString], or the first [TypeError]. *)
Fixpoint sequence {A : Type} (l : list (completion A)) : completion (list A) :=
  match l with
  | [] => Normal []
  | c :: l' => x <- c;; xs <- sequence l';; Normal (x :: xs)
  end.

(** [ToString] of a parsed value.  An array is its elements joined by
    commas, [null] elements giving the empty string; an object is
    ['[object Object]'], unless it has a member named [toString], which
    hides the method and leaves no way to a primitive. *)
Fixpoint ToString (j : json) : completion string :=
  match j with
  | JNull => Normal "null"
  | JBool true => Normal "true"
  | JBool false => Normal "false"
  | JNumber n => Normal (Number_toString n)
  | JString s => Normal s
  | JArray l =>
      strings <- sequence (map (fun x => match x with
                                         | JNull => Normal ""
                                         | _ => ToString x
                                         end) l);;
      Normal (joinWith "," strings)
  | JObject m =>
      match getField "toString" m with
      | Some _ => Raised
      | None => Normal "[object Object]"
      end
  end.

(** [`${v}`] *)
Definition toText (v : option json) : completion string :=
  match v with
  | None => Normal "undefined"
  | Some j => ToString j
  end.

(** [array.join(sep)]: [undefined] and [null] give the empty string. *)
Definition join (sep : string) (items : list (option json)) : completion string :=
  strings <- sequence (map (fun x => match x with
                                     | None | Some JNull => Normal ""
                                     | Some j => ToString j
                                     end) items);;
  Normal (joinWith sep strings).

(** A method of [Array.prototype] called on a parsed value: a [TypeError]
    unless the value is an array. *)
Definition arrayOf (j : json) : completion (list json) :=
  match j with
  | JArray l => Normal l
  | _ => Raised
  end.

Definition bracketed (content : string) : bool :=
  startsWith content "[" && endsWith content "]".

(** [contentText] of [filteredNotes], lines 247-253. *)
Definition searchText (content : string) : string :=
  if bracketed content then
    match JSON_parse content with
    | None => content
    | Some blocks =>
        match (l <- arrayOf blocks;;
               items <- mapM (fun b => t <- hasType "text" b;;
                                       if t then property KContent b
                                       else Normal (Some (JString ""))) l;;
               join " " items) with
        | Normal s => s
        | Raised => content
        end
    end
  else content.

(** [s.includes(t)] *)
Fixpoint includes (s t : string) : bool :=
  String.prefix t s
  || match s with
     | EmptyString => false
     | String _ r => includes r t
     end.

(** [filteredNotes], lines 243-257.  [toLowerCase] is the case mapping of
    the platform. *)
Definition filteredNotes (toLowerCase : string -> string)
  (notes : list Types.Note) (search : string) : list Types.Note :=
  filter (fun n =>
            let searchLower := toLowerCase search in
            let titleMatch := includes (toLowerCase (Types.title n)) searchLower in
            let contentMatch :=
              includes (toLowerCase (searchText (Types.content n))) searchLower in
            titleMatch || contentMatch) notes.

(** [toLowerCase] on text whose letters are ASCII. *)
Fixpoint toLowerCaseAscii (s : string) : string :=
  match s with
  | EmptyString => EmptyString
  | String c r =>
      let n := nat_of_ascii c in
      String (if Nat.leb 65 n && Nat.leb n 90 then ascii_of_nat (n + 32) else c)
             (toLowerCaseAscii r)
  end.

(** What the note card shows, lines 286-308: the two values the markup is
    built from, or the raw text. *)
Inductive Summary : Type :=
| Structured (firstText : json) (firstImage : option json)
| PlainSummary (content : string).

(** [found?.content] *)
Definition contentOfFound (found : option json) : completion (option json) :=
  match found with
  | None => Normal None
  | Some b => property KContent b
  end.

Definition renderNoteSummary (content : string) : Summary :=
  if bracketed content then
    match JSON_parse content with
    | None => PlainSummary content
    | Some blocks =>
        match (l <- arrayOf blocks;;
               t <- findM (hasType "text") l;;
               firstText <- contentOfFound t;;
               i <- findM (hasType "image") l;;
               firstImage <- contentOfFound i;;
               Normal (Structured (orElse firstText (JString "")) firstImage)) with
        | Normal s => s
        | Raised => PlainSummary content
        end
    end
  else PlainSummary content.

(** The read-only view, lines 259-284: per block a paragraph with the
    content as its child, or an image with the content as its source in a
    box of the given width (a percentage). *)
Inductive BlockView : Type :=
| Paragraph (child : option json)
| Figure (widthPercent : string) (src : option json).

Inductive NoteView : Type :=
| BlockViews (views : list BlockView)
| PlainText (content : string).

Definition blockView (b : json) : completion BlockView :=
  t <- hasType "text" b;;
  if t then
    c <- property KContent b;; Normal (Paragraph c)
  else
    w <- property KWidth b;;
    percent <- ToString (orElse w (JNumber (numberOfZ 100)));;
    c <- property KContent b;;
    Normal (Figure percent c).

Definition renderNoteContent (content : string) : NoteView :=
  if bracketed content then
    match JSON_parse content with
    | None => PlainText content
    | Some blocks =>
        match (l <- arrayOf blocks;; mapM blockView l) with
        | Normal views => BlockViews views
        | Raised => PlainText content
        end
    end
  else PlainText content.

(** The body of a note in the export, lines 376-397: the pieces appended
    to [noteHtml], each an instance of one of the two templates with the
    interpolated texts. *)
Inductive Fragment : Type :=
| TextFragment (content : string)
| ImageFragment (widthPercent src : string).

Definition blockFragment (b : json) : completion Fragment :=
  t <- hasType "text" b;;
  if t then
    c <- property KContent b;; s <- toText c;; Normal (TextFragment s)
  else
    w <- property KWidth b;;
    percent <- ToString (orElse w (JNumber (numberOfZ 100)));;
    c <- property KContent b;;
    s <- toText c;;
    Normal (ImageFragment percent s).

(** [blocks.forEach] appends as it goes: the pieces appended before a block
    raises stay, and the flag tells whether one did. *)
Fixpoint appendBlocks (l : list json) : list Fragment * bool :=
  match l with
  | [] => ([], false)
  | b :: l' =>
      match blockFragment b with
      | Raised => ([], true)
      | Normal f => let '(fs, raised) := appendBlocks l' in (f :: fs, raised)
      end
  end.

Definition noteBody (content : string) : list Fragment :=
  if bracketed content then
    match JSON_parse content with
    | None => [TextFragment content]
    | Some (JArray l) =>
        let '(fs, raised) := appendBlocks l in
        if raised then fs ++ [TextFragment content] else fs
    | Some _ => [TextFragment content]
    end
  else [TextFragment content].

(** The same views told from the typed document. *)
Definition widthText (w : option number) : string :=
  match w with
  | Some n => if truthy (Some (JNumber n)) then Number_toString n else "100"
  | None => "100"
  end.

Definition typedView (b : Block) : BlockView :=
  if BlockType_eqb (type b) text then Paragraph (Some (JString (content b)))
  else Figure (widthText (width b)) (Some (JString (content b))).

Definition typedFragment (b : Block) : Fragment :=
  if BlockType_eqb (type b) text then TextFragment (content b)
  else ImageFragment (widthText (width b)) (content b).

(** ** The pages of the exported document

    What the slicing loop leaves in the document, told from the slices: the
    image drawn for a slice, and the pages a note takes. *)

Definition sliceImage (env : Env) (canvas : Canvas.t) (s : Slice) : Image :=
  mkImage (CanvasSlice canvas (sliceY s) (sliceHeight s))
          margin margin (imgWidthOf env)
          (ddiv (dmul (sliceHeight s) (imgWidthOf env)) (Canvas.widthD canvas)).

(** What is drawn on the page of a slice: its image, or nothing when the
    slice canvas gives no drawing context. *)
Definition slicePage (env : Env) (canvas : Canvas.t) (s : Slice) : list Image :=
  if ctx2d env then [sliceImage env canvas s] else [].

(** One page per slice; the page opened for the note stays empty when the
    canvas gives no slice. *)
Definition pagesOf (env : Env) (canvas : Canvas.t) (l : list Slice) : Pdf :=
  match l with
  | [] => [[]]
  | _ => map (slicePage env canvas) l
  end.

(** The slices the loop cuts a canvas into. *)
Definition slicesOf (fuel : nat) (env : Env) (canvas : Canvas.t) : list Slice :=
  match paginate fuel env canvas newPdf with
  | Some st => slices st
  | None => []
  end.

Definition notePages (fuel : nat) (env : Env) (canvas : Canvas.t) : Pdf :=
  pagesOf env canvas (slicesOf fuel env canvas).

Definition coverPage (env : Env) (cover : Canvas.t) : list Image :=
  [mkImage (WholeCanvas cover) margin margin (imgWidthOf env)
           (ddiv (dmul (Canvas.heightD cover) (imgWidthOf env)) (Canvas.widthD cover))].

(** ** Header edits (RichNoteEditor.tsx, lines 243-253)

    [updateColHeader] and [updateRowHeader] write into a copy of the stored
    header list, or of the positional defaults when none is stored.  A
    write past the end extends a JavaScript array and leaves holes in
    between, so the list handed to [onChange] is a list of entries that may
    be missing. *)

(** [a[i] = v] on a copy of [l]. *)
Definition arrayWrite (l : list string) (i : nat) (v : string) : list (option string) :=
  if Nat.ltb i (length l)
  then mapi (fun x k => Some (if Nat.eqb k i then v else x)) l
  else map Some l ++ repeat None (i - length l) ++ [Some v].

(** The table a header editor hands to [onChange]. *)
Record WrittenTable : Type := mkWritten {
  writtenRows : list (list string);
  writtenColHeaders : option (list (option string));
  writtenRowHeaders : option (list (option string))
}.

Definition updateColHeader (d : TableData) (colIndex : nat) (v : string)
  : outcome WrittenTable :=
  match colHeaders d, rows d with
  | Some h, _ =>
      Emit (mkWritten (rows d) (Some (arrayWrite h colIndex v))
              (option_map (map Some) (rowHeaders d)))
  | None, [] => Throw
  | None, r0 :: _ =>
      Emit (mkWritten (rows d)
              (Some (arrayWrite (mapi (fun _ i => fromCharCode (65 + i)) r0) colIndex v))
              (option_map (map Some) (rowHeaders d)))
  end.

Definition updateRowHeader (d : TableData) (rowIndex : nat) (v : string)
  : outcome WrittenTable :=
  let old :=
    match rowHeaders d with
    | Some h => h
    | None => mapi (fun _ i => toString (Z.of_nat (i + 1))) (rows d)
    end in
  Emit (mkWritten (rows d) (option_map (map Some) (colHeaders d))
          (Some (arrayWrite old rowIndex v))).

(** The written table as a [TableData], when no header entry is missing. *)
Definition dense (l : option (list (option string))) : option (option (list string)) :=
  match l with
  | None => Some None
  | Some entries =>
      match traverse (fun x => x) entries with
      | Some h => Some (Some h)
      | None => None
      end
  end.

Definition tableOfWritten (w : WrittenTable) : option TableData :=
  match dense (writtenColHeaders w), dense (writtenRowHeaders w) with
  | Some c, Some r => Some (mkTable (writtenRows w) c r)
  | _, _ => None
  end.

(** ** Saving a note (ProjectView.tsx, lines 77-102, 489 and 753-773)

    [editingNote] is a [Partial<Note>]: each property may be missing.  The
    handler either returns at once or sends one write to the [notes] table;
    the write it sends is its result here. *)

Record EditingNote : Type := mkEditing {
  editingId : option Z;
  editingTitle : option string;
  editingContent : option string;
  editingDate : option string
}.

Inductive NoteWrite : Type :=
| InsertNote (title content date : string)
| UpdateNote (noteId : Z) (title content date : string).

(** [today] is [new Date().toISOString().split('T')[0]]. *)
Definition handleSaveNote (today : string) (editingNote : option EditingNote)
  : option NoteWrite :=
  match editingNote with
  | None => None
  | Some e =>
      match editingTitle e, editingContent e with
      | Some t, Some c =>
          if String.eqb t "" || String.eqb c "" then None
          else
            let date :=
              match editingDate e with
              | Some d => if String.eqb d "" then today else d
              | None => today
              end in
            match editingId e with
            | Some i =>
                if Z.eqb i 0 then Some (InsertNote t c date)
                else Some (UpdateNote i t c date)
            | None => Some (InsertNote t c date)
            end
      | _, _ => None
      end
  end.

(** The state the 'New Note' button sets, and the two [onChange] handlers
    of the form: [{ ...editingNote, title }] and [{ ...editingNote, content }]. *)
Definition newNote (today : string) : EditingNote :=
  mkEditing None (Some "") (Some "") (Some today).

Definition onTitle (editingNote : option EditingNote) (t : string) : EditingNote :=
  match editingNote with
  | Some e => mkEditing (editingId e) (Some t) (editingContent e) (editingDate e)
  | None => mkEditing None (Some t) None None
  end.

Definition onContent (editingNote : option EditingNote) (c : string) : EditingNote :=
  match editingNote with
  | Some e => mkEditing (editingId e) (editingTitle e) (Some c) (editingDate e)
  | None => mkEditing None None (Some c) None
  end.

(** ** The note preview of the dashboard (Dashboard.tsx, lines 95-103) *)

(** Whether [s] has a ['>']. *)
Fixpoint hasClose (s : string) : bool :=
  match s with
  | EmptyString => false
  | String c r => Ascii.eqb c ">" || hasClose r
  end.

(** [s.replace(/<[^>]*>/g, '')]: at a ['<'] that has a ['>'] after it the
    pattern matches up to the first such ['>'] and the match is dropped
    ([skipTag]); every other character is kept. *)
Fixpoint stripTags (s : string) : string :=
  match s with
  | EmptyString => EmptyString
  | String c r =>
      if Ascii.eqb c "<" && hasClose r then skipTag r
      else String c (stripTags r)
  end
with skipTag (s : string) : string :=
  match s with
  | EmptyString => EmptyString
  | String c r => if Ascii.eqb c ">" then stripTags r else skipTag r
  end.

(** The placeholder shown for a block that is not text: the word for
    'image' between square brackets (code points U+C774, U+BBF8, U+C9C0). *)
Definition imagePlaceholder : string :=
  ("[" ++ utf8 51060 ++ utf8 48120 ++ utf8 51648 ++ "]")%string.

Definition getNotePreview (content : string) : string :=
  if bracketed content then
    match JSON_parse content with
    | None => stripTags content
    | Some blocks =>
        match (l <- arrayOf blocks;;
               items <- mapM (fun b => t <- hasType "text" b;;
                                       if t then property KContent b
                                       else Normal (Some (JString imagePlaceholder))) l;;
               join " " items) with
        | Normal s => s
        | Raised => stripTags content
        end
    end
  else stripTags content.

(** No ['<'] of [s] has a ['>'] after it: [s] holds no complete tag. *)
Fixpoint tagFree (s : string) : bool :=
  match s with
  | EmptyString => true
  | String c r => (if Ascii.eqb c "<" then negb (hasClose r) else true) && tagFree r
  end.

(** * Properties *)

(** ** Block store *)

Section BlockStore.

Variable now : Z.


Lemma filter_absent (blocks : list Block) (i : string) :
  (forall b, In b blocks -> id b <> i) ->
  filter (fun b => negb (String.eqb (id b) i)) blocks = blocks.
Proof.
  induction blocks as [|b blocks IH]; intros Habs; simpl.
  - reflexivity.
  - destruct (String.eqb_spec (id b) i) as [E|_]; simpl.
    + exfalso. apply (Habs b); [left; reflexivity | exact E].
    + f_equal. apply IH. intros b' Hb'. apply Habs. right. exact Hb'.
Qed.


Lemma map_absent (f : Block -> Block) (blocks : list Block) (i : string) :
  (forall b, In b blocks -> id b <> i) ->
  map (fun b => if String.eqb (id b) i then f b else b) blocks = blocks.
Proof.
  induction blocks as [|b blocks IH]; intros Habs; simpl.
  - reflexivity.
  - destruct (String.eqb_spec (id b) i) as [E|_].
    + exfalso. apply (Habs b); [left; reflexivity | exact E].
    + f_equal. apply IH. intros b' Hb'. apply Habs. right. exact Hb'.
Qed.

Lemma removeBlock_sole_text (b : Block) (i : string) :
  type b = text ->
  removeBlock now [b] i = Emit [textBlock (toString now) ""].
Proof.
  intros Ht. unfold removeBlock. simpl. rewrite Ht. reflexivity.
Qed.

Lemma removeBlock_filters (blocks : list Block) (i : string) :
  blocks <> [] ->
  (forall b, blocks = [b] -> type b <> text) ->
  removeBlock now blocks i
  = Emit (filter (fun b => negb (String.eqb (id b) i)) blocks).
Proof.
  intros Hne Hsole. unfold removeBlock.
  destruct blocks as [|b0 [|b1 rest]].
  - contradiction.
  - cbn [length Nat.leb]. specialize (Hsole b0 eq_refl).
    destruct (type b0); simpl; try reflexivity. contradiction.
  - reflexivity.
Qed.

End BlockStore.




(** C7, as stated, fails: [handleTextChange] rewrites the content of an
    image block that carries the given id. *)
Lemma handleTextChange_rewrites_image :
  let img := mkBlock "a" image "data:image/png;base64,AAAA" (Some (numberOfZ 100)) None None in
  type img <> text /\
  handleTextChange [img] "a" "typed" <> [img] /\
  handleTextChange [img] "a" "typed"
  = [mkBlock "a" image "typed" (Some (numberOfZ 100)) None None].
Proof.
  repeat split; discriminate.
Qed.

(** C7 (amended): a mutation aimed at an id that no block of the document
    carries leaves the document as it was, for the four [handle...Change]
    mutations always and for [removeBlock] unless the document is one text
    block (then that block is replaced by an empty one).  [handleTextChange]
    does not look at the block type: afterwards every block with the given
    id has the new content. *)
Theorem absent_target_is_noop (blocks : list Block) (i : string) :
  (forall b, In b blocks -> id b <> i) ->
  (forall c, handleTextChange blocks i c = blocks) /\
  (forall w, handleImageResize blocks i w = blocks) /\
  (forall t, handleTableChange blocks i t = blocks) /\
  (forall c, handleChartChange blocks i c = blocks) /\
  (forall now, blocks <> [] ->
               (forall b, blocks = [b] -> type b <> text) ->
               removeBlock now blocks i = Emit blocks) /\
  (forall now b, blocks = [b] -> type b = text ->
                 removeBlock now blocks i = Emit [textBlock (toString now) ""]) /\
  (forall j c b', In b' (handleTextChange blocks j c) -> id b' = j -> content b' = c).
Proof.
  intros Habs.
  split; [intros c; apply (map_absent _ blocks i Habs)|].
  split; [intros w; apply (map_absent _ blocks i Habs)|].
  split; [intros t; apply (map_absent _ blocks i Habs)|].
  split; [intros c; apply (map_absent _ blocks i Habs)|].
  split.
  { intros now Hne Hsole. rewrite removeBlock_filters by assumption.
    f_equal. apply filter_absent. exact Habs. }
  split.
  { intros now b -> Ht. apply removeBlock_sole_text. exact Ht. }
  intros j c b' Hin Hid. unfold handleTextChange in Hin.
  apply in_map_iff in Hin. destruct Hin as [b [Hb _]].
  destruct (String.eqb_spec (id b) j) as [E|N].
  - subst b'. reflexivity.
  - subst b'. contradiction.
Qed.

Lemma absent_target_is_noop_witness :
  let img := mkBlock "1" image "data:image/png;base64,AAAA" (Some (numberOfZ 100)) None None in
  let doc := [textBlock "0" "intro"; img] in
  handleTextChange doc "9" "typed" = doc /\
  removeBlock 5 doc "9" = Emit doc.
Proof.
  intros img doc.
  assert (Habs : forall b, In b doc -> id b <> "9").
  { intros b [<-|[<-|[]]]; discriminate. }
  destruct (absent_target_is_noop doc "9" Habs) as [Ht [_ [_ [_ [Hr _]]]]].
  split; [apply Ht|]. apply Hr.
  - discriminate.
  - intros b E. discriminate.
Defined.

(** ** Tables *)

Section IndexFilter.

Context {A : Type}.

Lemma length_filter_index_from (i index : nat) (l : list A) :
  length (filter_index_from i index l)
  = if Nat.leb i index && Nat.ltb index (i + length l)
    then length l - 1 else length l.
Proof.
  revert i. induction l as [|x l IH]; intros i; simpl.
  - destruct (Nat.leb i index && Nat.ltb index (i + 0)); reflexivity.
  - destruct (Nat.eqb_spec i index) as [E|N]; simpl length; rewrite IH.
    + subst i.
      replace (Nat.leb (S index) index) with false
        by (symmetry; apply Nat.leb_gt; lia).
      rewrite Nat.leb_refl.
      replace (Nat.ltb index (index + S (length l))) with true
        by (symmetry; apply Nat.ltb_lt; lia).
      simpl. lia.
    + destruct (Nat.leb_spec i index) as [Hle|Hgt];
        destruct (Nat.leb_spec (S i) index) as [Hle'|Hgt']; try lia; simpl.
      * replace (i + S (length l)) with (S (i + length l)) by lia.
        destruct (Nat.ltb_spec index (S (i + length l))); [|reflexivity].
        destruct l; simpl in *; lia.
      * reflexivity.
Qed.

Lemma length_filter_index (index : nat) (l : list A) :
  length (filter_index index l)
  = if Nat.ltb index (length l) then length l - 1 else length l.
Proof.
  unfold filter_index. rewrite length_filter_index_from. reflexivity.
Qed.

Lemma In_filter_index_from (i index : nat) (l : list A) (x : A) :
  In x (filter_index_from i index l) -> In x l.
Proof.
  revert i. induction l as [|y l IH]; intros i; simpl.
  - intros [].
  - destruct (Nat.eqb i index).
    + intros H. right. apply (IH _ H).
    + intros [H|H]; [left; exact H | right; apply (IH _ H)].
Qed.

End IndexFilter.

Lemma rectangular_Rect (d : TableData) :
  rectangular d = true <-> exists n, Rect n d.
Proof.
  unfold rectangular, Rect. split.
  - destruct (rows d) as [|r0 rest] eqn:Hr; [discriminate|].
    intros H. apply andb_prop in H. destruct H as [H Hrh].
    apply andb_prop in H. destruct H as [H Hch].
    apply andb_prop in H. destruct H as [Hn Hall].
    exists (length r0). split; [apply Nat.leb_le; exact Hn|].
    split; [discriminate|]. split.
    + intros r Hin. rewrite forallb_forall in Hall.
      apply Nat.eqb_eq. apply Hall. exact Hin.
    + split; assumption.
  - intros [n [Hn [Hne [Hall [Hch Hrh]]]]].
    destruct (rows d) as [|r0 rest] eqn:Hr; [contradiction|].
    assert (E : length r0 = n) by (apply Hall; left; reflexivity).
    rewrite E. rewrite Hch, Hrh.
    replace (Nat.leb 1 n) with true by (symmetry; apply Nat.leb_le; exact Hn).
    rewrite !andb_true_r. cbn [andb]. apply forallb_forall.
    intros r Hin. apply Nat.eqb_eq. apply Hall. exact Hin.
Qed.

Lemma header_ok_app (h : option (list string)) (n : nat) (x : string) :
  header_ok h n = true ->
  header_ok (match h with Some l => Some (l ++ [x]) | None => None end) (n + 1) = true.
Proof.
  destruct h as [l|]; simpl; [|reflexivity].
  intros H. apply Nat.eqb_eq in H. apply Nat.eqb_eq.
  rewrite length_app. simpl. lia.
Qed.

Lemma header_ok_filter (h : option (list string)) (n index : nat) :
  header_ok h n = true ->
  header_ok (match h with Some l => Some (filter_index index l) | None => None end)
            (if Nat.ltb index n then n - 1 else n) = true.
Proof.
  destruct h as [l|]; simpl; [|reflexivity].
  intros H. apply Nat.eqb_eq in H. apply Nat.eqb_eq.
  rewrite length_filter_index, H. reflexivity.
Qed.

Lemma Rect_colCount (n : nat) (d : TableData) :
  Rect n d -> colCount d = n.
Proof.
  intros [Hn [Hne [Hall _]]]. unfold colCount.
  destruct (rows d) as [|r0 rest]; [contradiction|].
  rewrite (Hall r0) by (left; reflexivity).
  destruct (Nat.eqb_spec n 0); [lia | reflexivity].
Qed.

Lemma Rect_addRow (n : nat) (d : TableData) :
  Rect n d -> Rect n (commit d (addRow d)).
Proof.
  intros HR. pose proof (Rect_colCount n d HR) as Hc.
  destruct HR as [Hn [Hne [Hall [Hch Hrh]]]].
  unfold addRow, Rect. simpl. rewrite Hc.
  split; [exact Hn|]. split.
  { intros E. apply app_eq_nil in E. destruct E as [_ E]. discriminate. }
  split.
  { intros r Hin. apply in_app_or in Hin. destruct Hin as [Hin|[<-|[]]].
    - apply Hall. exact Hin.
    - apply repeat_length. }
  split; [exact Hch|].
  rewrite length_app. simpl. apply header_ok_app. exact Hrh.
Qed.

Lemma Rect_removeRow (n : nat) (d : TableData) (index : nat) :
  Rect n d -> Rect n (commit d (removeRow d index)).
Proof.
  intros HR. unfold removeRow.
  destruct (Nat.ltb_spec 1 (length (rows d))) as [Hlt|Hge]; [|exact HR].
  destruct HR as [Hn [Hne [Hall [Hch Hrh]]]].
  unfold Rect. simpl.
  split; [exact Hn|]. split.
  { intros E. apply (f_equal (@length _)) in E.
    rewrite length_filter_index in E. simpl in E.
    destruct (Nat.ltb index (length (rows d))); lia. }
  split.
  { intros r Hin. apply Hall. apply (In_filter_index_from _ _ _ _ Hin). }
  split; [exact Hch|].
  rewrite length_filter_index. apply header_ok_filter. exact Hrh.
Qed.

Lemma Rect_addColumn (n : nat) (d : TableData) :
  Rect n d -> Rect (n + 1) (commit d (addColumn d)).
Proof.
  intros [Hn [Hne [Hall [Hch Hrh]]]].
  assert (Hrows : forall r, In r (map (fun row => row ++ [""]) (rows d)) ->
                            length r = n + 1).
  { intros r Hin. apply in_map_iff in Hin. destruct Hin as [r' [<- Hin]].
    rewrite length_app. simpl. rewrite (Hall r' Hin). reflexivity. }
  assert (Hnn : map (fun row : list string => row ++ [""]) (rows d) <> []).
  { destruct (rows d); [contradiction | discriminate]. }
  unfold addColumn.
  destruct (colHeaders d) as [h|] eqn:Hc.
  - destruct (rows d) as [|r0 rest] eqn:Hr; [contradiction|].
    unfold Rect. simpl commit. cbn [rows colHeaders rowHeaders].
    split; [lia|]. split; [exact Hnn|]. split; [exact Hrows|].
    split.
    + simpl in Hch. apply Nat.eqb_eq in Hch. simpl. apply Nat.eqb_eq.
      rewrite length_app. simpl. lia.
    + simpl. simpl in Hrh. rewrite length_map. exact Hrh.
  - unfold Rect. simpl commit. cbn [rows colHeaders rowHeaders].
    split; [lia|]. split; [exact Hnn|]. split; [exact Hrows|].
    split; [reflexivity|]. rewrite length_map. exact Hrh.
Qed.

Lemma Rect_removeColumn (n : nat) (d : TableData) (index : nat) :
  Rect n d -> exists n', Rect n' (commit d (removeColumn d index)).
Proof.
  intros HR. pose proof HR as [Hn [Hne [Hall [Hch Hrh]]]].
  unfold removeColumn.
  destruct (rows d) as [|r0 rest] eqn:Hr; [contradiction|].
  rewrite (Hall r0) by (left; reflexivity).
  destruct (Nat.ltb_spec 1 n) as [Hlt|Hge]; [|exists n; exact HR].
  exists (if Nat.ltb index n then n - 1 else n).
  unfold Rect. simpl commit. cbn [rows colHeaders rowHeaders].
  split; [destruct (Nat.ltb index n); lia|].
  split; [discriminate|]. split.
  { intros r Hin.
    change (In r (map (fun row => filter_index index row) (r0 :: rest))) in Hin.
    apply in_map_iff in Hin. destruct Hin as [r' [<- Hin]].
    rewrite length_filter_index, (Hall r' Hin). reflexivity. }
  split; [apply header_ok_filter; exact Hch|].
  simpl. simpl in Hrh. rewrite length_map. exact Hrh.
Qed.

Lemma Rect_tableOp (n : nat) (d : TableData) (op : TableOp) :
  Rect n d -> exists n', Rect n' (commit d (tableOp d op)).
Proof.
  intros HR. destruct op as [| |i|i]; simpl.
  - exists n. apply Rect_addRow. exact HR.
  - exists (n + 1). apply Rect_addColumn. exact HR.
  - exists n. apply Rect_removeRow. exact HR.
  - apply (Rect_removeColumn n). exact HR.
Qed.

Lemma Rect_runTableOps (ops : list TableOp) :
  forall n d, Rect n d -> exists n', Rect n' (runTableOps d ops).
Proof.
  induction ops as [|op ops IH]; intros n d HR.
  - exists n. exact HR.
  - destruct (Rect_tableOp n d op HR) as [n1 H1].
    apply (IH n1 _ H1).
Qed.

(** C5: the four structural handlers keep a rectangular table rectangular
    whatever the order and the indices of the calls; [removeRow] does
    nothing on a one-row table and [removeColumn] nothing when every row has
    one cell. *)
Theorem table_stays_rectangular (d : TableData) :
  rectangular d = true ->
  (forall ops, rectangular (runTableOps d ops) = true) /\
  (forall index, length (rows d) = 1 ->
                 removeRow d index = Skip /\ runTableOps d [RemoveRow index] = d) /\
  (forall index, (forall r, In r (rows d) -> length r = 1) ->
                 removeColumn d index = Skip /\ runTableOps d [RemoveColumn index] = d).
Proof.
  intros Hrect. apply rectangular_Rect in Hrect. destruct Hrect as [n HR].
  split.
  { intros ops. apply rectangular_Rect. apply (Rect_runTableOps ops n d HR). }
  split.
  - intros index H1.
    assert (E : removeRow d index = Skip).
    { unfold removeRow. rewrite H1. reflexivity. }
    split; [exact E|]. simpl. rewrite E. reflexivity.
  - intros index H1.
    assert (E : removeColumn d index = Skip).
    { unfold removeColumn. destruct HR as [_ [Hne _]].
      destruct (rows d) as [|r0 rest]; [contradiction|].
      rewrite (H1 r0) by (left; reflexivity). reflexivity. }
    split; [exact E|]. simpl. rewrite E. reflexivity.
Qed.

Lemma table_stays_rectangular_witness :
  rectangular
    (runTableOps defaultTable
       [AddRow; RemoveColumn 1; AddColumn; RemoveRow 0; RemoveRow 5; RemoveColumn 0])
  = true.
Proof.
  apply (proj1 (table_stays_rectangular defaultTable eq_refl)).
Defined.

(** C6, as stated, fails: [addTableBlock] stores the lettered and numbered
    headers in the block it creates, though no header was stored or edited
    before. *)
Lemma addTableBlock_stores_headers :
  (exists b t, In b (addTableBlock 1700000000000 1700000000000 [])
               /\ tableData b = Some t
               /\ colHeaders t = Some ["A"; "B"; "C"]
               /\ rowHeaders t = Some ["1"; "2"]) /\
  ~ (forall b t, In b (addTableBlock 1700000000000 1700000000000 []) ->
                 tableData b = Some t ->
                 colHeaders t = None /\ rowHeaders t = None).
Proof.
  split.
  - eexists. exists defaultTable. split; [left; reflexivity|].
    repeat split.
  - intros H.
    destruct (H (mkBlock (toString 1700000000000) table "" None (Some defaultTable) None)
                defaultTable) as [Hc _].
    + left. reflexivity.
    + reflexivity.
    + discriminate.
Qed.

Lemma tableOp_keeps_no_colHeaders (d : TableData) (op : TableOp) :
  colHeaders d = None -> colHeaders (commit d (tableOp d op)) = None.
Proof.
  intros H. destruct op as [| |i|i]; simpl.
  - exact H.
  - unfold addColumn. rewrite H. reflexivity.
  - unfold removeRow. destruct (Nat.ltb 1 (length (rows d))); exact H.
  - unfold removeColumn. destruct (rows d) as [|r0 rest]; [exact H|].
    destruct (Nat.ltb 1 (length r0)); simpl; rewrite H; reflexivity.
Qed.

Lemma tableOp_keeps_no_rowHeaders (d : TableData) (op : TableOp) :
  rowHeaders d = None -> rowHeaders (commit d (tableOp d op)) = None.
Proof.
  intros H. destruct op as [| |i|i]; simpl.
  - rewrite H. reflexivity.
  - unfold addColumn. destruct (colHeaders d); [destruct (rows d)|]; exact H.
  - unfold removeRow. destruct (Nat.ltb 1 (length (rows d))); simpl; rewrite H; reflexivity.
  - unfold removeColumn. destruct (rows d) as [|r0 rest]; [exact H|].
    destruct (Nat.ltb 1 (length r0)); exact H.
Qed.

(** C6 (amended): the grid computes a missing header from the position (a
    letter, a 1-based ordinal) when it is shown, and the structural table
    handlers and [updateCell] never create a stored header list: an absent
    list stays absent through any sequence of them.  [addRow] and
    [addColumn] write the positional default only as the new last entry of a
    header list that is already stored.  [addTableBlock], on the other hand,
    stores the headers A, B, C and 1, 2 in the table it creates. *)
Theorem headers_stored_only_when_present (d : TableData) :
  (colHeaders d = None ->
     (forall ops, colHeaders (runTableOps d ops) = None) /\
     (forall colIndex, shownColHeader d colIndex = fromCharCode (65 + colIndex))) /\
  (rowHeaders d = None ->
     (forall ops, rowHeaders (runTableOps d ops) = None) /\
     (forall rowIndex, shownRowHeader d rowIndex = toString (Z.of_nat (rowIndex + 1)))) /\
  (forall r c v, colHeaders (commit d (updateCell d r c v)) = colHeaders d
                 /\ rowHeaders (commit d (updateCell d r c v)) = rowHeaders d) /\
  (forall h, rowHeaders d = Some h ->
             rowHeaders (commit d (addRow d))
             = Some (h ++ [toString (Z.of_nat (length (rows d) + 1))])) /\
  (forall h r0 rest, colHeaders d = Some h -> rows d = r0 :: rest ->
             colHeaders (commit d (addColumn d))
             = Some (h ++ [fromCharCode (65 + length r0)])) /\
  (forall now now' blocks,
     addTableBlock now now' blocks
     = blocks ++ [mkBlock (toString now) table "" None (Some defaultTable) None;
                  textBlock (toString (now' + 1)) ""]) /\
  colHeaders defaultTable = Some ["A"; "B"; "C"] /\
  rowHeaders defaultTable = Some ["1"; "2"].
Proof.
  split.
  { intros H. split; [|intros i; unfold shownColHeader; rewrite H; reflexivity].
    intros ops. revert d H. induction ops as [|op ops IH]; intros d H; [exact H|].
    simpl. apply IH. apply tableOp_keeps_no_colHeaders. exact H. }
  split.
  { intros H. split; [|intros i; unfold shownRowHeader; rewrite H; reflexivity].
    intros ops. revert d H. induction ops as [|op ops IH]; intros d H; [exact H|].
    simpl. apply IH. apply tableOp_keeps_no_rowHeaders. exact H. }
  split; [intros r c v; split; reflexivity|].
  split; [intros h H; simpl; rewrite H; reflexivity|].
  split; [intros h r0 rest Hc Hr; unfold addColumn; rewrite Hc, Hr; reflexivity|].
  split; [reflexivity|]. split; reflexivity.
Qed.

Lemma headers_stored_only_when_present_witness :
  let d := mkTable [[""; ""]; [""; ""]] None None in
  colHeaders (runTableOps d [AddColumn; AddRow; RemoveColumn 0]) = None /\
  rowHeaders (runTableOps d [AddColumn; AddRow; RemoveColumn 0]) = None /\
  shownColHeader d 1 = "B" /\ shownRowHeader d 1 = "2".
Proof.
  intros d.
  destruct (headers_stored_only_when_present d) as [Hc [Hr _]].
  destruct (Hc eq_refl) as [Hc1 Hc2]. destruct (Hr eq_refl) as [Hr1 Hr2].
  split; [apply Hc1|]. split; [apply Hr1|].
  split; [rewrite Hc2; reflexivity | rewrite Hr2; reflexivity].
Defined.

(** ** Charts *)

Lemma chartOp_keeps_a_point (c : ChartData) (op : ChartOp) :
  1 <= length (data c) -> 1 <= length (data (commit c (chartOp c op))).
Proof.
  intros H. destruct op as [|index| |t|axis label]; simpl.
  - rewrite length_app. simpl. lia.
  - unfold removePoint.
    destruct (Nat.ltb_spec 1 (length (data c))) as [Hlt|Hge]; simpl; [|exact H].
    rewrite length_filter_index.
    destruct (Nat.ltb index (length (data c))); lia.
  - exact H.
  - exact H.
  - destruct axis; exact H.
Qed.

(** C9: [addChartBlock] creates a line chart with three points, [addPoint]
    appends one point, [removePoint] does nothing on a one-point chart, and
    no sequence of chart handlers brings a chart that has a point down to
    none. *)
Theorem chart_keeps_a_point (c : ChartData) :
  (forall now now' blocks,
     addChartBlock now now' blocks
     = blocks ++ [mkBlock (toString now) chart "" None None (Some defaultChart);
                  textBlock (toString (now' + 1)) ""]) /\
  chartType defaultChart = line /\
  length (data defaultChart) = 3 /\
  (exists c', addPoint c = Emit c' /\ length (data c') = length (data c) + 1) /\
  (forall index, length (data c) = 1 ->
                 removePoint c index = Skip /\ commit c (removePoint c index) = c) /\
  (forall ops, 1 <= length (data c) -> 1 <= length (data (runChartOps c ops))).
Proof.
  split; [reflexivity|]. split; [reflexivity|]. split; [reflexivity|].
  split.
  { eexists. split; [reflexivity|]. simpl. rewrite length_app. reflexivity. }
  split.
  { intros index H1. unfold removePoint. rewrite H1. split; reflexivity. }
  intros ops. revert c. induction ops as [|op ops IH]; intros c H; [exact H|].
  simpl. apply IH. apply chartOp_keeps_a_point. exact H.
Qed.

Lemma chart_keeps_a_point_witness :
  let one := mkChart bar None None None [mkPoint "Jan" (numberOfZ 400)] in
  removePoint one 0 = Skip /\
  1 <= length (data (runChartOps defaultChart
                       [RemovePoint 0; RemovePoint 0; RemovePoint 0; ToggleType;
                        RemovePoint 7; AddPoint; RemovePoint 1; RemovePoint 0])).
Proof.
  intros one. split.
  - apply (proj1 (proj2 (proj2 (proj2 (proj2 (chart_keeps_a_point one))))) 0 eq_refl).
  - apply (proj2 (proj2 (proj2 (proj2 (proj2 (chart_keeps_a_point defaultChart)))))).
    simpl. lia.
Defined.
(** ** Doubles that are whole numbers

    Below 2^53 the whole numbers are doubles, and their sums and differences
    are computed without rounding. *)

Section Doubles.

Local Open Scope Z_scope.















Lemma doubleOfZ_zero : doubleOfZ 0 = S754_zero false.
Proof. reflexivity. Qed.










End Doubles.

(** What holds of every double. *)

Lemma dsub_diag (x : double) : isPositive (dsub x x) = false.
Proof.
  destruct x as [s|s| |s m e]; try (destruct s; reflexivity); [reflexivity|].
  unfold dsub, SFsub. rewrite Z.sub_diag. reflexivity.
Qed.

Lemma dsub_nan (x : double) : dsub x S754_nan = S754_nan.
Proof.
  destruct x; reflexivity.
Qed.

Lemma Math_min_cases (x y : double) :
  Math_min x y = x \/ Math_min x y = y \/ Math_min x y = S754_nan.
Proof.
  unfold Math_min. destruct (SFcompare x y) as [[| |]|]; auto.
  destruct x as [[|]| | |]; auto.
Qed.

(** When something is left after a slice, the slice was a page high. *)
Lemma full_slice (heightLeft pxPerPage : double) :
  isPositive (dsub heightLeft (Math_min heightLeft pxPerPage)) = true ->
  Math_min heightLeft pxPerPage = pxPerPage.
Proof.
  intros H. destruct (Math_min_cases heightLeft pxPerPage) as [E|[E|E]].
  - rewrite E, dsub_diag in H. discriminate.
  - exact E.
  - rewrite E, dsub_nan in H. discriminate.
Qed.

(** ** The ceiling of a quotient *)

Section CeilDiv.

Local Open Scope Z_scope.

Lemma ceilDiv_bounds (h p : Z) :
  0 < p -> (ceilDiv h p - 1) * p < h <= ceilDiv h p * p.
Proof.
  intros Hp. unfold ceilDiv.
  pose proof (Z.div_mod (h + p - 1) p) as Hdm.
  pose proof (Z.mod_pos_bound (h + p - 1) p Hp) as Hm.
  specialize (Hdm ltac:(lia)). nia.
Qed.

Lemma ceilDiv_unique (h p c : Z) :
  0 < p -> (c - 1) * p < h <= c * p -> ceilDiv h p = c.
Proof.
  intros Hp Hc. pose proof (ceilDiv_bounds h p Hp) as Hb. nia.
Qed.

End CeilDiv.

(** ** Pagination *)

Lemma length_addImage (img : Image) (doc : Pdf) :
  length (addImage img doc) = length doc.
Proof.
  induction doc as [|page rest IH]; simpl; [reflexivity|].
  destruct rest; simpl in *; [reflexivity | rewrite IH; reflexivity].
Qed.

Lemma length_addPage (doc : Pdf) : length (addPage doc) = S (length doc).
Proof.
  unfold addPage. rewrite length_app. simpl. lia.
Qed.

Section Slicing.

Variables (env : Env) (canvas : Canvas.t) (imgWidth P : double).

Lemma sliceLoop_exit (fuel : nat) (st : SliceState) :
  isPositive (heightLeftPx st) = false ->
  sliceLoop fuel env canvas imgWidth P st = Some st.
Proof.
  intros H. destruct fuel; simpl; rewrite H; reflexivity.
Qed.

Lemma sliceLoop_pass (fuel : nat) (st : SliceState) :
  isPositive (heightLeftPx st) = true ->
  sliceLoop (S fuel) env canvas imgWidth P st
  = if Nat.ltb 20 (pageNum (sliceBody env canvas imgWidth P st))
    then Some (sliceBody env canvas imgWidth P st)
    else sliceLoop fuel env canvas imgWidth P (sliceBody env canvas imgWidth P st).
Proof.
  intros H. simpl. rewrite H. reflexivity.
Qed.

Lemma length_pdf_sliceBody (st : SliceState) :
  length (pdf (sliceBody env canvas imgWidth P st))
  = length (pdf st) + (if Nat.eqb (pageNum st) 0 then 0 else 1).
Proof.
  unfold sliceBody. cbn [pdf].
  assert (E : length (if Nat.ltb 0 (pageNum st) then addPage (pdf st) else pdf st)
              = length (pdf st) + (if Nat.eqb (pageNum st) 0 then 0 else 1)).
  { destruct (pageNum st); simpl; [lia | rewrite length_addPage; lia]. }
  destruct (ctx2d env); [rewrite length_addImage|]; exact E.
Qed.

(** The loop returns within 21 passes, and what it returns extends the log
    by slices cut one after the other. *)
Lemma sliceLoop_run (fuel : nat) :
  forall st,
    pageNum st <= 20 -> 21 <= fuel + pageNum st ->
    exists st' new,
      sliceLoop fuel env canvas imgWidth P st = Some st' /\
      slices st' = slices st ++ new /\
      pageNum st' = pageNum st + length new /\
      pageNum st' <= 21 /\
      (isPositive (heightLeftPx st') = false \/ pageNum st' = 21) /\
      cutFrom P (heightLeftPx st) (sourceY st) new /\
      sourceY st' = fold_left (fun acc s => dadd acc (sliceHeight s)) new (sourceY st) /\
      length (pdf st')
      + (if Nat.eqb (pageNum st) 0 then (if Nat.eqb (length new) 0 then 0 else 1) else 0)
      = length (pdf st) + length new.
Proof.
  induction fuel as [|fuel IH]; intros st Hk Hfuel; [simpl in Hfuel; lia|].
  destruct (isPositive (heightLeftPx st)) eqn:Hgt.
  - rewrite (sliceLoop_pass fuel st Hgt).
    set (st1 := sliceBody env canvas imgWidth P st).
    set (cur := Math_min (heightLeftPx st) P).
    assert (Hs1 : slices st1 = slices st ++ [mkSlice (sourceY st) cur]) by reflexivity.
    assert (Hp1 : pageNum st1 = S (pageNum st)) by reflexivity.
    assert (Hy1 : sourceY st1 = dadd (sourceY st) cur) by reflexivity.
    assert (Hh1 : heightLeftPx st1 = dsub (heightLeftPx st) cur) by reflexivity.
    pose proof (length_pdf_sliceBody st) as Hpdf1. fold st1 in Hpdf1.
    destruct (Nat.ltb_spec 20 (pageNum st1)) as [Hbreak|Hgo].
    + exists st1, [mkSlice (sourceY st) cur].
      split; [reflexivity|]. split; [exact Hs1|].
      split; [rewrite Hp1; simpl; lia|]. split; [lia|].
      split; [right; lia|].
      split; [simpl; auto|].
      split; [exact Hy1|].
      rewrite Hpdf1. simpl. destruct (pageNum st); simpl; lia.
    + destruct (IH st1) as [st' [new [Hrun [Hs [Hp [Hle [Hstop [Hc [Hy Hpdf]]]]]]]]].
      { exact Hgo. }
      { rewrite Hp1. lia. }
      exists st', (mkSlice (sourceY st) cur :: new).
      split; [exact Hrun|].
      split; [rewrite Hs, Hs1, <- app_assoc; reflexivity|].
      split; [rewrite Hp, Hp1; simpl; lia|]. split; [exact Hle|].
      split; [exact Hstop|].
      split; [simpl; split; [reflexivity | split; [reflexivity|]];
              rewrite <- Hy1, <- Hh1; exact Hc|].
      split; [rewrite Hy, Hy1; reflexivity|].
      rewrite Hp1 in Hpdf. cbn [Nat.eqb] in Hpdf. rewrite Hpdf1 in Hpdf.
      cbn [length Nat.eqb]. destruct (pageNum st); cbn [Nat.eqb] in *; lia.
  - exists st, []. rewrite (sliceLoop_exit _ st Hgt).
    split; [reflexivity|]. split; [rewrite app_nil_r; reflexivity|].
    split; [simpl; lia|]. split; [lia|].
    split; [left; exact Hgt|].
    split; [simpl; trivial|].
    split; [reflexivity|]. simpl. destruct (pageNum st); simpl; lia.
Qed.

Lemma sliceLoop_more_fuel (fuel : nat) :
  forall fuel' st st',
    sliceLoop fuel env canvas imgWidth P st = Some st' ->
    fuel <= fuel' ->
    sliceLoop fuel' env canvas imgWidth P st = Some st'.
Proof.
  induction fuel as [|fuel IH]; intros fuel' st st' Hrun Hle.
  - simpl in Hrun. destruct (isPositive (heightLeftPx st)) eqn:Hgt; [discriminate|].
    rewrite sliceLoop_exit by exact Hgt. exact Hrun.
  - destruct fuel' as [|fuel']; [lia|].
    destruct (isPositive (heightLeftPx st)) eqn:Hgt.
    + rewrite sliceLoop_pass in Hrun |- * by exact Hgt.
      destruct (Nat.ltb 20 (pageNum (sliceBody env canvas imgWidth P st)));
        [exact Hrun|].
      apply IH; [exact Hrun | lia].
    + rewrite sliceLoop_exit in Hrun |- * by exact Hgt. exact Hrun.
Qed.


End Slicing.

(** ** Whole numbers of pixels *)

Section Tiles.

Variables (env : Env) (canvas : Canvas.t) (imgWidth : double).
Variables (h p : Z).
Hypothesis h_fits : (0 <= h < 2 ^ 53)%Z.
Hypothesis p_fits : (1 <= p < 2 ^ 53)%Z.


End Tiles.




(** C8, as stated, fails: the loop leaves after the pass in which the page
    counter reaches 21, so a tall note is cut into 21 slices and takes 21
    pages of the document. *)
Lemma tall_note_takes_21_pages :
  let tall := Canvas.make 380 12000 in
  let env := mkEnv (doubleOfZ 210) (doubleOfZ 297)
                   (fun _ _ => Rendered (Canvas.make 380 1080))
                   (fun _ => Rendered tall) true in
  let note := Types.mkNote "Day 1" "notes" "2024-01-01" in
  (exists st, paginate 21 env tall newPdf = Some st /\ length (slices st) = 21) /\
  (exists doc, notesLoop 21 env [note] newPdf = Some (inl doc)
               /\ length doc = length newPdf + 21) /\
  ~ (exists st, paginate 21 env tall newPdf = Some st /\ length (slices st) <= 20).
Proof.
  intros tall env note.
  assert (Hrun : exists st, paginate 21 env tall newPdf = Some st
                            /\ length (slices st) = 21).
  { eexists. split; vm_compute; reflexivity. }
  split; [exact Hrun|]. split.
  - eexists. split; vm_compute; reflexivity.
  - intros [st [Hst Hlen]]. destruct Hrun as [st' [Hst' Hlen']].
    rewrite Hst in Hst'. inversion Hst'; subst st'. lia.
Qed.

(** C8 (amended): for every canvas and page geometry the slicing loop
    returns, after at most 21 passes: it stops when no height is left (the
    test [heightLeftPx > 0] fails) or right after the pass that makes the
    number of slices exceed 20, so a note is cut into at most 21 slices and
    takes at most 21 pages (the page opened for the note and at most 20
    more). *)
Theorem slicing_stops_after_21 (env : Env) (canvas : Canvas.t) (imgWidth P : double)
  (pdf0 : Pdf) (fuel : nat) :
  21 <= fuel ->
  exists st,
    sliceLoop fuel env canvas imgWidth P (sliceStart pdf0 canvas) = Some st /\
    (forall fuel', 21 <= fuel' ->
       sliceLoop fuel' env canvas imgWidth P (sliceStart pdf0 canvas) = Some st) /\
    pageNum st = length (slices st) /\
    length (slices st) <= 21 /\
    (isPositive (heightLeftPx st) = false \/ length (slices st) = 21) /\
    length (pdf st) <= length pdf0 + 20.
Proof.
  intros Hfuel.
  destruct (sliceLoop_run env canvas imgWidth P 21 (sliceStart pdf0 canvas))
    as [st [new [Hrun [Hs [Hp [Hle [Hstop [_ [_ Hpdf]]]]]]]]].
  { simpl. lia. }
  { simpl. lia. }
  simpl in Hs, Hp, Hpdf. subst new.
  exists st. split; [apply (sliceLoop_more_fuel _ _ _ _ 21); assumption|].
  split; [intros fuel' Hf; apply (sliceLoop_more_fuel _ _ _ _ 21); assumption|].
  split; [exact Hp|]. split; [lia|].
  split; [destruct Hstop as [Hz|Hk]; [left; exact Hz | right; lia]|].
  revert Hpdf. destruct (Nat.eqb_spec (length (slices st)) 0); lia.
Qed.

Lemma slicing_stops_after_21_witness :
  let tall := Canvas.make 380 100000 in
  let env := mkEnv (doubleOfZ 210) (doubleOfZ 297)
                   (fun _ _ => Rendered (Canvas.make 380 1080))
                   (fun _ => Rendered tall) true in
  exists st,
    paginate 30 env tall newPdf = Some st /\
    length (slices st) <= 21 /\
    length (pdf st) <= length newPdf + 20.
Proof.
  intros tall env.
  destruct (slicing_stops_after_21 env tall (imgWidthOf env) (pxPerPageOf env tall)
              newPdf 30) as [st [Hrun [_ [_ [Hlen [_ Hpages]]]]]].
  - lia.
  - exists st. split; [exact Hrun|]. split; [exact Hlen | exact Hpages].
Defined.

(** ** Export *)

(** When every note renders, the loop over the notes returns a document
    with at least one more page per note. *)
Lemma notesLoop_adds_pages (fuel : nat) (env : Env) :
  21 <= fuel ->
  (forall note, exists canvas, renderNote env note = Rendered canvas) ->
  forall notes pdf0,
    exists doc, notesLoop fuel env notes pdf0 = Some (inl doc)
                /\ length pdf0 + length notes <= length doc.
Proof.
  intros Hfuel Hrender notes.
  induction notes as [|note rest IH]; intros pdf0; simpl.
  - exists pdf0. split; [reflexivity | lia].
  - destruct (Hrender note) as [canvas Hc]. rewrite Hc.
    destruct (sliceLoop_run env canvas (imgWidthOf env) (pxPerPageOf env canvas) fuel
                (sliceStart (addPage pdf0) canvas))
      as [st [new [Hrun [_ [_ [_ [_ [_ [_ Hpdf]]]]]]]]].
    { simpl. lia. }
    { simpl. lia. }
    unfold paginate. rewrite Hrun.
    destruct (IH (pdf st)) as [doc [Hdoc Hlen]].
    exists doc. split; [exact Hdoc|].
    simpl in Hpdf. rewrite length_addPage in Hpdf.
    revert Hpdf. destruct (Nat.eqb_spec (length new) 0); lia.
Qed.

(** With notes that render, the export saves a document: the cover page and
    at least a page per note. *)
Lemma export_of_notes_saves (fuel : nat) (env : Env) (v : View)
  (project : Types.Project) (user : option Types.User) (notes : list Types.Note) :
  21 <= fuel -> notes <> [] ->
  (exists canvas, renderCover env project user = Rendered canvas) ->
  (forall note, exists canvas, renderNote env note = Rendered canvas) ->
  exists doc,
    exportToPDF fuel env v project user notes
    = Some (mkExported (mkView (error v) false)
              (Some ((Types.name project ++ "_Research_Report.pdf")%string, doc)))
    /\ 1 + length notes <= length doc.
Proof.
  intros Hfuel Hne [cover Hcover] Hrender. unfold exportToPDF.
  destruct notes as [|note rest]; [contradiction|].
  cbn [length Nat.eqb]. rewrite Hcover.
  destruct (notesLoop_adds_pages fuel env Hfuel Hrender (note :: rest)
              (addImage (mkImage (WholeCanvas cover) margin margin (imgWidthOf env)
                           (ddiv (dmul (Canvas.heightD cover) (imgWidthOf env))
                                 (Canvas.widthD cover)))
                        newPdf)) as [doc [Hdoc Hlen]].
  rewrite Hdoc. exists doc. split; [reflexivity|].
  rewrite length_addImage in Hlen. simpl in Hlen |- *. lia.
Qed.

(** C10: exporting an empty note collection sets the error message and
    returns at once: the result does not depend on the renderers or the page
    geometry (nothing is rendered), no document is saved, and the exporting
    flag is left as it was. *)
Theorem empty_export_is_refused (fuel : nat) (env : Env) (v : View)
  (project : Types.Project) (user : option Types.User) :
  exists r,
    exportToPDF fuel env v project user [] = Some r /\
    error (view r) = Some "No notes to export." /\
    saved r = None /\
    isExporting (view r) = isExporting v /\
    (forall fuel' env' project' user',
       exportToPDF fuel' env' v project' user' [] = Some r).
Proof.
  eexists. split; [reflexivity|]. repeat split.
Qed.

(** ** JSON text *)

Section Strings.

Local Open Scope string_scope.

Lemma append_assoc (a b c : string) : (a ++ b) ++ c = a ++ (b ++ c).
Proof.
  induction a as [|x a IH]; simpl; [reflexivity | rewrite IH; reflexivity].
Qed.

Lemma append_nil_r (a : string) : a ++ "" = a.
Proof.
  induction a as [|x a IH]; simpl; [reflexivity | rewrite IH; reflexivity].
Qed.

Lemma length_append (a b : string) :
  String.length (a ++ b) = (String.length a + String.length b)%nat.
Proof.
  induction a as [|x a IH]; simpl; [reflexivity | rewrite IH; reflexivity].
Qed.

(** *** Strings *)

Lemma parseStringBody_escapeChar (c : ascii) (r : string) :
  parseStringBody (escapeChar c ++ r) = consChar c (parseStringBody r).
Proof.
  destruct c as [[|] [|] [|] [|] [|] [|] [|] [|]];
    try reflexivity;
    (cbn; destruct (parseStringBody r) as [[body rest]|]; reflexivity).
Qed.

Lemma parseStringBody_quoteBody (s rest : string) :
  parseStringBody (quoteBody s ++ String dquote rest) = Some (s, rest).
Proof.
  induction s as [|c s IH]; simpl.
  - reflexivity.
  - rewrite append_assoc, parseStringBody_escapeChar, IH. reflexivity.
Qed.

Lemma quote_append (s rest : string) :
  quote s ++ rest = String dquote (quoteBody s ++ String dquote rest).
Proof.
  unfold quote. simpl. rewrite append_assoc. reflexivity.
Qed.

End Strings.

(** *** Numbers *)

Section Digits.

Local Open Scope string_scope.

Lemma allDigits_app (a b : string) :
  allDigits (a ++ b) = allDigits a && allDigits b.
Proof.
  induction a as [|c a IH]; simpl; [reflexivity|].
  rewrite IH, andb_assoc. reflexivity.
Qed.

Lemma allDigits_zeros (m : nat) : allDigits (zeros m) = true.
Proof.
  induction m as [|m IH]; simpl; [reflexivity | exact IH].
Qed.

Lemma length_zeros (m : nat) : String.length (zeros m) = m.
Proof.
  induction m as [|m IH]; simpl; [reflexivity | rewrite IH; reflexivity].
Qed.

Lemma spanDigits_app (a rest : string) :
  allDigits a = true -> digitFree rest = true ->
  spanDigits (a ++ rest) = (a, rest).
Proof.
  intros Ha Hrest. induction a as [|c a IH]; simpl.
  - destruct rest as [|c r]; [reflexivity|].
    simpl in Hrest. apply negb_true_iff in Hrest. simpl. rewrite Hrest. reflexivity.
  - simpl in Ha. apply andb_prop in Ha. destruct Ha as [Hc Ha].
    rewrite Hc, (IH Ha). reflexivity.
Qed.

Lemma takeDigits_dropDigits (n : nat) (s : string) :
  takeDigits n s ++ dropDigits n s = s.
Proof.
  revert s. induction n as [|n IH]; intros s; [reflexivity|].
  destruct s as [|c r]; simpl; [reflexivity | rewrite IH; reflexivity].
Qed.

Lemma length_takeDigits (n : nat) (s : string) :
  n <= String.length s -> String.length (takeDigits n s) = n.
Proof.
  revert s. induction n as [|n IH]; intros s H; [reflexivity|].
  destruct s as [|c r]; simpl in *; [lia | rewrite IH; lia].
Qed.

Lemma allDigits_take_drop (n : nat) (s : string) :
  allDigits s = true ->
  allDigits (takeDigits n s) = true /\ allDigits (dropDigits n s) = true.
Proof.
  intros H. rewrite <- (takeDigits_dropDigits n s), allDigits_app in H.
  apply andb_prop in H. exact H.
Qed.

Lemma dropDigits_nonempty (n : nat) (s : string) :
  n < String.length s -> dropDigits n s <> "".
Proof.
  revert s. induction n as [|n IH]; intros s H.
  - destruct s; simpl in *; [lia | discriminate].
  - destruct s as [|c r]; simpl in *; [lia | apply IH; lia].
Qed.

Lemma stripLeadingZeros_zeros (m : nat) (ds : string) :
  fst (stripLeadingZeros ds) = 0 ->
  stripLeadingZeros (zeros m ++ ds) = (m, ds).
Proof.
  intros H. induction m as [|m IH]; simpl.
  - destruct ds as [|c r]; [reflexivity|]. simpl in H |- *.
    destruct (Ascii.eqb c "0"); [|reflexivity].
    destruct (stripLeadingZeros r). discriminate H.
  - rewrite IH. reflexivity.
Qed.

Lemma stripLeadingZeros_app (ds t : string) :
  ds <> "" -> fst (stripLeadingZeros ds) = 0 ->
  stripLeadingZeros (ds ++ t) = (0, ds ++ t).
Proof.
  intros Hne H. destruct ds as [|c r]; [contradiction|]. simpl in H |- *.
  destruct (Ascii.eqb c "0"); [|reflexivity].
  destruct (stripLeadingZeros r). discriminate H.
Qed.

Lemma stripLeadingZeros_none (ds : string) :
  fst (stripLeadingZeros ds) = 0 -> stripLeadingZeros ds = (0, ds).
Proof.
  intros H. apply (stripLeadingZeros_zeros 0 ds H).
Qed.

Lemma stripTrailingZeros_zeros (m : nat) : stripTrailingZeros (zeros m) = "".
Proof.
  induction m as [|m IH]; simpl; [reflexivity | rewrite IH; reflexivity].
Qed.

Lemma stripTrailingZeros_app (ds : string) (m : nat) :
  ds <> "" -> stripTrailingZeros ds = ds ->
  stripTrailingZeros (ds ++ zeros m) = ds.
Proof.
  induction ds as [|c r IH]; intros Hne H; [contradiction|].
  simpl in H |- *. destruct r as [|c' r'].
  - simpl. rewrite stripTrailingZeros_zeros.
    simpl in H. destruct (Ascii.eqb c "0"); [discriminate H | reflexivity].
  - assert (Hr : stripTrailingZeros (String c' r') = String c' r').
    { destruct (stripTrailingZeros (String c' r')) as [|x y].
      - destruct (Ascii.eqb c "0"); discriminate H.
      - inversion H. reflexivity. }
    rewrite (IH ltac:(discriminate) Hr). reflexivity.
Qed.

(** What [canonicalDigits] says, unpacked. *)
Lemma canonicalDigits_spec (ds : string) :
  canonicalDigits ds = true ->
  allDigits ds = true /\
  fst (stripLeadingZeros ds) = 0 /\
  stripTrailingZeros ds = ds /\
  exists c r, ds = String c r /\ isDigit c = true /\ Ascii.eqb c "0" = false.
Proof.
  unfold canonicalDigits. intros H.
  apply andb_prop in H. destruct H as [H Ht].
  apply andb_prop in H. destruct H as [H Hl].
  apply andb_prop in H. destruct H as [Ha Hne].
  apply Nat.eqb_eq in Hl. apply String.eqb_eq in Ht.
  split; [exact Ha|]. split; [exact Hl|]. split; [exact Ht|].
  destruct ds as [|c r]; [discriminate Hne|].
  exists c, r. split; [reflexivity|].
  simpl in Ha. apply andb_prop in Ha. split; [apply Ha|].
  simpl in Hl. destruct (Ascii.eqb c "0"); [|reflexivity].
  destruct (stripLeadingZeros r). discriminate Hl.
Qed.

Lemma allDigits_uint (u : Decimal.uint) :
  allDigits (NilEmpty.string_of_uint u) = true.
Proof.
  induction u; simpl; auto.
Qed.

(** The decimal numeral of a positive integer. *)
Lemma toString_positive (z : Z) :
  (0 < z)%Z ->
  exists u, toString z = NilEmpty.string_of_uint u
            /\ Z.of_uint u = z /\ NilEmpty.string_of_uint u <> "".
Proof.
  intros Hz. destruct z as [|p|p]; try lia.
  exists (Pos.to_uint p). unfold toString. simpl Z.to_int.
  pose proof (DecimalPos.Unsigned.to_uint_nonnil p) as Hn.
  split; [|split].
  - simpl. destruct (Pos.to_uint p); [contradiction | reflexivity ..].
  - unfold Z.of_uint. rewrite DecimalPos.Unsigned.of_to. reflexivity.
  - destruct (Pos.to_uint p); [contradiction | discriminate ..].
Qed.

End Digits.

Section Numbers.

Local Open Scope string_scope.

Lemma numberEnds_spec (rest : string) :
  numberEnds rest = true -> digitFree rest = true /\ startsFraction rest = false.
Proof.
  unfold numberEnds. intros H. apply andb_prop in H. destruct H as [H1 H2].
  split; [exact H1 | apply negb_true_iff; exact H2].
Qed.

Lemma parseFraction_none (rest : string) :
  startsFraction rest = false -> parseFraction rest = Some ("", rest).
Proof.
  destruct rest as [|c r]; [reflexivity|]. simpl. intros H.
  apply orb_false_elim in H. destruct H as [H _].
  apply orb_false_elim in H. destruct H as [H _].
  rewrite H. reflexivity.
Qed.

Lemma parseExponent_none (rest : string) :
  startsFraction rest = false -> parseExponent rest = Some (0%Z, rest).
Proof.
  destruct rest as [|c r]; [reflexivity|]. simpl. intros H.
  apply orb_false_elim in H. destruct H as [H HE].
  apply orb_false_elim in H. destruct H as [_ He].
  rewrite He, HE. reflexivity.
Qed.

Lemma parseFraction_digits (f rest : string) :
  allDigits f = true -> f <> "" -> digitFree rest = true ->
  parseFraction (String "." (f ++ rest)) = Some (f, rest).
Proof.
  intros Hf Hne Hrest. simpl. rewrite (spanDigits_app f rest Hf Hrest).
  destruct f; [contradiction | reflexivity].
Qed.

Lemma parseExponent_printed (e : Z) (rest : string) :
  e <> 0%Z -> digitFree rest = true ->
  parseExponent (String "e" ((if Z.ltb e 0 then "-" else "+")
                             ++ toString (Z.abs e) ++ rest))
  = Some (e, rest).
Proof.
  intros He Hrest.
  destruct (toString_positive (Z.abs e) ltac:(lia)) as [u [Eu [Hu Hne]]].
  rewrite Eu. cbn [parseExponent Ascii.eqb Bool.eqb orb].
  destruct (Z.ltb_spec e 0) as [Hneg|Hpos]; cbn [append Ascii.eqb Bool.eqb];
    rewrite (spanDigits_app _ rest (allDigits_uint u) Hrest);
    (destruct (NilEmpty.string_of_uint u) eqn:Es; [contradiction|]);
    rewrite <- Es, NilEmpty.usu, Hu; cbn [String.eqb]; rewrite Es;
    cbn [String.eqb]; f_equal; f_equal; lia.
Qed.

Lemma parseUnsigned_steps (neg : bool) (s int r1 frac r2 rest : string) (e : Z) :
  spanDigits s = (int, r1) -> validInt int = true ->
  parseFraction r1 = Some (frac, r2) -> parseExponent r2 = Some (e, rest) ->
  parseUnsigned neg s = Some (normalize neg int frac e, rest).
Proof.
  intros Hs Hv Hf He. unfold parseUnsigned. rewrite Hs, Hv, Hf, He. reflexivity.
Qed.

Lemma normalize_digits (neg : bool) (int frac ds t : string) (e : Z) (m : nat) :
  ds <> "" ->
  stripLeadingZeros (int ++ frac) = (m, t) -> stripTrailingZeros t = ds ->
  normalize neg int frac e
  = Finite neg ds (Z.of_nat (String.length int) + e - Z.of_nat m).
Proof.
  intros Hne Hl Ht. unfold normalize. rewrite Hl, Ht.
  destruct ds; [contradiction | reflexivity].
Qed.

Ltac same_point :=
  match goal with
  | |- Some (Finite ?b ?d ?x, ?r) = Some (Finite ?b ?d ?y, ?r) =>
      replace x with y by lia; reflexivity
  end.

Lemma validInt_head (c : ascii) (r : string) :
  Ascii.eqb c "0" = false -> validInt (String c r) = true.
Proof.
  intros H. simpl. rewrite H. reflexivity.
Qed.

(** Reading back the digits printed by [digitsToString]. *)
Lemma parseUnsigned_digitsToString (neg : bool) (ds : string) (n : Z) (rest : string) :
  canonicalDigits ds = true -> numberEnds rest = true ->
  parseUnsigned neg (digitsToString ds n ++ rest) = Some (Finite neg ds n, rest).
Proof.
  intros Hcan Hend.
  destruct (canonicalDigits_spec ds Hcan) as [Hall [Hlead [Htrail [c [r [Eds [Hc Hc0]]]]]]].
  destruct (numberEnds_spec rest Hend) as [Hfree Hfrac].
  assert (Hne : ds <> "") by (rewrite Eds; discriminate).
  assert (Hlen : (1 <= String.length ds)%nat) by (rewrite Eds; simpl; lia).
  unfold digitsToString.
  destruct (Z.leb (Z.of_nat (String.length ds)) n && Z.leb n 21) eqn:C1.
  { (* digits followed by zeros *)
    apply andb_prop in C1. destruct C1 as [Hkn _]. apply Z.leb_le in Hkn.
    set (m := Z.to_nat (n - Z.of_nat (String.length ds))).
    rewrite (parseUnsigned_steps neg _ (ds ++ zeros m) rest "" rest rest 0).
    - rewrite (normalize_digits neg _ "" ds (ds ++ zeros m) 0 0 Hne).
      + rewrite length_append, length_zeros. unfold m. same_point.
      + rewrite append_nil_r. apply stripLeadingZeros_app; assumption.
      + apply stripTrailingZeros_app; assumption.
    - apply spanDigits_app; [|exact Hfree].
      rewrite allDigits_app, Hall, allDigits_zeros. reflexivity.
    - rewrite Eds. apply validInt_head. exact Hc0.
    - apply parseFraction_none. exact Hfrac.
    - apply parseExponent_none. exact Hfrac. }
  destruct (Z.ltb 0 n && Z.leb n 21) eqn:C2.
  { (* a point inside the digits *)
    apply andb_prop in C2. destruct C2 as [Hn0 Hn21].
    apply Z.ltb_lt in Hn0. apply Z.leb_le in Hn21.
    apply andb_false_iff in C1.
    assert (Hnk : (n < Z.of_nat (String.length ds))%Z).
    { destruct C1 as [C1|C1]; apply Z.leb_gt in C1; lia. }
    clear C1.
    set (m := Z.to_nat n).
    assert (Hm : (1 <= m < String.length ds)%nat) by (unfold m; lia).
    destruct (allDigits_take_drop m ds Hall) as [Htake Hdrop].
    rewrite append_assoc. change ("." ++ dropDigits m ds) with (String "." (dropDigits m ds)).
    change (String "." (dropDigits m ds) ++ rest) with (String "." (dropDigits m ds ++ rest)).
    rewrite (parseUnsigned_steps neg _ (takeDigits m ds) (String "." (dropDigits m ds ++ rest))
               (dropDigits m ds) rest rest 0).
    - rewrite (normalize_digits neg _ _ ds ds 0 0 Hne).
      + rewrite length_takeDigits by lia. unfold m. same_point.
      + rewrite takeDigits_dropDigits. apply stripLeadingZeros_none. exact Hlead.
      + exact Htrail.
    - apply spanDigits_app; [exact Htake | reflexivity].
    - rewrite Eds. destruct m as [|m']; [lia|]. simpl. rewrite Hc0. reflexivity.
    - apply parseFraction_digits; [exact Hdrop | apply dropDigits_nonempty; lia | exact Hfree].
    - apply parseExponent_none. exact Hfrac. }
  destruct (Z.ltb (-6) n && Z.leb n 0) eqn:C3.
  { (* zero, point, zeros, digits *)
    apply andb_prop in C3. destruct C3 as [_ Hn0]. apply Z.leb_le in Hn0.
    set (m := Z.to_nat (- n)).
    change ("0." ++ zeros m ++ ds) with (String "0" (String "." (zeros m ++ ds))).
    change (String "0" (String "." (zeros m ++ ds)) ++ rest)
      with ("0" ++ String "." ((zeros m ++ ds) ++ rest)).
    rewrite (parseUnsigned_steps neg _ "0" (String "." ((zeros m ++ ds) ++ rest))
               (zeros m ++ ds) rest rest 0).
    - rewrite (normalize_digits neg _ _ ds ds 0 (S m) Hne).
      + simpl String.length. unfold m. same_point.
      + change ("0" ++ zeros m ++ ds) with (zeros (S m) ++ ds).
        apply stripLeadingZeros_zeros. exact Hlead.
      + exact Htrail.
    - apply spanDigits_app; reflexivity.
    - reflexivity.
    - apply parseFraction_digits; [|destruct m; rewrite Eds; discriminate | exact Hfree].
      rewrite allDigits_app, allDigits_zeros, Hall. reflexivity.
    - apply parseExponent_none. exact Hfrac. }
  (* exponent notation *)
  assert (He : (n - 1 <> 0)%Z).
  { apply andb_false_iff in C1. apply andb_false_iff in C2. apply andb_false_iff in C3.
    rewrite Z.leb_gt in C1, C2, C3. rewrite Z.ltb_ge in C2, C3.
    rewrite Z.leb_gt in C1. lia. }
  set (X := String "e" ((if Z.ltb (n - 1) 0 then "-" else "+")
                        ++ toString (Z.abs (n - 1)) ++ rest)).
  assert (Hexp : parseExponent X = Some ((n - 1)%Z, rest))
    by (apply parseExponent_printed; assumption).
  assert (Hshape : forall mant,
             (mant ++ "e" ++ (if Z.ltb (n - 1) 0 then "-" else "+")
                   ++ toString (Z.abs (n - 1))) ++ rest
             = mant ++ X).
  { intros mant. unfold X. rewrite !append_assoc. reflexivity. }
  rewrite Hshape.
  assert (HX : digitFree X = true) by reflexivity.
  assert (HXf : parseFraction X = Some ("", X)) by reflexivity.
  clearbody X. clear Hshape.
  rewrite Eds in *. simpl in Hall. apply andb_prop in Hall. destruct Hall as [_ Hr].
  destruct r as [|c' r'].
  - (* one digit *)
    rewrite (parseUnsigned_steps neg _ (String c "") X "" X rest (n - 1)).
    + rewrite (normalize_digits neg _ "" (String c "") (String c "") (n - 1) 0 Hne).
      * simpl String.length. same_point.
      * simpl. rewrite Hc0. reflexivity.
      * exact Htrail.
    + apply spanDigits_app; [simpl; rewrite Hc; reflexivity | exact HX].
    + apply validInt_head. exact Hc0.
    + exact HXf.
    + exact Hexp.
  - (* several digits *)
    change (String c ("." ++ String c' r') ++ X)
      with (String c "" ++ String "." (String c' r' ++ X)).
    rewrite (parseUnsigned_steps neg _ (String c "") (String "." (String c' r' ++ X))
               (String c' r') X rest (n - 1)).
    + rewrite (normalize_digits neg _ _ (String c (String c' r')) (String c (String c' r'))
                 (n - 1) 0 Hne).
      * simpl String.length. same_point.
      * change (String c "" ++ String c' r') with (String c (String c' r')).
        simpl. rewrite Hc0. reflexivity.
      * exact Htrail.
    + apply spanDigits_app; [simpl; rewrite Hc; reflexivity | reflexivity].
    + apply validInt_head. exact Hc0.
    + apply parseFraction_digits; [exact Hr | discriminate | exact HX].
    + exact Hexp.
Qed.

Lemma digit_not_minus (c : ascii) : isDigit c = true -> Ascii.eqb c "-" = false.
Proof.
  destruct c as [[|] [|] [|] [|] [|] [|] [|] [|]]; intros H;
    try discriminate H; reflexivity.
Qed.

(** The text printed for a number starts with a digit. *)
Lemma digitsToString_head (ds : string) (n : Z) :
  canonicalDigits ds = true ->
  exists c r, digitsToString ds n = String c r /\ isDigit c = true.
Proof.
  intros Hcan.
  destruct (canonicalDigits_spec ds Hcan) as [_ [_ [_ [c [r [Eds [Hc _]]]]]]].
  unfold digitsToString.
  destruct (Z.leb (Z.of_nat (String.length ds)) n && Z.leb n 21);
    [rewrite Eds; eexists; eexists; split; [reflexivity | exact Hc]|].
  destruct (Z.ltb 0 n && Z.leb n 21) eqn:C2.
  { apply andb_prop in C2. destruct C2 as [Hn0 _]. apply Z.ltb_lt in Hn0.
    destruct (Z.to_nat n) as [|m] eqn:Em; [lia|].
    rewrite Eds. eexists; eexists. split; [reflexivity | exact Hc]. }
  destruct (Z.ltb (-6) n && Z.leb n 0);
    [eexists; eexists; split; reflexivity|].
  rewrite Eds. destruct r; eexists; eexists; (split; [reflexivity | exact Hc]).
Qed.

Lemma Number_toString_head (x : number) :
  finiteNumber x = true ->
  exists c r, Number_toString x = String c r /\ (isDigit c = true \/ c = "-"%char).
Proof.
  unfold finiteNumber. intros H. apply andb_prop in H. destruct H as [Hf Hc].
  destruct x as [|neg ds n| | |]; try discriminate Hf.
  - exists "0"%char, "". split; [reflexivity | left; reflexivity].
  - simpl in Hc. destruct (digitsToString_head ds n Hc) as [c [r [E Hd]]].
    simpl. destruct neg.
    + eexists; eexists. split; [reflexivity | right; reflexivity].
    + exists c, r. split; [rewrite E; reflexivity | left; exact Hd].
Qed.

(** Reading back a printed number. *)
Lemma parseNumber_printed (x : number) (rest : string) :
  finiteNumber x = true -> numberEnds rest = true ->
  parseNumber (Number_toString x ++ rest) = Some (x, rest).
Proof.
  unfold finiteNumber. intros H Hend. apply andb_prop in H. destruct H as [Hf Hc].
  destruct (numberEnds_spec rest Hend) as [Hfree Hfrac].
  destruct x as [|neg ds n| | |]; try discriminate Hf.
  - change (Number_toString Zero ++ rest) with ("0" ++ rest).
    unfold parseNumber. change (parseSign ("0" ++ rest)) with (false, "0" ++ rest).
    cbv beta iota. rewrite (parseUnsigned_steps false _ "0" rest "" rest rest 0).
    + reflexivity.
    + apply spanDigits_app; [reflexivity | exact Hfree].
    + reflexivity.
    + apply parseFraction_none. exact Hfrac.
    + apply parseExponent_none. exact Hfrac.
  - simpl in Hc. unfold parseNumber, Number_toString. destruct neg.
    + change (("-" ++ digitsToString ds n) ++ rest)
        with (String "-" (digitsToString ds n ++ rest)).
      change (parseSign (String "-" (digitsToString ds n ++ rest)))
        with (true, digitsToString ds n ++ rest).
      cbv beta iota. apply parseUnsigned_digitsToString; assumption.
    + change (("" ++ digitsToString ds n) ++ rest) with (digitsToString ds n ++ rest).
      destruct (digitsToString_head ds n Hc) as [c [r [E Hd]]].
      assert (Es : parseSign (digitsToString ds n ++ rest)
                   = (false, digitsToString ds n ++ rest)).
      { rewrite E. simpl. rewrite (digit_not_minus c Hd). reflexivity. }
      rewrite Es. cbv beta iota. apply parseUnsigned_digitsToString; assumption.
Qed.

Lemma parseValue_number (fuel : nat) (c : ascii) (r : string) :
  isDigit c = true \/ c = "-"%char ->
  parseValue (S fuel) (String c r)
  = match parseNumber (String c r) with
    | Some (n, rest) => Some (JNumber n, rest)
    | None => None
    end.
Proof.
  intros [H| ->]; [|reflexivity].
  destruct c as [[|] [|] [|] [|] [|] [|] [|] [|]];
    try discriminate H; reflexivity.
Qed.

End Numbers.

(** *** Values *)

Section Values.

Local Open Scope string_scope.

Lemma digit_starts_value (c : ascii) :
  isDigit c = true \/ c = "-"%char ->
  isWs c = false /\ Ascii.eqb c "]" = false /\ Ascii.eqb c "}" = false.
Proof.
  intros [H| ->]; [|repeat split].
  destruct c as [[|] [|] [|] [|] [|] [|] [|] [|]];
    try discriminate H; repeat split.
Qed.

(** A printed value starts with a character that is neither white space nor
    a closing bracket. *)
Lemma stringify_head (j : json) (tail : string) :
  finiteJson j = true ->
  exists c r, stringify j ++ tail = String c r
              /\ isWs c = false /\ Ascii.eqb c "]" = false /\ Ascii.eqb c "}" = false.
Proof.
  intros Hfin.
  destruct j as [|[|]|x|s|l|m]; simpl;
    try (eexists; eexists; split; [reflexivity | repeat split]).
  simpl in Hfin. unfold stringifyNumber.
  assert (Hf : is_finite x = true)
    by (unfold finiteNumber in Hfin; apply andb_prop in Hfin; apply Hfin).
  rewrite Hf. destruct (Number_toString_head x Hfin) as [c [r [E Hc]]].
  rewrite E. simpl. exists c, (r ++ tail).
  split; [reflexivity | apply digit_starts_value; exact Hc].
Qed.

Local Abbreviation printMember :=
  (fun kv : string * json => quote (fst kv) ++ ":" ++ stringify (snd kv)).

Section Sequences.

Variable pv : string -> option (json * string).

Lemma parseElements_joined (l : list json) :
  forall n rest,
    l <> [] -> length l <= n ->
    Forall (fun x => forall tail, numberEnds tail = true ->
                                  pv (stringify x ++ tail) = Some (x, tail)) l ->
    parseElements pv n (joinWith "," (map stringify l) ++ String "]" rest)
    = Some (l, rest).
Proof.
  induction l as [|x l IH]; intros n rest Hne Hn Hall; [contradiction|].
  destruct n as [|n]; [simpl in Hn; lia|].
  inversion Hall as [|x' l' Hx Hl]; subst.
  destruct l as [|y l].
  - simpl. rewrite (Hx (String "]" rest) eq_refl). reflexivity.
  - change (joinWith "," (map stringify (x :: y :: l)))
      with (stringify x ++ "," ++ joinWith "," (map stringify (y :: l))).
    rewrite append_assoc.
    change (("," ++ joinWith "," (map stringify (y :: l))) ++ String "]" rest)
      with (String "," (joinWith "," (map stringify (y :: l)) ++ String "]" rest)).
    cbn [parseElements]. rewrite Hx by reflexivity. cbn [skipWs].
    change (isWs ",") with false. cbn iota.
    change (Ascii.eqb "," ",") with true. cbn iota.
    rewrite (IH n rest); [reflexivity | discriminate | simpl in Hn |- *; lia | exact Hl].
Qed.

Lemma parseMembers_joined (m : list (string * json)) :
  forall n rest,
    m <> [] -> length m <= n ->
    Forall (fun kv => forall tail, numberEnds tail = true ->
                                   pv (stringify (snd kv) ++ tail) = Some (snd kv, tail)) m ->
    parseMembers pv n (joinWith "," (map printMember m) ++ String "}" rest)
    = Some (m, rest).
Proof.
  induction m as [|[k v] m IH]; intros n rest Hne Hn Hall; [contradiction|].
  destruct n as [|n]; [simpl in Hn; lia|].
  inversion Hall as [|kv' m' Hx Hm]; subst. simpl in Hx.
  assert (Hone : forall tail,
             printMember (k, v) ++ tail
             = String dquote (quoteBody k ++ String dquote (String ":" (stringify v ++ tail)))).
  { intros tail. unfold quote. cbn [fst snd append].
    rewrite !append_assoc. cbn [append]. reflexivity. }
  destruct m as [|kv2 m].
  - simpl joinWith. rewrite Hone. cbn [parseMembers skipWs].
    change (isWs dquote) with false. cbn iota.
    change (Ascii.eqb dquote dquote) with true. cbn iota.
    rewrite parseStringBody_quoteBody. cbn [skipWs]. change (isWs ":") with false.
    cbn iota. change (Ascii.eqb ":" ":") with true. cbn iota.
    rewrite (Hx (String "}" rest) eq_refl). reflexivity.
  - change (joinWith "," (map printMember ((k, v) :: kv2 :: m)))
      with (printMember (k, v) ++ "," ++ joinWith "," (map printMember (kv2 :: m))).
    rewrite append_assoc, Hone. cbn [parseMembers skipWs].
    change (isWs dquote) with false. cbn iota.
    change (Ascii.eqb dquote dquote) with true. cbn iota.
    rewrite parseStringBody_quoteBody. cbn [skipWs]. change (isWs ":") with false.
    cbn iota. change (Ascii.eqb ":" ":") with true. cbn iota.
    change (("," ++ joinWith "," (map printMember (kv2 :: m))) ++ String "}" rest)
      with (String "," (joinWith "," (map printMember (kv2 :: m)) ++ String "}" rest)).
    rewrite Hx by reflexivity. cbn [skipWs]. change (isWs ",") with false. cbn iota.
    change (Ascii.eqb "," ",") with true. cbn iota.
    rewrite (IH n rest); [reflexivity | discriminate | simpl in Hn |- *; lia | exact Hm].
Qed.

End Sequences.

Lemma weight_in_sum {A : Type} (w : A -> nat) (x : A) (l : list A) :
  In x l -> w x <= list_sum (map w l).
Proof.
  induction l as [|y l IH]; simpl; [intros []|].
  intros [->|H]; [lia | specialize (IH H); lia].
Qed.

(** Reading a printed value gives the value and what followed it. *)
Lemma parseValue_stringify (j : json) :
  finiteJson j = true ->
  forall fuel rest,
    weight j <= fuel -> numberEnds rest = true ->
    parseValue fuel (stringify j ++ rest) = Some (j, rest).
Proof.
  induction j as [|b|n|s|l IH|m IH] using json_induction;
    intros Hfin fuel rest Hfuel Hend;
    (destruct fuel as [|fuel]; [simpl in Hfuel; lia|]).
  - reflexivity.
  - destruct b; reflexivity.
  - simpl in Hfin. simpl stringify. unfold stringifyNumber.
    assert (Hf : is_finite n = true)
      by (unfold finiteNumber in Hfin; apply andb_prop in Hfin; apply Hfin).
    rewrite Hf. destruct (Number_toString_head n Hfin) as [c [r [E Hc]]].
    assert (E' : Number_toString n ++ rest = String c (r ++ rest))
      by (rewrite E; reflexivity).
    rewrite E', (parseValue_number fuel c (r ++ rest) Hc), <- E'.
    rewrite (parseNumber_printed n rest Hfin Hend). reflexivity.
  - simpl stringify. rewrite quote_append. cbn [parseValue skipWs].
    change (isWs dquote) with false. cbn iota.
    change (Ascii.eqb dquote "n") with false. change (Ascii.eqb dquote "t") with false.
    change (Ascii.eqb dquote "f") with false. change (Ascii.eqb dquote dquote) with true.
    cbn iota. rewrite parseStringBody_quoteBody. reflexivity.
  - simpl in Hfin, Hfuel.
    change (stringify (JArray l) ++ rest)
      with (String "[" ((joinWith "," (map stringify l) ++ "]") ++ rest)).
    rewrite append_assoc. change ("]" ++ rest) with (String "]" rest).
    cbn [parseValue skipWs]. change (isWs "[") with false. cbn iota.
    change (Ascii.eqb "[" "n") with false. change (Ascii.eqb "[" "t") with false.
    change (Ascii.eqb "[" "f") with false. change (Ascii.eqb "[" dquote) with false.
    change (Ascii.eqb "[" "[") with true. cbn iota.
    destruct l as [|x l]; [reflexivity|].
    assert (Hparse : parseElements (parseValue fuel) fuel
                       (joinWith "," (map stringify (x :: l)) ++ String "]" rest)
                     = Some (x :: l, rest)).
    { apply parseElements_joined; [discriminate | lia |].
      rewrite Forall_forall in IH |- *. intros y Hy tail Htail.
      apply IH; [exact Hy | | | exact Htail].
      - rewrite forallb_forall in Hfin. apply Hfin. exact Hy.
      - pose proof (weight_in_sum weight y (x :: l) Hy). lia. }
    rewrite Hparse.
    assert (Hx : finiteJson x = true).
    { rewrite forallb_forall in Hfin. apply Hfin. left. reflexivity. }
    assert (Hhead : exists c r,
               joinWith "," (map stringify (x :: l)) ++ String "]" rest = String c r
               /\ isWs c = false /\ Ascii.eqb c "]" = false).
    { destruct l as [|y l].
      - destruct (stringify_head x (String "]" rest) Hx) as [c [r [E [Hw [Hb _]]]]].
        exists c, r. split; [exact E | split; assumption].
      - change (joinWith "," (map stringify (x :: y :: l)))
          with (stringify x ++ "," ++ joinWith "," (map stringify (y :: l))).
        rewrite append_assoc.
        destruct (stringify_head x (("," ++ joinWith "," (map stringify (y :: l)))
                                    ++ String "]" rest) Hx) as [c [r [E [Hw [Hb _]]]]].
        exists c, r. split; [exact E | split; assumption]. }
    destruct Hhead as [c [r [E [Hw Hb]]]].
    rewrite E. cbn [skipWs]. rewrite Hw, Hb. reflexivity.
  - simpl in Hfin, Hfuel.
    change (stringify (JObject m) ++ rest)
      with (String "{" ((joinWith "," (map printMember m) ++ "}") ++ rest)).
    rewrite append_assoc. change ("}" ++ rest) with (String "}" rest).
    cbn [parseValue skipWs]. change (isWs "{") with false. cbn iota.
    change (Ascii.eqb "{" "n") with false. change (Ascii.eqb "{" "t") with false.
    change (Ascii.eqb "{" "f") with false. change (Ascii.eqb "{" dquote) with false.
    change (Ascii.eqb "{" "[") with false. change (Ascii.eqb "{" "{") with true.
    cbn iota.
    destruct m as [|[k v] m]; [reflexivity|].
    assert (Hparse : parseMembers (parseValue fuel) fuel
                       (joinWith "," (map printMember ((k, v) :: m)) ++ String "}" rest)
                     = Some ((k, v) :: m, rest)).
    { apply parseMembers_joined; [discriminate | lia |].
      rewrite Forall_forall in IH |- *. intros kv Hkv tail Htail.
      apply IH; [exact Hkv | | | exact Htail].
      - rewrite forallb_forall in Hfin. apply (Hfin kv). exact Hkv.
      - pose proof (weight_in_sum (fun kv => weight (snd kv)) kv ((k, v) :: m) Hkv). lia. }
    rewrite Hparse.
    assert (Hhead : exists r,
               joinWith "," (map printMember ((k, v) :: m)) ++ String "}" rest
               = String dquote r).
    { destruct m as [|kv2 m]; eexists; reflexivity. }
    destruct Hhead as [r E]. rewrite E. cbn [skipWs].
    change (isWs dquote) with false. cbn iota.
    change (Ascii.eqb dquote "}") with false. reflexivity.
Qed.

End Values.

Section ParsePrinted.

Local Open Scope string_scope.

Lemma joined_length {A : Type} (w : A -> nat) (pr : A -> string) (l : list A) :
  (forall x, In x l -> w x <= String.length (pr x)) ->
  length l + list_sum (map w l) <= String.length (joinWith "," (map pr l)) + 1.
Proof.
  induction l as [|x l IH]; intros Hw; [simpl; lia|].
  assert (Hx : w x <= String.length (pr x)) by (apply Hw; left; reflexivity).
  assert (Hl : length l + list_sum (map w l)
               <= String.length (joinWith "," (map pr l)) + 1).
  { apply IH. intros y Hy. apply Hw. right. exact Hy. }
  destruct l as [|y l].
  - simpl. lia.
  - change (joinWith "," (map pr (x :: y :: l)))
      with (pr x ++ "," ++ joinWith "," (map pr (y :: l))).
    rewrite !length_append. simpl String.length. simpl in Hl |- *. lia.
Qed.

Lemma weight_le_length (j : json) :
  finiteJson j = true -> weight j <= String.length (stringify j).
Proof.
  induction j as [|b|n|s|l IH|m IH] using json_induction; intros Hfin.
  - simpl. lia.
  - destruct b; simpl; lia.
  - destruct (stringify_head (JNumber n) "" Hfin) as [c [r [E _]]].
    rewrite append_nil_r in E. rewrite E. simpl. lia.
  - simpl. lia.
  - rewrite Forall_forall in IH. simpl in Hfin. rewrite forallb_forall in Hfin.
    assert (H : length l + list_sum (map weight l)
                <= String.length (joinWith "," (map stringify l)) + 1).
    { apply joined_length. intros x Hx. apply IH; [exact Hx | apply Hfin; exact Hx]. }
    simpl. rewrite length_append. simpl. lia.
  - rewrite Forall_forall in IH. simpl in Hfin. rewrite forallb_forall in Hfin.
    assert (Hm : length m + list_sum (map (fun kv => weight (snd kv)) m)
                 <= String.length
                      (joinWith ","
                         (map (fun kv => quote (fst kv) ++ ":" ++ stringify (snd kv)) m)) + 1).
    { apply joined_length. intros kv Hkv. rewrite !length_append.
      specialize (IH kv Hkv (Hfin kv Hkv)). lia. }
    change (weight (JObject m))
      with (S (length m + list_sum (map (fun kv => weight (snd kv)) m))).
    change (stringify (JObject m))
      with (String "{"
              (joinWith "," (map (fun kv => quote (fst kv) ++ ":" ++ stringify (snd kv)) m)
               ++ "}")).
    cbn [String.length]. rewrite length_append. cbn [String.length]. lia.
Qed.

(** [JSON.parse(JSON.stringify(v))] is [v] when every number in [v] is
    finite. *)
Lemma JSON_parse_stringify (j : json) :
  finiteJson j = true -> JSON_parse (JSON_stringify j) = Some j.
Proof.
  intros Hfin. unfold JSON_parse, JSON_stringify.
  pose proof (parseValue_stringify j Hfin (S (String.length (stringify j))) ""
                (Nat.le_trans _ _ _ (weight_le_length j Hfin) (Nat.le_succ_diag_r _))
                eq_refl) as H.
  rewrite append_nil_r in H. rewrite H. reflexivity.
Qed.

Lemma substring_last (y : string) :
  String.substring (String.length (y ++ "]") - 1) 1 (y ++ "]") = "]".
Proof.
  induction y as [|c y IH]; [reflexivity|].
  simpl String.length. simpl append.
  assert (E : String.length (y ++ "]") = S (String.length (y ++ "]") - 1)).
  { rewrite length_append. simpl. lia. }
  replace (S (String.length (y ++ "]")) - 1)%nat with (String.length (y ++ "]")) by lia.
  rewrite E at 1. simpl String.substring. exact IH.
Qed.

Lemma endsWith_bracket (y : string) : endsWith (y ++ "]") "]" = true.
Proof.
  unfold endsWith. simpl String.length at 2 3 4.
  replace (Nat.ltb (String.length (y ++ "]")) 1) with false
    by (symmetry; apply Nat.ltb_ge; rewrite length_append; simpl; lia).
  rewrite substring_last. reflexivity.
Qed.

Lemma array_looks_structured (l : list json) :
  startsWith (stringify (JArray l)) "[" && endsWith (stringify (JArray l)) "]" = true.
Proof.
  change (stringify (JArray l))
    with (String "[" (joinWith "," (map stringify l)) ++ "]").
  rewrite endsWith_bracket. unfold startsWith. simpl.
  destruct (joinWith "," (map stringify l) ++ "]"); reflexivity.
Qed.

End ParsePrinted.

(** *** Blocks *)

Section TypedReading.

Lemma traverse_map {A B : Type} (f : B -> option A) (g : A -> B) (l : list A) :
  (forall x, f (g x) = Some x) -> traverse f (map g l) = Some l.
Proof.
  intros H. induction l as [|x l IH]; simpl; [reflexivity|].
  rewrite H, IH. reflexivity.
Qed.

Lemma asStrings_jsonOfStrings (l : list string) :
  asStrings (jsonOfStrings l) = Some l.
Proof.
  simpl. apply traverse_map. reflexivity.
Qed.

Lemma tableOfJson_jsonOfTable (t : TableData) :
  tableOfJson (jsonOfTable t) = Some t.
Proof.
  destruct t as [r [c|] [h|]]; simpl;
    rewrite ?(traverse_map asStrings jsonOfStrings r asStrings_jsonOfStrings),
            ?(traverse_map asString JString _ (fun s => eq_refl));
    reflexivity.
Qed.

Lemma pointOfJson_jsonOfPoint (p : ChartPoint) :
  pointOfJson (jsonOfPoint p) = Some p.
Proof.
  destruct p. reflexivity.
Qed.

Lemma chartOfJson_jsonOfChart (c : ChartData) :
  chartOfJson (jsonOfChart c) = Some c.
Proof.
  destruct c as [[|] [t|] [x|] [y|] d]; simpl;
    rewrite (traverse_map pointOfJson jsonOfPoint d pointOfJson_jsonOfPoint);
    reflexivity.
Qed.

Lemma blockOfJson_jsonOfBlock (b : Block) :
  blockOfJson (jsonOfBlock b) = Some b.
Proof.
  destruct b as [i ty c w t ch]. unfold jsonOfBlock. cbn [id type content width tableData chartData].
  assert (Ht : optional tableOfJson (option_map jsonOfTable t) = Some t).
  { destruct t as [t|]; cbn [optional option_map];
      [rewrite tableOfJson_jsonOfTable|]; reflexivity. }
  assert (Hc : optional chartOfJson (option_map jsonOfChart ch) = Some ch).
  { destruct ch as [ch|]; cbn [optional option_map];
      [rewrite chartOfJson_jsonOfChart|]; reflexivity. }
  destruct t as [t|]; destruct ch as [ch|];
    cbn [option_map] in Ht, Hc |- *;
    try (set (jt := jsonOfTable t) in *; clearbody jt);
    try (set (jc := jsonOfChart ch) in *; clearbody jc);
    simpl in Ht, Hc;
    destruct ty; destruct w as [w|]; simpl; rewrite ?Ht, ?Hc; reflexivity.
Qed.

Lemma blocksOfJson_jsonOfBlocks (blocks : list Block) :
  blocksOfJson (jsonOfBlocks blocks) = Some blocks.
Proof.
  simpl. apply traverse_map. exact blockOfJson_jsonOfBlock.
Qed.

Lemma finite_jsonOfStrings (l : list string) : finiteJson (jsonOfStrings l) = true.
Proof.
  simpl. induction l as [|s l IH]; simpl; [reflexivity | exact IH].
Qed.

Lemma finite_jsonOfTable (t : TableData) : finiteJson (jsonOfTable t) = true.
Proof.
  assert (Hrows : forallb finiteJson (map jsonOfStrings (rows t)) = true).
  { induction (rows t) as [|r rs IH]; [reflexivity|].
    cbn [map forallb]. rewrite finite_jsonOfStrings, IH. reflexivity. }
  destruct t as [r [c|] [h|]]; cbn [rows] in Hrows; unfold jsonOfTable;
    cbn [rows colHeaders rowHeaders option_map optField app finiteJson forallb snd];
    rewrite Hrows; repeat rewrite (finite_jsonOfStrings _); reflexivity.
Qed.

Lemma finite_jsonOfChart (c : ChartData) :
  finiteChart c = true -> finiteJson (jsonOfChart c) = true.
Proof.
  unfold finiteChart. intros H.
  assert (Hd : forallb finiteJson (map jsonOfPoint (data c)) = true).
  { induction (data c) as [|p ps IH]; [reflexivity|].
    cbn [forallb] in H. apply andb_prop in H. destruct H as [Hp Hps].
    cbn [map forallb]. rewrite (IH Hps).
    destruct p as [n v]. cbn [value] in Hp. simpl. rewrite Hp. reflexivity. }
  destruct c as [ty [t|] [x|] [y|] d]; cbn [data] in Hd; unfold jsonOfChart;
    cbn [chartType title xAxisLabel yAxisLabel data option_map optField app
         finiteJson forallb snd];
    rewrite Hd; reflexivity.
Qed.

Lemma finite_jsonOfBlock (b : Block) :
  finiteBlock b = true -> finiteJson (jsonOfBlock b) = true.
Proof.
  unfold finiteBlock. intros H. apply andb_prop in H. destruct H as [Hw Hc].
  destruct b as [i ty c [w|] [t|] [ch|]]; cbn [width chartData] in Hw, Hc;
    unfold jsonOfBlock;
    cbn [id type content width tableData chartData option_map optField app
         finiteJson forallb snd];
    rewrite ?finite_jsonOfTable, ?(finite_jsonOfChart _ Hc); simpl in Hw |- *;
    rewrite ?Hw; reflexivity.
Qed.

Lemma finite_jsonOfBlocks (blocks : list Block) :
  forallb finiteBlock blocks = true -> finiteJson (jsonOfBlocks blocks) = true.
Proof.
  simpl. induction blocks as [|b blocks IH]; [reflexivity|].
  cbn [forallb map]. intros H. apply andb_prop in H. destruct H as [Hb Hbs].
  rewrite (finite_jsonOfBlock b Hb), (IH Hbs). reflexivity.
Qed.

End TypedReading.

(** ** Persistence *)

Lemma decode_encode_json (blocks : list Block) :
  forallb finiteBlock blocks = true ->
  decode (encode blocks) = jsonOfBlocks blocks.
Proof.
  intros Hfin. unfold decode, decodeWith, encode, JSON_stringify.
  unfold jsonOfBlocks at 1 2. rewrite array_looks_structured.
  fold (jsonOfBlocks blocks). fold (JSON_stringify (jsonOfBlocks blocks)).
  rewrite (JSON_parse_stringify _ (finite_jsonOfBlocks blocks Hfin)). reflexivity.
Qed.

(** C3, as stated, fails: a chart point whose value is [Infinity] is
    written as [null], so the decoded document differs from the encoded one
    although the document is non-empty and its chart has a point. *)
Lemma infinite_value_does_not_round_trip :
  let c := mkChart line None None None [mkPoint "peak" PosInfinity] in
  let doc := [mkBlock "1" chart "" None None (Some c); textBlock "2" ""] in
  doc <> [] /\ length (data c) = 1 /\
  decode (encode doc) <> jsonOfBlocks doc /\
  blocksOfJson (decode (encode doc)) <> Some doc.
Proof.
  intros c doc. split; [discriminate|]. split; [reflexivity|].
  split; vm_compute; discriminate.
Qed.

(** C3 (amended): for every document whose stored numbers (image widths,
    chart values) are finite ([finiteBlock]: zero, or the digits and point
    position of a shortest decimal form), decoding the encoded document
    gives the value the document is, and reading that value as blocks gives
    back the document: decode(encode(d)) = d. *)
Theorem decode_encode_round_trip (blocks : list Block) :
  forallb finiteBlock blocks = true ->
  decode (encode blocks) = jsonOfBlocks blocks /\
  blocksOfJson (decode (encode blocks)) = Some blocks.
Proof.
  intros Hfin. rewrite (decode_encode_json blocks Hfin).
  split; [reflexivity | apply blocksOfJson_jsonOfBlocks].
Qed.

Lemma decode_encode_round_trip_witness :
  let measured :=
    mkChart bar (Some "Yield") (Some "Run") None
      [mkPoint "a" (Finite false "125" 2);
       mkPoint "b" (Finite true "3" (-2));
       mkPoint "c" (Finite false "602214076" 24);
       mkPoint "d" Zero] in
  let doc := handleChartChange
               (addTableBlock 1700000000000 1700000000001
                  (addChartBlock 1690000000000 1690000000000
                     (addImageBlock 1680000000000 1680000000000
                        [textBlock "initial" "Results of run 7"]
                        "data:image/png;base64,AAAA")))
               "1690000000000" measured in
  blocksOfJson (decode (encode doc)) = Some doc.
Proof.
  intros measured doc.
  apply (proj2 (decode_encode_round_trip doc eq_refl)).
Defined.

(** C4, as stated, fails: the test is made on the raw text, not on the
    trimmed one.  A text with a leading blank trims to a bracketed array
    that parses, and yet is taken as legacy plain text. *)
Lemma leading_blank_is_legacy :
  let raw := " []"%string in
  spec_looksStructured raw = true /\
  JSON_parse raw = Some (JArray []) /\
  decode raw = jsonOfBlocks [textBlock "initial" raw] /\
  decode raw <> JArray [].
Proof.
  intros raw. repeat split. discriminate.
Qed.

(** C4 (amended): [decode] yields a document for every text and every
    outcome of the parse.  If the raw text itself (untrimmed) starts with
    '[' and ends with ']' it is parsed, and on success the parsed value is
    the document; if the parse fails, or the text is not bracketed, the
    document is the one text block with id 'initial' whose content is the
    whole raw text.  "plain text" and "[not valid json" both give that
    fallback. *)
Theorem decode_falls_back (parse : string -> option json) (value : string) :
  (startsWith value "[" && endsWith value "]" = true ->
     (forall j, parse value = Some j -> decodeWith parse value = j) /\
     (parse value = None -> decodeWith parse value = jsonOfBlocks (legacyBlocks value))) /\
  (startsWith value "[" && endsWith value "]" = false ->
     decodeWith parse value = jsonOfBlocks (legacyBlocks value)) /\
  legacyBlocks value = [mkBlock "initial" text value None None None] /\
  blocksOfJson (jsonOfBlocks (legacyBlocks value)) = Some (legacyBlocks value) /\
  decodeWith parse "plain text" = jsonOfBlocks (legacyBlocks "plain text") /\
  decodeWith parse "[not valid json" = jsonOfBlocks (legacyBlocks "[not valid json").
Proof.
  split.
  { intros Hb. unfold decodeWith. rewrite Hb. split.
    - intros j Hj. rewrite Hj. reflexivity.
    - intros Hn. rewrite Hn. reflexivity. }
  split.
  { intros Hb. unfold decodeWith. rewrite Hb. reflexivity. }
  split; [reflexivity|].
  split; [apply blocksOfJson_jsonOfBlocks|].
  split; reflexivity.
Qed.

Lemma decode_falls_back_witness :
  decode "[]" = JArray [] /\
  decode "[1,]" = jsonOfBlocks (legacyBlocks "[1,]") /\
  decode "plain text" = jsonOfBlocks [textBlock "initial" "plain text"] /\
  decode "[not valid json" = jsonOfBlocks [textBlock "initial" "[not valid json"].
Proof.
  split.
  { apply (proj1 (proj1 (decode_falls_back JSON_parse "[]") eq_refl)). reflexivity. }
  split.
  { apply (proj2 (proj1 (decode_falls_back JSON_parse "[1,]") eq_refl)). reflexivity. }
  split.
  { apply (proj1 (proj2 (decode_falls_back JSON_parse "plain text")) eq_refl). }
  apply (proj1 (proj2 (decode_falls_back JSON_parse "[not valid json")) eq_refl).
Defined.

(** ** Block identifiers and the block store *)

Lemma toString_read (z : Z) :
  NilZero.int_of_string (toString z) = Some (Z.to_int z).
Proof.
  unfold toString. apply NilZero.isi; intros E;
    pose proof (DecimalZ.to_of (Z.to_int z)) as N;
    rewrite DecimalZ.of_to in N; rewrite E in N; discriminate.
Qed.

Lemma toString_inj (a b : Z) : toString a = toString b -> a = b.
Proof.
  intros H. apply DecimalZ.to_int_inj.
  pose proof (toString_read a) as Ha. rewrite H, toString_read in Ha.
  congruence.
Qed.

Lemma toString_not_initial (z : Z) : toString z <> "initial".
Proof.
  intros H. pose proof (toString_read z) as Hz. rewrite H in Hz. discriminate.
Qed.

Lemma stamped_mono (a b : Z) (i : string) :
  (a <= b)%Z -> stamped a i -> stamped b i.
Proof.
  intros Hle [E|[t [Ht E]]]; [left; exact E|].
  right. exists t. split; [lia | exact E].
Qed.

Lemma stamped_differs (bound t : Z) (i : string) :
  stamped bound i -> (bound <= t)%Z -> i <> toString t.
Proof.
  intros [E|[t' [Ht E]]] Hle Heq; subst i.
  - symmetry in Heq. apply (toString_not_initial t Heq).
  - apply toString_inj in Heq. lia.
Qed.

Lemma uniqueIds_mono (a b : Z) (blocks : list Block) :
  (a <= b)%Z -> uniqueIds a blocks -> uniqueIds b blocks.
Proof.
  intros Hle [Hnd Hall]. split; [exact Hnd|].
  apply (Forall_impl _ (P := fun x => stamped a (id x))); [|exact Hall].
  intros x. apply stamped_mono. exact Hle.
Qed.

(** Leaving blocks out keeps the ids apart. *)
Lemma unique_ids_filter (keep : Block -> bool) (blocks : list Block) :
  NoDup (map id blocks) -> NoDup (map id (filter keep blocks)).
Proof.
  intros Hnd. induction blocks as [|b blocks IH]; [constructor|].
  cbn [map filter] in *. apply NoDup_cons_iff in Hnd. destruct Hnd as [Hnin Hnd].
  destruct (keep b); [|apply IH; exact Hnd].
  cbn [map]. apply NoDup_cons_iff. split; [|apply IH; exact Hnd].
  intros Hin. apply Hnin. apply in_map_iff in Hin.
  destruct Hin as [x [E Hx]]. apply filter_In in Hx.
  apply in_map_iff. exists x. split; [exact E | apply Hx].
Qed.

Lemma uniqueIds_insert (now now1 now2 : Z) (blocks : list Block) (b t : Block) :
  (now <= now1)%Z -> (now1 <= now2)%Z -> uniqueIds now blocks ->
  id b = toString now1 -> id t = toString (now2 + 1) ->
  uniqueIds (now2 + 2) (blocks ++ [b; t]).
Proof.
  intros Hle Htick [Hnd Hall] Hb Ht. split.
  - rewrite map_app. apply NoDup_app; [exact Hnd | |].
    + simpl. rewrite Hb, Ht. constructor.
      * intros [E|[]]. apply toString_inj in E. lia.
      * constructor; [intros [] | constructor].
    + intros i Hin Hin'. apply in_map_iff in Hin.
      destruct Hin as [x [E Hx]]. subst i.
      rewrite Forall_forall in Hall. specialize (Hall x Hx).
      simpl in Hin'. rewrite Hb, Ht in Hin'.
      destruct Hin' as [E|[E|[]]]; symmetry in E; revert E;
        apply (stamped_differs now); try exact Hall; lia.
  - apply Forall_app. split.
    + apply (Forall_impl _ (P := fun x => stamped now (id x))); [|exact Hall].
      intros x. apply stamped_mono. lia.
    + constructor; [right; exists now1; split; [lia | exact Hb]|].
      constructor; [right; exists (now2 + 1)%Z; split; [lia | exact Ht]|].
      constructor.
Qed.

Lemma uniqueIds_edit (bound : Z) (f : Block -> Block) (blocks : list Block) :
  (forall b, id (f b) = id b) ->
  uniqueIds bound blocks -> uniqueIds bound (map f blocks).
Proof.
  intros Hf [Hnd Hall].
  assert (E : map id (map f blocks) = map id blocks).
  { rewrite map_map. apply map_ext. exact Hf. }
  split; [rewrite E; exact Hnd|].
  apply Forall_map.
  apply (Forall_impl _ (P := fun x => stamped bound (id x))); [|exact Hall].
  intros x Hx. rewrite Hf. exact Hx.
Qed.

(** X1: ids stay unique as long as the clock does not run backwards.  If
    no id occurs twice and every id is 'initial' or a clock reading taken
    before [now], then after an insertion whose two clock readings are
    [now1] and [now2], with [now <= now1 <= now2], the same holds with the
    bound [now2 + 2]; after a removal that reads the clock at [now1] it
    holds with the bound [now1 + 1]; and after an edit of a text, an image
    width, a table or a chart it holds with the bound unchanged. *)
Theorem ids_stay_unique (now now1 now2 : Z) (blocks : list Block) :
  uniqueIds now blocks -> (now <= now1)%Z -> (now1 <= now2)%Z ->
  (forall src, uniqueIds (now2 + 2) (addImageBlock now1 now2 blocks src)) /\
  uniqueIds (now2 + 2) (addTableBlock now1 now2 blocks) /\
  uniqueIds (now2 + 2) (addChartBlock now1 now2 blocks) /\
  (forall i, uniqueIds (now1 + 1) (commit blocks (removeBlock now1 blocks i))) /\
  (forall i c, uniqueIds now (handleTextChange blocks i c)) /\
  (forall i w, uniqueIds now (handleImageResize blocks i w)) /\
  (forall i t, uniqueIds now (handleTableChange blocks i t)) /\
  (forall i c, uniqueIds now (handleChartChange blocks i c)).
Proof.
  intros HU Hle Htick.
  split; [intros src; apply (uniqueIds_insert now now1 now2); auto|].
  split; [apply (uniqueIds_insert now now1 now2); auto|].
  split; [apply (uniqueIds_insert now now1 now2); auto|].
  split.
  { intros i.
    assert (Hfilter : uniqueIds (now1 + 1)
                        (filter (fun b => negb (String.eqb (id b) i)) blocks)).
    { destruct HU as [Hnd Hall]. split; [apply unique_ids_filter; exact Hnd|].
      apply Forall_forall. intros x Hx. apply filter_In in Hx.
      rewrite Forall_forall in Hall.
      apply (stamped_mono now); [lia | apply Hall; apply Hx]. }
    unfold removeBlock. destruct blocks as [|b0 [|b1 rest]].
    - simpl. apply (uniqueIds_mono now); [lia | exact HU].
    - cbn [length Nat.leb]. destruct (BlockType_eqb (type b0) text).
      + cbn [commit]. split.
        * simpl. constructor; [intros [] | constructor].
        * constructor; [|constructor]. right. exists now1. split; [lia | reflexivity].
      + exact Hfilter.
    - exact Hfilter. }
  assert (Hedit : forall (i : string) (f : Block -> Block),
             (forall b, id (f b) = id b) ->
             uniqueIds now (map (fun b => if String.eqb (id b) i then f b else b) blocks)).
  { intros i f Hf. apply uniqueIds_edit; [|exact HU].
    intros b. destruct (String.eqb (id b) i); [apply Hf | reflexivity]. }
  split; [intros i c; apply (Hedit i (fun b => mkBlock _ _ _ _ _ _)); reflexivity|].
  split; [intros i c; apply (Hedit i (fun b => mkBlock _ _ _ _ _ _)); reflexivity|].
  split; [intros i c; apply (Hedit i (fun b => mkBlock _ _ _ _ _ _)); reflexivity|].
  intros i c; apply (Hedit i (fun b => mkBlock _ _ _ _ _ _)); reflexivity.
Qed.

Lemma ids_stay_unique_witness :
  uniqueIds 1700000000009
    (addTableBlock 1700000000005 1700000000007
       (addImageBlock 1700000000000 1700000000001 (legacyBlocks "Results of run 7")
          "data:image/png;base64,AAAA")).
Proof.
  assert (H0 : uniqueIds 0 (legacyBlocks "Results of run 7")).
  { split; [simpl; constructor; [intros [] | constructor]|].
    constructor; [left; reflexivity | constructor]. }
  assert (H1 : (0 <= 1700000000000)%Z) by lia.
  assert (H2 : (1700000000000 <= 1700000000001)%Z) by lia.
  pose proof (proj1 (ids_stay_unique 0 1700000000000 1700000000001 _ H0 H1 H2)
                "data:image/png;base64,AAAA") as H3.
  assert (H4 : (1700000000001 + 2 <= 1700000000005)%Z) by lia.
  assert (H5 : (1700000000005 <= 1700000000007)%Z) by lia.
  exact (proj1 (proj2 (ids_stay_unique _ 1700000000005 1700000000007 _ H3 H4 H5))).
Defined.

Lemma removeBlock_of_two (now : Z) (blocks : list Block) (i : string) :
  2 <= length blocks ->
  removeBlock now blocks i
  = Emit (filter (fun b => negb (String.eqb (id b) i)) blocks).
Proof.
  intros Hlen. unfold removeBlock.
  destruct blocks as [|b0 [|b1 rest]]; simpl in Hlen; try lia. reflexivity.
Qed.

Lemma remove_inserted (now now' now2 : Z) (blocks : list Block) (b : Block) :
  (now <= now')%Z ->
  (forall x, In x blocks -> id x <> toString now) ->
  id b = toString now ->
  removeBlock now2 (blocks ++ [b; textBlock (toString (now' + 1)) ""]) (toString now)
  = Emit (blocks ++ [textBlock (toString (now' + 1)) ""]).
Proof.
  intros Htick Hfresh Hb. rewrite removeBlock_of_two.
  - rewrite filter_app, (filter_absent blocks _ Hfresh). simpl.
    rewrite Hb, String.eqb_refl. simpl.
    destruct (String.eqb_spec (toString (now' + 1)) (toString now)) as [E|_].
    + apply toString_inj in E. lia.
    + reflexivity.
  - rewrite length_app. simpl. lia.
Qed.

(** X2: inserting a block and removing it again does not give the document
    back: when no block carries the new id and the clock did not run
    backwards between the two readings [now] and [now'] of the insertion,
    removing the inserted image, table or chart leaves the document as it
    was, followed by the empty text block that came with the insertion. *)
Theorem insert_then_remove_leaves_text (now now' now2 : Z) (blocks : list Block) :
  (now <= now')%Z ->
  (forall x, In x blocks -> id x <> toString now) ->
  (forall src,
     removeBlock now2 (addImageBlock now now' blocks src) (toString now)
     = Emit (blocks ++ [textBlock (toString (now' + 1)) ""])) /\
  removeBlock now2 (addTableBlock now now' blocks) (toString now)
  = Emit (blocks ++ [textBlock (toString (now' + 1)) ""]) /\
  removeBlock now2 (addChartBlock now now' blocks) (toString now)
  = Emit (blocks ++ [textBlock (toString (now' + 1)) ""]).
Proof.
  intros Htick Hfresh.
  split; [intros src|split]; apply remove_inserted; auto.
Qed.

Lemma insert_then_remove_leaves_text_witness :
  removeBlock 1700000009000
    (addTableBlock 1700000000000 1700000000001 [textBlock "initial" "Method"])
    "1700000000000"
  = Emit [textBlock "initial" "Method"; textBlock "1700000000002" ""].
Proof.
  refine (proj1 (proj2 (insert_then_remove_leaves_text 1700000000000 1700000000001
                          1700000009000 [textBlock "initial" "Method"] _ _))).
  - lia.
  - intros x [E|[]]. subst x. discriminate.
Defined.

(** X3: an insertion that reads the clock one millisecond after the last
    reading of the insertion before it shares an id with it.  When the
    first insertion read [now] and then [now1], and the second reads
    [now1 + 1] and then [now2], the second inserted block gets the id of the
    text block that followed the first one: the ids are no longer unique,
    removing the second inserted block also removes that text block, and a
    text edit addressed to the text block also overwrites the content of the
    inserted block. *)
Theorem close_insertions_share_an_id (now now1 now2 clock : Z) (blocks : list Block)
  (src c : string) :
  (now <= now1)%Z -> (now1 + 1 <= now2)%Z ->
  (forall x, In x blocks -> id x <> toString (now1 + 1)) ->
  let doc := addTableBlock (now1 + 1) now2 (addImageBlock now now1 blocks src) in
  ~ NoDup (map id doc) /\
  removeBlock clock doc (toString (now1 + 1))
  = Emit (blocks ++ [mkBlock (toString now) image src (Some (numberOfZ 100)) None None;
                     textBlock (toString (now2 + 1)) ""]) /\
  handleTextChange doc (toString (now1 + 1)) c
  = blocks ++ [mkBlock (toString now) image src (Some (numberOfZ 100)) None None;
               textBlock (toString (now1 + 1)) c;
               mkBlock (toString (now1 + 1)) table c None (Some defaultTable) None;
               textBlock (toString (now2 + 1)) ""].
Proof.
  intros Hle Htick Hfresh doc. unfold doc, addTableBlock, addImageBlock.
  assert (N1 : String.eqb (toString now) (toString (now1 + 1)) = false).
  { apply String.eqb_neq. intros E. apply toString_inj in E. lia. }
  assert (N2 : String.eqb (toString (now2 + 1)) (toString (now1 + 1)) = false).
  { apply String.eqb_neq. intros E. apply toString_inj in E. lia. }
  split; [|split].
  - rewrite <- app_assoc, map_app. intros Hnd.
    apply NoDup_app_remove_l in Hnd. simpl in Hnd.
    inversion Hnd as [|? ? _ H2]. inversion H2 as [|? ? Hn _].
    apply Hn. left. reflexivity.
  - rewrite removeBlock_of_two by (rewrite !length_app; simpl; lia).
    rewrite !filter_app, (filter_absent blocks _ Hfresh). simpl.
    rewrite N1, N2, String.eqb_refl. simpl.
    rewrite <- app_assoc. reflexivity.
  - unfold handleTextChange. rewrite !map_app.
    rewrite (map_absent _ blocks _ Hfresh). simpl.
    rewrite N1, N2, String.eqb_refl. rewrite <- app_assoc. reflexivity.
Qed.

Lemma close_insertions_share_an_id_witness :
  removeBlock 1700000009000
    (addTableBlock (1700000000000 + 1) 1700000000001
       (addImageBlock 1700000000000 1700000000000 [] "data:image/png;base64,AAAA"))
    (toString (1700000000000 + 1))
  = Emit [mkBlock "1700000000000" image "data:image/png;base64,AAAA"
            (Some (numberOfZ 100)) None None;
          textBlock "1700000000002" ""].
Proof.
  apply (proj1 (proj2 (close_insertions_share_an_id 1700000000000 1700000000000
                         1700000000001 1700000009000 []
                         "data:image/png;base64,AAAA" ""
                         ltac:(lia) ltac:(lia)
                         (fun x Hx => match Hx with end)))).
Defined.

Lemma unique_split (l1 l2 : list Block) (b : Block) :
  NoDup (map id (l1 ++ b :: l2)) ->
  (forall x, In x l1 -> id x <> id b) /\ (forall x, In x l2 -> id x <> id b).
Proof.
  intros Hnd. rewrite map_app in Hnd. simpl in Hnd.
  apply NoDup_remove_2 in Hnd. split; intros x Hx E; apply Hnd; rewrite <- E;
    apply in_or_app; [left | right]; apply in_map; exact Hx.
Qed.

(** X4: when no id occurs twice, removing a block from a document of two
    or more blocks takes out exactly that block: the blocks before it and
    the blocks after it stay, in their order. *)
Theorem removeBlock_takes_one (now : Z) (l1 l2 : list Block) (b : Block) :
  NoDup (map id (l1 ++ b :: l2)) ->
  1 <= length (l1 ++ l2) ->
  removeBlock now (l1 ++ b :: l2) (id b) = Emit (l1 ++ l2).
Proof.
  intros Hnd Hlen. destruct (unique_split l1 l2 b Hnd) as [H1 H2].
  rewrite removeBlock_of_two.
  - rewrite filter_app. simpl. rewrite String.eqb_refl. simpl.
    rewrite (filter_absent l1 _ H1), (filter_absent l2 _ H2). reflexivity.
  - rewrite length_app in *. simpl. lia.
Qed.

Lemma removeBlock_takes_one_witness :
  removeBlock 1700000009000
    ([textBlock "initial" "Method"]
     ++ mkBlock "1700000000000" image "data:image/png;base64,AAAA" None None None
     :: [textBlock "1700000000001" "Results"])
    "1700000000000"
  = Emit [textBlock "initial" "Method"; textBlock "1700000000001" "Results"].
Proof.
  apply (removeBlock_takes_one 1700000009000 [textBlock "initial" "Method"]
           [textBlock "1700000000001" "Results"]
           (mkBlock "1700000000000" image "data:image/png;base64,AAAA" None None None)).
  - simpl. repeat constructor; simpl; intuition discriminate.
  - simpl. lia.
Defined.

(** X5: when no id occurs twice, an edit changes the addressed block and
    nothing else: the text edit replaces its content, the resize its width,
    the table and chart edits its table and its chart; the other fields of
    the block, and all other blocks, are as before. *)
Theorem edit_changes_one_block (l1 l2 : list Block) (b : Block) :
  NoDup (map id (l1 ++ b :: l2)) ->
  (forall c, handleTextChange (l1 ++ b :: l2) (id b) c
             = l1 ++ mkBlock (id b) (type b) c (width b) (tableData b) (chartData b) :: l2) /\
  (forall w, handleImageResize (l1 ++ b :: l2) (id b) w
             = l1 ++ mkBlock (id b) (type b) (content b) (Some w) (tableData b) (chartData b)
                  :: l2) /\
  (forall t, handleTableChange (l1 ++ b :: l2) (id b) t
             = l1 ++ mkBlock (id b) (type b) (content b) (width b) (Some t) (chartData b)
                  :: l2) /\
  (forall c, handleChartChange (l1 ++ b :: l2) (id b) c
             = l1 ++ mkBlock (id b) (type b) (content b) (width b) (tableData b) (Some c)
                  :: l2).
Proof.
  intros Hnd. destruct (unique_split l1 l2 b Hnd) as [H1 H2].
  assert (Hedit : forall f : Block -> Block,
             map (fun x => if String.eqb (id x) (id b) then f x else x) (l1 ++ b :: l2)
             = l1 ++ f b :: l2).
  { intros f. rewrite map_app. simpl. rewrite String.eqb_refl.
    rewrite (map_absent f l1 _ H1), (map_absent f l2 _ H2). reflexivity. }
  split; [intros c|split; [intros w|split; [intros t|intros c]]].
  - apply (Hedit (fun x => mkBlock (id x) (type x) c (width x) (tableData x) (chartData x))).
  - apply (Hedit (fun x => mkBlock (id x) (type x) (content x) (Some w) (tableData x)
                             (chartData x))).
  - apply (Hedit (fun x => mkBlock (id x) (type x) (content x) (width x) (Some t)
                             (chartData x))).
  - apply (Hedit (fun x => mkBlock (id x) (type x) (content x) (width x) (tableData x)
                             (Some c))).
Qed.

Lemma edit_changes_one_block_witness :
  handleImageResize
    ([textBlock "initial" "Method"]
     ++ mkBlock "1700000000000" image "data:image/png;base64,AAAA" None None None
     :: [textBlock "1700000000001" "Results"])
    "1700000000000" (numberOfZ 40)
  = [textBlock "initial" "Method";
     mkBlock "1700000000000" image "data:image/png;base64,AAAA" (Some (numberOfZ 40))
       None None;
     textBlock "1700000000001" "Results"].
Proof.
  apply (proj1 (proj2 (edit_changes_one_block [textBlock "initial" "Method"]
           [textBlock "1700000000001" "Results"]
           (mkBlock "1700000000000" image "data:image/png;base64,AAAA" None None None)
           ltac:(simpl; repeat constructor; simpl; intuition discriminate)))).
Defined.

(** ** Table and chart edits *)

Section Indexed.

Context {A : Type}.

Lemma nth_error_filter_index_from (i index : nat) (l : list A) (j : nat) :
  nth_error (filter_index_from i index l) j
  = nth_error l (if Nat.ltb index i || Nat.ltb (i + j) index then j else S j).
Proof.
  revert i j. induction l as [|x l IH]; intros i j; simpl.
  - destruct (Nat.ltb index i || Nat.ltb (i + j) index); destruct j; reflexivity.
  - destruct (Nat.eqb_spec i index) as [E|N].
    + rewrite IH. subst i.
      replace (Nat.ltb index (S index)) with true by (symmetry; apply Nat.ltb_lt; lia).
      replace (Nat.ltb index index) with false by (symmetry; apply Nat.ltb_ge; lia).
      replace (Nat.ltb (index + j) index) with false by (symmetry; apply Nat.ltb_ge; lia).
      reflexivity.
    + destruct j as [|j]; simpl.
      * rewrite Nat.add_0_r.
        destruct (Nat.ltb_spec index i); destruct (Nat.ltb_spec i index);
          simpl; try reflexivity; lia.
      * rewrite IH. replace (S i + j) with (i + S j) by lia.
        destruct (Nat.ltb_spec index i) as [H1|H1];
          destruct (Nat.ltb_spec index (S i)) as [H2|H2]; simpl; try reflexivity; try lia.
        destruct (Nat.ltb_spec (i + S j) index); reflexivity.
Qed.

(** [filter_index index l] is [l] without its entry number [index]. *)
Lemma nth_error_filter_index (index : nat) (l : list A) (j : nat) :
  nth_error (filter_index index l) j
  = nth_error l (if Nat.ltb j index then j else S j).
Proof.
  unfold filter_index. rewrite nth_error_filter_index_from. reflexivity.
Qed.

Lemma filter_index_from_absent (i index : nat) (l : list A) :
  index < i \/ i + length l <= index -> filter_index_from i index l = l.
Proof.
  revert i. induction l as [|x l IH]; intros i H; simpl; [reflexivity|].
  simpl in H. destruct (Nat.eqb_spec i index) as [E|_]; [lia|].
  f_equal. apply IH. lia.
Qed.

Lemma filter_index_absent (index : nat) (l : list A) :
  length l <= index -> filter_index index l = l.
Proof.
  intros H. apply filter_index_from_absent. right. simpl. exact H.
Qed.

Lemma filter_index_from_last (i : nat) (l : list A) (x : A) :
  filter_index_from i (i + length l) (l ++ [x]) = l.
Proof.
  revert i. induction l as [|y l IH]; intros i; simpl.
  - rewrite Nat.add_0_r, Nat.eqb_refl. reflexivity.
  - destruct (Nat.eqb_spec i (i + S (length l))) as [E|_]; [lia|].
    f_equal. replace (i + S (length l)) with (S i + length l) by lia. apply IH.
Qed.

Lemma filter_index_last (l : list A) (x : A) :
  filter_index (length l) (l ++ [x]) = l.
Proof.
  apply (filter_index_from_last 0).
Qed.

Lemma nth_error_mapi_from {B : Type} (f : A -> nat -> B) (k : nat) (l : list A) (i : nat) :
  nth_error (mapi_from k f l) i
  = match nth_error l i with
    | Some x => Some (f x (k + i))
    | None => None
    end.
Proof.
  revert k i. induction l as [|x l IH]; intros k i; simpl.
  - destruct i; reflexivity.
  - destruct i as [|i]; simpl; [rewrite Nat.add_0_r; reflexivity|].
    rewrite IH. replace (S k + i) with (k + S i) by lia. reflexivity.
Qed.

Lemma nth_error_mapi {B : Type} (f : A -> nat -> B) (l : list A) (i : nat) :
  nth_error (mapi f l) i
  = match nth_error l i with
    | Some x => Some (f x i)
    | None => None
    end.
Proof.
  unfold mapi. rewrite nth_error_mapi_from. reflexivity.
Qed.

Lemma length_mapi_from {B : Type} (f : A -> nat -> B) (k : nat) (l : list A) :
  length (mapi_from k f l) = length l.
Proof.
  revert k. induction l as [|x l IH]; intros k; simpl; [|rewrite IH]; reflexivity.
Qed.

End Indexed.

Lemma nth_error_ext {A : Type} (l l' : list A) :
  (forall i, nth_error l i = nth_error l' i) -> l = l'.
Proof.
  revert l'. induction l as [|x l IH]; intros [|y l'] H.
  - reflexivity.
  - specialize (H 0). discriminate.
  - specialize (H 0). discriminate.
  - pose proof (H 0) as H0. simpl in H0. inversion H0; subst. f_equal.
    apply IH. intros i. apply (H (S i)).
Qed.

(** The cell in row [r] and column [c], if there is one. *)
Lemma cell_of_updateCell (d : TableData) (rowIndex colIndex : nat) (v : string) (r c : nat) :
  match nth_error (mapi (fun row rIdx =>
            if Nat.eqb rIdx rowIndex
            then mapi (fun cell cIdx => if Nat.eqb cIdx colIndex then v else cell) row
            else row) (rows d)) r with
  | Some row => nth_error row c
  | None => None
  end
  = match nth_error (rows d) r with
    | Some row =>
        match nth_error row c with
        | Some cell => Some (if Nat.eqb r rowIndex && Nat.eqb c colIndex then v else cell)
        | None => None
        end
    | None => None
    end.
Proof.
  rewrite nth_error_mapi. destruct (nth_error (rows d) r) as [row|]; [|reflexivity].
  destruct (Nat.eqb r rowIndex); simpl.
  - rewrite nth_error_mapi. reflexivity.
  - destruct (nth_error row c); reflexivity.
Qed.

Lemma map_length_mapi_from {A : Type} (f : list A -> nat -> list A) (k : nat)
  (l : list (list A)) :
  (forall row i, length (f row i) = length row) ->
  map (@length A) (mapi_from k f l) = map (@length A) l.
Proof.
  intros Hf. revert k. induction l as [|x l IH]; intros k; simpl; [reflexivity|].
  rewrite Hf, IH. reflexivity.
Qed.

Lemma rectangular_shape (d d' : TableData) :
  map (@length string) (rows d') = map (@length string) (rows d) ->
  colHeaders d' = colHeaders d -> rowHeaders d' = rowHeaders d ->
  rectangular d' = rectangular d.
Proof.
  intros Hs Hc Hr. unfold rectangular. rewrite Hc, Hr.
  assert (Hlen : length (rows d') = length (rows d)).
  { rewrite <- (length_map (@length string) (rows d')), Hs. apply length_map. }
  assert (Hall : forall n, forallb (fun r => Nat.eqb (length r) n) (rows d')
                           = forallb (fun r => Nat.eqb (length r) n) (rows d)).
  { intros n.
    assert (E : forall l : list (list string),
               forallb (fun r => Nat.eqb (length r) n) l
               = forallb (fun k => Nat.eqb k n) (map (@length string) l)).
    { induction l as [|x l IH]; simpl; [|rewrite IH]; reflexivity. }
    rewrite !E, Hs. reflexivity. }
  rewrite Hlen.
  destruct (rows d') as [|r0' rest'] eqn:E'; destruct (rows d) as [|r0 rest] eqn:E;
    try discriminate; [reflexivity|].
  assert (E0 : length r0' = length r0) by (simpl in Hs; congruence).
  rewrite E0, Hall. reflexivity.
Qed.

(** X6: a cell edit changes the addressed cell and nothing else.  The new
    table has the headers and the shape of the old one (every row keeps its
    length, so a rectangular table stays rectangular), the cell in row
    [rowIndex] and column [colIndex] holds the new text, every other cell
    is as before, and when there is no such cell the table is unchanged. *)
Theorem updateCell_sets_one_cell (d : TableData) (rowIndex colIndex : nat) (v : string) :
  exists d',
    updateCell d rowIndex colIndex v = Emit d' /\
    colHeaders d' = colHeaders d /\
    rowHeaders d' = rowHeaders d /\
    map (@length string) (rows d') = map (@length string) (rows d) /\
    rectangular d' = rectangular d /\
    (forall r c,
       cell d' r c
       = match cell d r c with
         | Some old => Some (if Nat.eqb r rowIndex && Nat.eqb c colIndex then v else old)
         | None => None
         end) /\
    (cell d rowIndex colIndex = None -> d' = d).
Proof.
  eexists. split; [reflexivity|]. cbn [colHeaders rowHeaders rows].
  assert (Hshape : map (@length string)
                     (mapi (fun row rIdx =>
                        if Nat.eqb rIdx rowIndex
                        then mapi (fun cell cIdx => if Nat.eqb cIdx colIndex then v else cell) row
                        else row) (rows d))
                   = map (@length string) (rows d)).
  { apply map_length_mapi_from. intros row i.
    destruct (Nat.eqb i rowIndex); [apply length_mapi_from | reflexivity]. }
  assert (Hcell : forall r c,
             cell (mkTable (mapi (fun row rIdx =>
                        if Nat.eqb rIdx rowIndex
                        then mapi (fun cell cIdx => if Nat.eqb cIdx colIndex then v else cell) row
                        else row) (rows d)) (colHeaders d) (rowHeaders d)) r c
             = match cell d r c with
               | Some old => Some (if Nat.eqb r rowIndex && Nat.eqb c colIndex then v else old)
               | None => None
               end).
  { intros r c. unfold cell. cbn [rows]. rewrite cell_of_updateCell.
    destruct (nth_error (rows d) r); reflexivity. }
  split; [reflexivity|]. split; [reflexivity|]. split; [exact Hshape|].
  split; [apply rectangular_shape; [exact Hshape | reflexivity | reflexivity]|].
  split; [exact Hcell|].
  intros Hnone. destruct d as [rs ch rh]. f_equal. cbn [rows] in *.
  apply nth_error_ext. intros r.
  rewrite nth_error_mapi. destruct (nth_error rs r) as [row|] eqn:Er; [|reflexivity].
  f_equal. destruct (Nat.eqb_spec r rowIndex) as [E|_]; [|reflexivity].
  subst r. apply nth_error_ext. intros c. rewrite nth_error_mapi.
  destruct (nth_error row c) as [old|] eqn:Ec; [|reflexivity].
  destruct (Nat.eqb_spec c colIndex) as [E|_]; [|reflexivity].
  subst c. unfold cell in Hnone. cbn [rows] in Hnone. rewrite Er, Ec in Hnone.
  discriminate.
Qed.

Lemma updateCell_sets_one_cell_witness :
  exists d',
    updateCell defaultTable 1 2 "4.2 mg" = Emit d' /\
    cell d' 1 2 = Some "4.2 mg" /\
    cell d' 0 2 = Some "" /\
    updateCell defaultTable 2 0 "x" = Emit defaultTable.
Proof.
  destruct (updateCell_sets_one_cell defaultTable 1 2 "4.2 mg")
    as [d' [Hrun [_ [_ [_ [_ [Hcell _]]]]]]].
  destruct (updateCell_sets_one_cell defaultTable 2 0 "x")
    as [d2 [Hrun2 [_ [_ [_ [_ [_ Hsame]]]]]]].
  exists d'. split; [exact Hrun|].
  split; [rewrite Hcell; reflexivity|].
  split; [rewrite Hcell; reflexivity|].
  rewrite Hrun2. f_equal. apply Hsame. reflexivity.
Defined.

(** X7: adding a row or a column and then removing it gives the table
    back.  For a rectangular table, [removeRow] at the index of the row just
    added by [addRow], and [removeColumn] at the index of the column just
    added by [addColumn], yield the original table, stored headers
    included. *)
Theorem add_then_remove_restores (d : TableData) :
  rectangular d = true ->
  (exists d1, addRow d = Emit d1 /\ removeRow d1 (length (rows d)) = Emit d) /\
  (exists d2, addColumn d = Emit d2 /\ removeColumn d2 (colCount d) = Emit d).
Proof.
  intros HR. apply rectangular_Rect in HR. destruct HR as [n HR].
  pose proof (Rect_colCount n d HR) as Hcc.
  destruct HR as [Hn [Hne [Hall [Hch Hrh]]]].
  destruct d as [rs ch rh]. cbn [rows colHeaders rowHeaders] in *.
  split.
  - eexists. split; [reflexivity|]. unfold removeRow. cbn [rows colHeaders rowHeaders].
    replace (Nat.ltb 1 (length (rs ++ [repeat "" (colCount (mkTable rs ch rh))])))
      with true.
    2:{ symmetry. apply Nat.ltb_lt. rewrite length_app. simpl.
        destruct rs; [contradiction | simpl; lia]. }
    rewrite filter_index_last. do 2 f_equal.
    destruct rh as [h|]; [|reflexivity].
    simpl in Hrh. apply Nat.eqb_eq in Hrh. rewrite <- Hrh.
    rewrite filter_index_last. reflexivity.
  - assert (Hrows : map (fun row => filter_index n row) (map (fun row => row ++ [""]) rs) = rs).
    { rewrite map_map. rewrite <- (map_id rs) at 2. apply map_ext_in.
      intros row Hin. rewrite <- (Hall row Hin). apply filter_index_last. }
    rewrite Hcc. destruct rs as [|r0 rest]; [contradiction|].
    assert (E0 : length r0 = n) by (apply Hall; left; reflexivity).
    unfold addColumn. cbn [rows colHeaders rowHeaders].
    destruct ch as [h|].
    + eexists. split; [reflexivity|]. unfold removeColumn.
      cbn [rows colHeaders rowHeaders map].
      replace (Nat.ltb 1 (length (r0 ++ [""]))) with true
        by (symmetry; apply Nat.ltb_lt; rewrite length_app; simpl; lia).
      change (filter_index n (r0 ++ [""])
              :: map (fun row => filter_index n row) (map (fun row => row ++ [""]) rest))
        with (map (fun row => filter_index n row) (map (fun row => row ++ [""]) (r0 :: rest))).
      rewrite Hrows. do 3 f_equal.
      simpl in Hch. apply Nat.eqb_eq in Hch. rewrite <- Hch.
      apply filter_index_last.
    + eexists. split; [reflexivity|]. unfold removeColumn.
      cbn [rows colHeaders rowHeaders map].
      replace (Nat.ltb 1 (length (r0 ++ [""]))) with true
        by (symmetry; apply Nat.ltb_lt; rewrite length_app; simpl; lia).
      change (filter_index n (r0 ++ [""])
              :: map (fun row => filter_index n row) (map (fun row => row ++ [""]) rest))
        with (map (fun row => filter_index n row) (map (fun row => row ++ [""]) (r0 :: rest))).
      rewrite Hrows. reflexivity.
Qed.

Lemma add_then_remove_restores_witness :
  (exists d1, addRow defaultTable = Emit d1 /\ removeRow d1 2 = Emit defaultTable) /\
  (exists d2, addColumn defaultTable = Emit d2 /\ removeColumn d2 3 = Emit defaultTable).
Proof.
  apply (add_then_remove_restores defaultTable). reflexivity.
Defined.

(** X8: [removeRow] on a table of two or more rows takes out exactly the
    row at [index], together with its stored header: the rows and stored
    row headers before [index] stay where they are, those after it move up
    by one, and the column headers are untouched.  When [index] is beyond
    the last row and the last stored header the table is unchanged. *)
Theorem removeRow_takes_one_row (d : TableData) (index : nat) :
  1 < length (rows d) ->
  exists d',
    removeRow d index = Emit d' /\
    (forall j, nth_error (rows d') j
               = nth_error (rows d) (if Nat.ltb j index then j else S j)) /\
    (forall h, rowHeaders d = Some h ->
       exists h', rowHeaders d' = Some h' /\
                  forall j, nth_error h' j
                            = nth_error h (if Nat.ltb j index then j else S j)) /\
    (rowHeaders d = None -> rowHeaders d' = None) /\
    colHeaders d' = colHeaders d /\
    (length (rows d) <= index ->
     (forall h, rowHeaders d = Some h -> length h <= index) ->
     d' = d).
Proof.
  intros Hlen. unfold removeRow.
  replace (Nat.ltb 1 (length (rows d))) with true by (symmetry; apply Nat.ltb_lt; exact Hlen).
  eexists. split; [reflexivity|]. cbn [rows rowHeaders colHeaders].
  split; [intros j; apply nth_error_filter_index|].
  split.
  { intros h Hh. rewrite Hh. eexists. split; [reflexivity|].
    intros j. apply nth_error_filter_index. }
  split; [intros Hh; rewrite Hh; reflexivity|].
  split; [reflexivity|].
  intros Hout Hhead. destruct d as [rs ch rh]. cbn [rows rowHeaders colHeaders] in *.
  rewrite (filter_index_absent index rs Hout). f_equal.
  destruct rh as [h|]; [|reflexivity].
  rewrite (filter_index_absent index h (Hhead h eq_refl)). reflexivity.
Qed.

Lemma removeRow_takes_one_row_witness :
  exists d',
    removeRow (mkTable [["a"; "b"]; ["c"; "d"]; ["e"; "f"]] None (Some ["x"; "y"; "z"])) 1
    = Emit d' /\
    nth_error (rows d') 1 = Some ["e"; "f"] /\
    rowHeaders d' = Some ["x"; "z"].
Proof.
  destruct (removeRow_takes_one_row
              (mkTable [["a"; "b"]; ["c"; "d"]; ["e"; "f"]] None (Some ["x"; "y"; "z"])) 1)
    as [d' [Hrun [Hrows [Hhead _]]]].
  - simpl. lia.
  - exists d'. split; [exact Hrun|]. split; [rewrite Hrows; reflexivity|].
    destruct (Hhead _ eq_refl) as [h' [Eh Hh']]. rewrite Eh. f_equal.
    apply nth_error_ext. intros j. rewrite Hh'.
    destruct j as [|[|[|j]]]; reflexivity.
Defined.

(** X9: [removeColumn] on a table whose first row has two or more cells
    takes the cell at [index] out of every row, together with the stored
    column header at [index]: cells and stored headers before [index] stay
    where they are, those after it move left by one, and the row headers
    are untouched. *)
Theorem removeColumn_takes_one_column (d : TableData) (index : nat) :
  (exists r0 rest, rows d = r0 :: rest /\ 1 < length r0) ->
  exists d',
    removeColumn d index = Emit d' /\
    length (rows d') = length (rows d) /\
    (forall r c, cell d' r c = cell d r (if Nat.ltb c index then c else S c)) /\
    (forall h, colHeaders d = Some h ->
       exists h', colHeaders d' = Some h' /\
                  forall j, nth_error h' j
                            = nth_error h (if Nat.ltb j index then j else S j)) /\
    (colHeaders d = None -> colHeaders d' = None) /\
    rowHeaders d' = rowHeaders d.
Proof.
  intros [r0 [rest [Hrows Hlen]]]. unfold removeColumn. rewrite Hrows.
  replace (Nat.ltb 1 (length r0)) with true by (symmetry; apply Nat.ltb_lt; exact Hlen).
  eexists. split; [reflexivity|]. cbn [rows rowHeaders colHeaders].
  split; [apply length_map|].
  split.
  { intros r c. unfold cell. cbn [rows]. rewrite Hrows, nth_error_map.
    destruct (nth_error (r0 :: rest) r) as [row|]; [|reflexivity].
    apply nth_error_filter_index. }
  split.
  { intros h Hh. rewrite Hh. eexists. split; [reflexivity|].
    intros j. apply nth_error_filter_index. }
  split; [intros Hh; rewrite Hh; reflexivity | reflexivity].
Qed.

Lemma removeColumn_takes_one_column_witness :
  exists d',
    removeColumn defaultTable 1 = Emit d' /\
    colHeaders d' = Some ["A"; "C"] /\
    length (rows d') = 2.
Proof.
  destruct (removeColumn_takes_one_column defaultTable 1) as [d' [Hrun [Hlen [_ [Hhead _]]]]].
  - exists [""; ""; ""], [[""; ""; ""]]. split; [reflexivity | simpl; lia].
  - exists d'. split; [exact Hrun|]. split; [|rewrite Hlen; reflexivity].
    destruct (Hhead _ eq_refl) as [h' [Eh Hh']]. rewrite Eh. f_equal.
    apply nth_error_ext. intros j. rewrite Hh'.
    destruct j as [|[|[|j]]]; reflexivity.
Defined.

(** X10: chart edits that undo each other.  Adding a point to a chart that
    has one and removing the point just added gives the chart back;
    toggling the chart type twice gives the chart back; and [removePoint]
    on a chart of two or more points takes out exactly the point at
    [index], the later points moving up by one. *)
Theorem chart_edits_undo (c : ChartData) :
  (1 <= length (data c) ->
   exists c1, addPoint c = Emit c1 /\ removePoint c1 (length (data c)) = Emit c) /\
  (exists c2, toggleType c = Emit c2 /\ toggleType c2 = Emit c) /\
  (forall index, 1 < length (data c) ->
     exists c3,
       removePoint c index = Emit c3 /\
       chartType c3 = chartType c /\ title c3 = title c /\
       xAxisLabel c3 = xAxisLabel c /\ yAxisLabel c3 = yAxisLabel c /\
       forall j, nth_error (data c3) j
                 = nth_error (data c) (if Nat.ltb j index then j else S j)).
Proof.
  split; [|split].
  - intros Hlen. eexists. split; [reflexivity|]. unfold removePoint.
    cbn [data chartType title xAxisLabel yAxisLabel].
    replace (Nat.ltb 1 (length (data c ++ [mkPoint ("Point " ++ toString
                                                     (Z.of_nat (length (data c) + 1)))
                                                   (numberOfZ 0)]))) with true
      by (symmetry; apply Nat.ltb_lt; rewrite length_app; simpl; lia).
    rewrite filter_index_last. destruct c; reflexivity.
  - eexists. split; [reflexivity|]. unfold toggleType.
    cbn [data chartType title xAxisLabel yAxisLabel].
    destruct c as [[|] t x y d]; reflexivity.
  - intros index Hlen. unfold removePoint.
    replace (Nat.ltb 1 (length (data c))) with true
      by (symmetry; apply Nat.ltb_lt; exact Hlen).
    eexists. split; [reflexivity|]. cbn [data chartType title xAxisLabel yAxisLabel].
    repeat split. intros j. apply nth_error_filter_index.
Qed.

Lemma chart_edits_undo_witness :
  (exists c1, addPoint defaultChart = Emit c1 /\ removePoint c1 3 = Emit defaultChart) /\
  (exists c3, removePoint defaultChart 0 = Emit c3 /\
              nth_error (data c3) 0 = Some (mkPoint "Feb" (numberOfZ 300))).
Proof.
  split.
  - apply (proj1 (chart_edits_undo defaultChart)). simpl. lia.
  - destruct (proj2 (proj2 (chart_edits_undo defaultChart)) 0) as [c3 [Hrun [_ [_ [_ [_ Hnth]]]]]].
    + simpl. lia.
    + exists c3. split; [exact Hrun|]. rewrite Hnth. reflexivity.
Defined.

(** ** Reading a stored note *)

Section ParsedBlocks.

Lemma hasType_jsonOfBlock (k : string) (b : Block) :
  hasType k (jsonOfBlock b) = Normal (String.eqb (blockTypeName (type b)) k).
Proof.
  destruct b as [i ty c [w|] [t|] [ch|]]; reflexivity.
Qed.

Lemma hasType_text (b : Block) :
  hasType "text" (jsonOfBlock b) = Normal (BlockType_eqb (type b) text).
Proof.
  rewrite hasType_jsonOfBlock. destruct (type b); reflexivity.
Qed.

Lemma hasType_image (b : Block) :
  hasType "image" (jsonOfBlock b) = Normal (BlockType_eqb (type b) image).
Proof.
  rewrite hasType_jsonOfBlock. destruct (type b); reflexivity.
Qed.

Lemma content_jsonOfBlock (b : Block) :
  property KContent (jsonOfBlock b) = Normal (Some (JString (content b))).
Proof.
  destruct b as [i ty c [w|] [t|] [ch|]]; reflexivity.
Qed.

Lemma width_jsonOfBlock (b : Block) :
  property KWidth (jsonOfBlock b) = Normal (option_map JNumber (width b)).
Proof.
  destruct b as [i ty c [w|] [t|] [ch|]]; reflexivity.
Qed.

Lemma mapM_map {A B C : Type} (f : B -> completion C) (g : A -> B) (h : A -> C)
  (l : list A) :
  (forall x, f (g x) = Normal (h x)) -> mapM f (map g l) = Normal (map h l).
Proof.
  intros H. induction l as [|x l IH]; [reflexivity|].
  cbn [map mapM]. rewrite H, IH. reflexivity.
Qed.

Lemma mapM_raises {A B : Type} (f : A -> completion B) (l : list A) (x : A) :
  In x l -> f x = Raised -> mapM f l = Raised.
Proof.
  intros Hin Hx. induction l as [|y l IH]; [contradiction|].
  simpl. destruct Hin as [E|Hin].
  - subst y. rewrite Hx. reflexivity.
  - rewrite (IH Hin). destruct (f y); reflexivity.
Qed.

Lemma join_strings (sep : string) (l : list string) :
  join sep (map (fun s => Some (JString s)) l) = Normal (joinWith sep l).
Proof.
  unfold join. rewrite map_map.
  assert (E : sequence (map (fun s : string => Normal s) l) = Normal l).
  { induction l as [|s l IH]; simpl; [|rewrite IH]; reflexivity. }
  simpl. rewrite E. reflexivity.
Qed.

Lemma parse_encode (blocks : list Block) :
  forallb finiteBlock blocks = true ->
  bracketed (encode blocks) = true /\
  JSON_parse (encode blocks) = Some (JArray (map jsonOfBlock blocks)).
Proof.
  intros Hfin. split.
  - apply array_looks_structured.
  - apply (JSON_parse_stringify (jsonOfBlocks blocks)).
    apply finite_jsonOfBlocks. exact Hfin.
Qed.

End ParsedBlocks.

(** X11: what the search looks at in a note written by the editor.  For a
    document whose stored numbers are finite, the text searched in its
    encoded form is the contents of its text blocks joined by single
    blanks, every block of another type counting as the empty string: the
    content of an image block (its data URI), tables and charts are not
    searched. *)
Theorem searchText_of_document (blocks : list Block) :
  forallb finiteBlock blocks = true ->
  searchText (encode blocks)
  = joinWith " " (map (fun b => if BlockType_eqb (type b) text then content b else "")
                      blocks).
Proof.
  intros Hfin. destruct (parse_encode blocks Hfin) as [Hb Hp].
  unfold searchText. rewrite Hb, Hp. cbn [arrayOf bind].
  rewrite (mapM_map _ jsonOfBlock
             (fun b => Some (JString (if BlockType_eqb (type b) text
                                      then content b else "")))).
  - cbn [bind]. rewrite <- (map_map _ (fun s => Some (JString s))).
    rewrite join_strings. reflexivity.
  - intros b. rewrite hasType_text. cbn [bind].
    destruct (BlockType_eqb (type b) text); [apply content_jsonOfBlock | reflexivity].
Qed.

Lemma searchText_of_document_witness :
  searchText (encode (addImageBlock 1700000000000 1700000000000 [textBlock "initial" "Yield of run 7"]
                        "data:image/png;base64,AAAA"))
  = "Yield of run 7  ".
Proof.
  apply (searchText_of_document
           (addImageBlock 1700000000000 1700000000000 [textBlock "initial" "Yield of run 7"]
              "data:image/png;base64,AAAA")).
  reflexivity.
Defined.

(** X12: when the search falls back to the raw text.  The stored text
    itself is searched when it is not bracketed, when it does not parse,
    and when it parses to an array with a [null] element (reading the type
    of [null] raises, and the error is swallowed). *)
Theorem searchText_falls_back (content : string) :
  (bracketed content = false -> searchText content = content) /\
  (JSON_parse content = None -> searchText content = content) /\
  (forall l, JSON_parse content = Some (JArray l) -> In JNull l ->
             searchText content = content).
Proof.
  unfold searchText. split; [|split].
  - intros H. rewrite H. reflexivity.
  - intros H. rewrite H. destruct (bracketed content); reflexivity.
  - intros l Hp Hin. rewrite Hp. destruct (bracketed content); [|reflexivity].
    cbn [arrayOf bind].
    rewrite (mapM_raises _ l JNull Hin); reflexivity.
Qed.

Lemma searchText_falls_back_witness :
  searchText "<p>Yield of run 7</p>" = "<p>Yield of run 7</p>"
  /\ searchText "[1, 2" = "[1, 2"
  /\ searchText "[null]" = "[null]".
Proof.
  split; [|split].
  - apply (proj1 (searchText_falls_back "<p>Yield of run 7</p>")). reflexivity.
  - apply (proj1 (proj2 (searchText_falls_back "[1, 2"))). reflexivity.
  - apply (proj2 (proj2 (searchText_falls_back "[null]")) [JNull]).
    + reflexivity.
    + left. reflexivity.
Defined.

Lemma includes_empty (s : string) : includes s "" = true.
Proof.
  destruct s; reflexivity.
Qed.

(** X13: an empty search shows every note.  Whatever the case mapping
    does to other texts, if it maps the empty text to itself then
    [filteredNotes] with the empty search text is the whole list. *)
Theorem empty_search_shows_all (toLowerCase : string -> string)
  (notes : list Types.Note) :
  toLowerCase "" = "" ->
  filteredNotes toLowerCase notes "" = notes.
Proof.
  intros H0. unfold filteredNotes. cbv zeta. rewrite H0.
  induction notes as [|n notes IH]; [reflexivity|].
  cbn [filter]. rewrite includes_empty. cbn [orb].
  f_equal. exact IH.
Qed.

Lemma empty_search_shows_all_witness :
  filteredNotes toLowerCaseAscii
    [Types.mkNote "Day 1" "[]" "2024-01-01"; Types.mkNote "Day 2" "plain" "2024-01-02"] ""
  = [Types.mkNote "Day 1" "[]" "2024-01-01"; Types.mkNote "Day 2" "plain" "2024-01-02"].
Proof.
  apply (empty_search_shows_all toLowerCaseAscii). reflexivity.
Defined.

Lemma findM_blocks (k : string) (t : BlockType) (blocks : list Block) :
  (forall b, hasType k (jsonOfBlock b) = Normal (BlockType_eqb (type b) t)) ->
  findM (hasType k) (map jsonOfBlock blocks)
  = Normal (option_map jsonOfBlock (find (fun b => BlockType_eqb (type b) t) blocks)).
Proof.
  intros H. induction blocks as [|b blocks IH]; [reflexivity|].
  cbn [map findM find]. rewrite H. cbn [bind].
  destruct (BlockType_eqb (type b) t); [reflexivity | exact IH].
Qed.

Lemma contentOfFound_block (o : option Block) :
  contentOfFound (option_map jsonOfBlock o)
  = Normal (option_map (fun b => JString (content b)) o).
Proof.
  destruct o as [b|]; [apply content_jsonOfBlock | reflexivity].
Qed.

(** X14: what the note card shows of a note written by the editor.  For a
    document whose stored numbers are finite, the card text is the content
    of the first text block (empty when there is none) and the thumbnail
    is the content of the first image block, absent when the document has
    no image block. *)
Theorem summary_of_document (blocks : list Block) :
  forallb finiteBlock blocks = true ->
  renderNoteSummary (encode blocks)
  = Structured
      (JString (match find (fun b => BlockType_eqb (type b) text) blocks with
                | Some b => content b
                | None => ""
                end))
      (option_map (fun b => JString (content b))
                  (find (fun b => BlockType_eqb (type b) image) blocks)).
Proof.
  intros Hfin. destruct (parse_encode blocks Hfin) as [Hb Hp].
  unfold renderNoteSummary. rewrite Hb, Hp. cbn [arrayOf bind].
  rewrite (findM_blocks "text" text blocks hasType_text). cbn [bind].
  rewrite contentOfFound_block. cbn [bind].
  rewrite (findM_blocks "image" image blocks hasType_image). cbn [bind].
  rewrite contentOfFound_block. cbn [bind]. f_equal.
  destruct (find (fun b => BlockType_eqb (type b) text) blocks) as [b|]; [|reflexivity].
  cbn [option_map orElse truthy].
  destruct (String.eqb_spec (content b) "") as [E|_]; [rewrite E|]; reflexivity.
Qed.

Lemma summary_of_document_witness :
  renderNoteSummary
    (encode (addImageBlock 1700000000000 1700000000000 [textBlock "initial" "Yield of run 7"]
               "data:image/png;base64,AAAA"))
  = Structured (JString "Yield of run 7") (Some (JString "data:image/png;base64,AAAA")).
Proof.
  apply (summary_of_document
           (addImageBlock 1700000000000 1700000000000 [textBlock "initial" "Yield of run 7"]
              "data:image/png;base64,AAAA")).
  reflexivity.
Defined.

Lemma width_of_block (b : Block) :
  ToString (orElse (option_map JNumber (width b)) (JNumber (numberOfZ 100)))
  = Normal (widthText (width b)).
Proof.
  unfold widthText. destruct (width b) as [n|]; [|reflexivity].
  cbn [option_map orElse]. destruct (truthy (Some (JNumber n))); reflexivity.
Qed.

Lemma blockView_jsonOfBlock (b : Block) :
  blockView (jsonOfBlock b) = Normal (typedView b).
Proof.
  unfold blockView, typedView. rewrite hasType_text. cbn [bind].
  destruct (BlockType_eqb (type b) text).
  - rewrite content_jsonOfBlock. reflexivity.
  - rewrite width_jsonOfBlock. cbn [bind]. rewrite width_of_block. cbn [bind].
    rewrite content_jsonOfBlock. reflexivity.
Qed.

Lemma blockFragment_jsonOfBlock (b : Block) :
  blockFragment (jsonOfBlock b) = Normal (typedFragment b).
Proof.
  unfold blockFragment, typedFragment. rewrite hasType_text. cbn [bind].
  destruct (BlockType_eqb (type b) text).
  - rewrite content_jsonOfBlock. reflexivity.
  - rewrite width_jsonOfBlock. cbn [bind]. rewrite width_of_block. cbn [bind].
    rewrite content_jsonOfBlock. reflexivity.
Qed.

Lemma appendBlocks_app (pre : list Block) (rest : list json) :
  appendBlocks (map jsonOfBlock pre ++ rest)
  = (map typedFragment pre ++ fst (appendBlocks rest), snd (appendBlocks rest)).
Proof.
  induction pre as [|b pre IH].
  - simpl. destruct (appendBlocks rest); reflexivity.
  - cbn [map app appendBlocks]. rewrite blockFragment_jsonOfBlock, IH. reflexivity.
Qed.

(** X15: how the read-only view and the export show a note written by the
    editor.  For a document whose stored numbers are finite, both go
    through the blocks in order; a text block is shown as its content, and
    every other block, whatever its type, as an image whose source is the
    block's content, in a box as wide as the stored width, or 100 when no
    width or the width 0 is stored.  A table or a chart block therefore
    comes out as an image with the block's (empty) content as source;
    neither its table nor its chart is shown. *)
Theorem views_of_document (blocks : list Block) :
  forallb finiteBlock blocks = true ->
  renderNoteContent (encode blocks) = BlockViews (map typedView blocks) /\
  noteBody (encode blocks) = map typedFragment blocks /\
  (forall b, In b blocks -> type b <> text -> width b = None ->
     typedView b = Figure "100" (Some (JString (content b))) /\
     typedFragment b = ImageFragment "100" (content b)).
Proof.
  intros Hfin. destruct (parse_encode blocks Hfin) as [Hb Hp].
  split; [|split].
  - unfold renderNoteContent. rewrite Hb, Hp. cbn [arrayOf bind].
    rewrite (mapM_map _ jsonOfBlock typedView); [reflexivity|].
    apply blockView_jsonOfBlock.
  - unfold noteBody. rewrite Hb, Hp.
    pose proof (appendBlocks_app blocks []) as E. rewrite app_nil_r in E.
    rewrite E. simpl. rewrite app_nil_r. reflexivity.
  - intros b _ Ht Hw. unfold typedView, typedFragment. rewrite Hw.
    destruct (type b); [contradiction| | |]; split; reflexivity.
Qed.

Lemma views_of_document_witness :
  renderNoteContent (encode (addTableBlock 1700000000000 1700000000000 [textBlock "initial" "Method"]))
  = BlockViews [Paragraph (Some (JString "Method"));
                Figure "100" (Some (JString ""));
                Paragraph (Some (JString ""))]
  /\ noteBody (encode (addTableBlock 1700000000000 1700000000000 [textBlock "initial" "Method"]))
     = [TextFragment "Method"; ImageFragment "100" ""; TextFragment ""].
Proof.
  destruct (views_of_document (addTableBlock 1700000000000 1700000000000 [textBlock "initial" "Method"])
              eq_refl) as [Hview [Hbody _]].
  split; [exact Hview | exact Hbody].
Defined.

(** X16: a block that raises in the middle of a note.  When the stored
    text parses to an array whose first elements are blocks and whose next
    element is [null], the read-only view gives up the blocks and shows the
    raw text alone, while the export keeps the pieces of the blocks before
    the [null] and appends the raw text after them. *)
Theorem null_block_in_a_note (content : string) (pre : list Block) (post : list json) :
  bracketed content = true ->
  JSON_parse content = Some (JArray (map jsonOfBlock pre ++ JNull :: post)) ->
  renderNoteContent content = PlainText content /\
  noteBody content = map typedFragment pre ++ [TextFragment content].
Proof.
  intros Hb Hp. split.
  - unfold renderNoteContent. rewrite Hb, Hp. cbn [arrayOf bind].
    rewrite (mapM_raises blockView _ JNull); [reflexivity | | reflexivity].
    apply in_or_app. right. left. reflexivity.
  - unfold noteBody. rewrite Hb, Hp. rewrite appendBlocks_app. simpl.
    rewrite app_nil_r. reflexivity.
Qed.

Lemma null_block_in_a_note_witness :
  let content := String "[" (stringify (jsonOfBlock (textBlock "1" "Method")) ++ ",null]") in
  renderNoteContent content = PlainText content /\
  noteBody content = [TextFragment "Method"; TextFragment content].
Proof.
  intros content.
  apply (null_block_in_a_note content [textBlock "1" "Method"] []); reflexivity.
Defined.

(** ** The exported document *)

Lemma addImage_last (img : Image) (doc : Pdf) (page : list Image) :
  addImage img (doc ++ [page]) = doc ++ [page ++ [img]].
Proof.
  induction doc as [|p doc IH]; [reflexivity|].
  cbn [app addImage]. rewrite IH.
  destruct doc; reflexivity.
Qed.

Section Pages.

Variables (env : Env) (canvas : Canvas.t) (P : double).

Lemma draw_slice (doc : Pdf) (s : Slice) :
  (if ctx2d env
   then addImage (sliceImage env canvas s) (doc ++ [[]])
   else doc ++ [[]])
  = doc ++ [slicePage env canvas s].
Proof.
  unfold slicePage. destruct (ctx2d env); [apply addImage_last | reflexivity].
Qed.

(** One pass keeps the document told from the slices: the pages before the
    note, then one page per slice. *)
Lemma sliceBody_pages (base : Pdf) (st : SliceState) :
  pageNum st = length (slices st) ->
  pdf st = base ++ pagesOf env canvas (slices st) ->
  pageNum (sliceBody env canvas (imgWidthOf env) P st)
  = length (slices (sliceBody env canvas (imgWidthOf env) P st)) /\
  pdf (sliceBody env canvas (imgWidthOf env) P st)
  = base ++ pagesOf env canvas (slices (sliceBody env canvas (imgWidthOf env) P st)).
Proof.
  intros Hn Hpdf. unfold sliceBody. cbn [pageNum slices pdf].
  split; [rewrite length_app, Hn; simpl; lia|].
  rewrite Hn, Hpdf.
  set (s := mkSlice (sourceY st) (Math_min (heightLeftPx st) P)).
  destruct (slices st) as [|s0 sl].
  - cbn [length Nat.ltb Nat.leb pagesOf app map].
    apply (draw_slice base s).
  - cbn [length Nat.ltb Nat.leb]. unfold addPage.
    etransitivity; [apply (draw_slice (base ++ pagesOf env canvas (s0 :: sl)) s)|].
    rewrite <- app_assoc. f_equal.
    change ((s0 :: sl) ++ [s]) with (s0 :: (sl ++ [s])).
    cbn [pagesOf].
    change (s0 :: (sl ++ [s])) with ((s0 :: sl) ++ [s]).
    rewrite map_app. reflexivity.
Qed.

Lemma sliceLoop_pages (base : Pdf) (fuel : nat) :
  forall st st',
    pageNum st = length (slices st) ->
    pdf st = base ++ pagesOf env canvas (slices st) ->
    sliceLoop fuel env canvas (imgWidthOf env) P st = Some st' ->
    pdf st' = base ++ pagesOf env canvas (slices st').
Proof.
  induction fuel as [|fuel IH]; intros st st' Hn Hpdf Hrun.
  - simpl in Hrun. destruct (isPositive (heightLeftPx st)); [discriminate|].
    inversion Hrun; subst st'. exact Hpdf.
  - destruct (isPositive (heightLeftPx st)) eqn:Hgt.
    + rewrite (sliceLoop_pass _ _ _ _ fuel st Hgt) in Hrun.
      destruct (sliceBody_pages base st Hn Hpdf) as [Hn1 Hpdf1].
      destruct (Nat.ltb 20 (pageNum (sliceBody env canvas (imgWidthOf env) P st))).
      * inversion Hrun; subst st'. exact Hpdf1.
      * apply (IH _ _ Hn1 Hpdf1 Hrun).
    + rewrite (sliceLoop_exit _ _ _ _ _ st Hgt) in Hrun.
      inversion Hrun; subst st'. exact Hpdf.
Qed.

End Pages.

(** The slices do not depend on the document the loop draws on. *)
Lemma sliceLoop_slices (env : Env) (canvas : Canvas.t) (imgWidth P : double) (fuel : nat) :
  forall st1 st2 st1',
    heightLeftPx st1 = heightLeftPx st2 -> sourceY st1 = sourceY st2 ->
    pageNum st1 = pageNum st2 -> slices st1 = slices st2 ->
    sliceLoop fuel env canvas imgWidth P st1 = Some st1' ->
    exists st2', sliceLoop fuel env canvas imgWidth P st2 = Some st2'
                 /\ slices st1' = slices st2'.
Proof.
  induction fuel as [|fuel IH]; intros st1 st2 st1' Hh Hy Hn Hs Hrun.
  - simpl in *. rewrite <- Hh. destruct (isPositive (heightLeftPx st1)); [discriminate|].
    inversion Hrun; subst st1'. exists st2. split; [reflexivity | exact Hs].
  - destruct (isPositive (heightLeftPx st1)) eqn:Hgt.
    + assert (Hgt2 : isPositive (heightLeftPx st2) = true) by (rewrite <- Hh; exact Hgt).
      rewrite (sliceLoop_pass _ _ _ _ fuel st1 Hgt) in Hrun.
      rewrite (sliceLoop_pass _ _ _ _ fuel st2 Hgt2).
      assert (Hn' : pageNum (sliceBody env canvas imgWidth P st1)
                    = pageNum (sliceBody env canvas imgWidth P st2))
        by (unfold sliceBody; cbn [pageNum]; rewrite Hn; reflexivity).
      assert (Hs' : slices (sliceBody env canvas imgWidth P st1)
                    = slices (sliceBody env canvas imgWidth P st2))
        by (unfold sliceBody; cbn [slices]; rewrite Hs, Hy, Hh; reflexivity).
      rewrite <- Hn'.
      destruct (Nat.ltb 20 (pageNum (sliceBody env canvas imgWidth P st1))).
      * inversion Hrun; subst st1'. eexists. split; [reflexivity | exact Hs'].
      * apply (IH (sliceBody env canvas imgWidth P st1)); try assumption;
          unfold sliceBody; cbn [heightLeftPx sourceY]; rewrite ?Hh, ?Hy; reflexivity.
    + assert (Hgt2 : isPositive (heightLeftPx st2) = false) by (rewrite <- Hh; exact Hgt).
      rewrite (sliceLoop_exit _ _ _ _ _ st1 Hgt) in Hrun.
      rewrite (sliceLoop_exit _ _ _ _ _ st2 Hgt2).
      inversion Hrun; subst st1'. exists st2. split; [reflexivity | exact Hs].
Qed.

Lemma paginate_slices (fuel : nat) (env : Env) (canvas : Canvas.t) (pdf0 : Pdf) :
  21 <= fuel ->
  exists st, paginate fuel env canvas pdf0 = Some st
             /\ slices st = slicesOf fuel env canvas.
Proof.
  intros Hfuel.
  destruct (sliceLoop_run env canvas (imgWidthOf env) (pxPerPageOf env canvas) fuel
              (sliceStart pdf0 canvas)) as [st [new [Hrun _]]]; [simpl; lia | simpl; lia|].
  destruct (sliceLoop_slices env canvas (imgWidthOf env) (pxPerPageOf env canvas) fuel
              (sliceStart pdf0 canvas) (sliceStart newPdf canvas) st)
    as [st2 [Hrun2 Hs]]; try reflexivity; [exact Hrun|].
  exists st. split; [exact Hrun|].
  unfold slicesOf, paginate. rewrite Hrun2. exact Hs.
Qed.

(** A note takes the page opened for it and one more page for every slice
    after the first. *)
Lemma paginate_pages (fuel : nat) (env : Env) (canvas : Canvas.t) (pdf0 : Pdf) :
  21 <= fuel ->
  exists st, paginate fuel env canvas (addPage pdf0) = Some st
             /\ pdf st = pdf0 ++ notePages fuel env canvas.
Proof.
  intros Hfuel.
  destruct (paginate_slices fuel env canvas (addPage pdf0) Hfuel) as [st [Hrun Hs]].
  exists st. split; [exact Hrun|].
  unfold notePages. rewrite <- Hs.
  apply (sliceLoop_pages env canvas (pxPerPageOf env canvas) pdf0 fuel
           (sliceStart (addPage pdf0) canvas) st); [reflexivity | reflexivity | exact Hrun].
Qed.

Lemma notesLoop_pages (fuel : nat) (env : Env) (canvasOf : Types.Note -> Canvas.t)
  (notes : list Types.Note) :
  21 <= fuel ->
  (forall note, In note notes -> renderNote env note = Rendered (canvasOf note)) ->
  forall pdf0,
    notesLoop fuel env notes pdf0
    = Some (inl (pdf0 ++ concat (map (fun note => notePages fuel env (canvasOf note)) notes))).
Proof.
  intros Hfuel. induction notes as [|note rest IH]; intros Hrender pdf0.
  - simpl. rewrite app_nil_r. reflexivity.
  - cbn [notesLoop]. rewrite (Hrender note) by (left; reflexivity).
    destruct (paginate_pages fuel env (canvasOf note) pdf0 Hfuel) as [st [Hrun Hpdf]].
    rewrite Hrun, IH by (intros n Hn; apply Hrender; right; exact Hn).
    rewrite Hpdf. cbn [map concat]. rewrite app_assoc. reflexivity.
Qed.

(** X17: the pages of the saved document.  When the cover and every note
    render, the export saves, under the name of the project followed by
    [_Research_Report.pdf], a document that is the cover page followed by
    the pages of the notes in their order; a note takes one page per slice,
    each page holding the image of its slice (nothing, when the slice
    canvas gives no drawing context), or one empty page when its canvas
    gives no slice. *)
Theorem export_document (fuel : nat) (env : Env) (v : View)
  (project : Types.Project) (user : option Types.User) (notes : list Types.Note)
  (cover : Canvas.t) (canvasOf : Types.Note -> Canvas.t) :
  21 <= fuel -> notes <> [] ->
  renderCover env project user = Rendered cover ->
  (forall note, In note notes -> renderNote env note = Rendered (canvasOf note)) ->
  exportToPDF fuel env v project user notes
  = Some (mkExported (mkView (error v) false)
            (Some ((Types.name project ++ "_Research_Report.pdf")%string,
                   coverPage env cover
                   :: concat (map (fun note => notePages fuel env (canvasOf note)) notes)))).
Proof.
  intros Hfuel Hne Hcover Hrender. unfold exportToPDF.
  destruct notes as [|note rest]; [contradiction|].
  cbn [length Nat.eqb]. rewrite Hcover.
  rewrite (notesLoop_pages fuel env canvasOf (note :: rest) Hfuel Hrender).
  reflexivity.
Qed.

Lemma export_document_witness :
  let env := mkEnv (doubleOfZ 210) (doubleOfZ 297) (fun _ _ => Rendered (Canvas.make 380 1080))
                   (fun _ => Rendered (Canvas.make 380 1884)) true in
  let note := Types.mkNote "Day 1" "notes" "2024-01-01" in
  exists doc,
    exportToPDF 21 env (mkView None true) (Types.mkProject "Amy" "") None [note; note]
    = Some (mkExported (mkView None false) (Some ("Amy_Research_Report.pdf"%string, doc)))
    /\ length doc = 9.
Proof.
  intros env note. eexists. split.
  - apply (export_document 21 env (mkView None true) (Types.mkProject "Amy" "") None
             [note; note] (Canvas.make 380 1080) (fun _ => Canvas.make 380 1884)).
    + lia.
    + discriminate.
    + reflexivity.
    + intros n _. reflexivity.
  - vm_compute. reflexivity.
Defined.




Section Grid.

Variables (env : Env) (canvas : Canvas.t) (imgWidth P H : double).

Lemma nth_error_snoc {A : Type} (l : list A) (x : A) (k : nat) (y : A) :
  nth_error (l ++ [x]) k = Some y ->
  (nth_error l k = Some y /\ k < length l) \/ (k = length l /\ y = x).
Proof.
  intros Hk. destruct (Nat.lt_ge_cases k (length l)) as [Hlt|Hge].
  - left. rewrite nth_error_app1 in Hk by exact Hlt. split; assumption.
  - right. rewrite nth_error_app2 in Hk by exact Hge.
    destruct (k - length l) as [|m] eqn:E.
    + simpl in Hk. inversion Hk. split; [lia | reflexivity].
    + simpl in Hk. destruct m; discriminate.
Qed.

(** The loop cuts on a grid: as long as something is left, all slices so
    far are a page high, the next slice starts at the rounded sum of as
    many page heights and what is left is the rounded difference. *)
Lemma sliceLoop_grid (fuel : nat) :
  forall st st',
    (isPositive (heightLeftPx st) = true ->
     sourceY st = gridY P (pageNum st) /\
     heightLeftPx st = leftAfter P H (pageNum st) /\
     forall s, In s (slices st) -> sliceHeight s = P) ->
    pageNum st = length (slices st) ->
    (forall k s, nth_error (slices st) k = Some s ->
       sliceY s = gridY P k /\
       sliceHeight s = Math_min (leftAfter P H k) P /\
       (S k < length (slices st) -> sliceHeight s = P)) ->
    sliceLoop fuel env canvas imgWidth P st = Some st' ->
    forall k s, nth_error (slices st') k = Some s ->
      sliceY s = gridY P k /\
      sliceHeight s = Math_min (leftAfter P H k) P /\
      (S k < length (slices st') -> sliceHeight s = P).
Proof.
  induction fuel as [|fuel IH]; intros st st' Hinv Hn Hall Hrun.
  - simpl in Hrun. destruct (isPositive (heightLeftPx st)); [discriminate|].
    inversion Hrun; subst st'. exact Hall.
  - destruct (isPositive (heightLeftPx st)) eqn:Hgt.
    + rewrite (sliceLoop_pass _ _ _ _ fuel st Hgt) in Hrun.
      set (st1 := sliceBody env canvas imgWidth P st) in *.
      set (cur := Math_min (heightLeftPx st) P).
      assert (Hs1 : slices st1 = slices st ++ [mkSlice (sourceY st) cur]) by reflexivity.
      assert (Hp1 : pageNum st1 = S (pageNum st)) by reflexivity.
      assert (Hy1 : sourceY st1 = dadd (sourceY st) cur) by reflexivity.
      assert (Hh1 : heightLeftPx st1 = dsub (heightLeftPx st) cur) by reflexivity.
      destruct (Hinv eq_refl) as [Hy [Hleft Hfull]].
      assert (Hcur : isPositive (heightLeftPx st1) = true -> cur = P).
      { rewrite Hh1. apply full_slice. }
      assert (Hall1 : forall k s, nth_error (slices st1) k = Some s ->
                 sliceY s = gridY P k /\
                 sliceHeight s = Math_min (leftAfter P H k) P /\
                 (S k < length (slices st1) -> sliceHeight s = P)).
      { intros k s Hk. rewrite Hs1 in Hk |- *.
        apply nth_error_snoc in Hk. destruct Hk as [[Hk Hlt]|[Ek Es]].
        - destruct (Hall k s Hk) as [A [B _]]. split; [exact A|]. split; [exact B|].
          intros _. apply Hfull. apply (nth_error_In _ _ Hk).
        - subst s. cbn [sliceY sliceHeight]. rewrite Ek, <- Hn.
          split; [exact Hy|]. split.
          + unfold cur. rewrite Hleft. reflexivity.
          + rewrite length_app. simpl. intros Hlt. lia. }
      assert (Hinv1 : isPositive (heightLeftPx st1) = true ->
                sourceY st1 = gridY P (pageNum st1) /\
                heightLeftPx st1 = leftAfter P H (pageNum st1) /\
                forall s, In s (slices st1) -> sliceHeight s = P).
      { intros Hmore. specialize (Hcur Hmore).
        rewrite Hy1, Hh1, Hp1, Hcur, Hy, Hleft.
        split; [reflexivity|]. split; [reflexivity|].
        intros s Hin. rewrite Hs1 in Hin. apply in_app_or in Hin.
        destruct Hin as [Hin|[E|[]]]; [apply Hfull; exact Hin|].
        subst s. exact Hcur. }
      assert (Hn1 : pageNum st1 = length (slices st1))
        by (rewrite Hp1, Hs1, length_app, Hn; simpl; lia).
      destruct (Nat.ltb 20 (pageNum st1)).
      * inversion Hrun; subst st'. exact Hall1.
      * apply (IH st1 st' Hinv1 Hn1 Hall1 Hrun).
    + rewrite (sliceLoop_exit _ _ _ _ _ st Hgt) in Hrun.
      inversion Hrun; subst st'. exact Hall.
Qed.

End Grid.

(** X19: the slices lie on a grid, in double arithmetic.  Whatever the page
    height [pxPerPage] is, the slice number [k] (counting from 0) of a
    canvas starts at [pxPerPage] added [k] times to 0, each sum rounded, and
    is [Math.min] of what is left, the canvas height with [pxPerPage]
    subtracted [k] times, each difference rounded, and [pxPerPage]; every
    slice but the last is exactly [pxPerPage] high. *)
Theorem slices_on_a_grid (fuel : nat) (env : Env) (canvas : Canvas.t) (k : nat) (s : Slice) :
  nth_error (slicesOf fuel env canvas) k = Some s ->
  sliceY s = gridY (pxPerPageOf env canvas) k /\
  sliceHeight s
  = Math_min (leftAfter (pxPerPageOf env canvas) (Canvas.heightD canvas) k)
             (pxPerPageOf env canvas) /\
  (S k < length (slicesOf fuel env canvas) -> sliceHeight s = pxPerPageOf env canvas).
Proof.
  unfold slicesOf, paginate.
  destruct (sliceLoop fuel env canvas (imgWidthOf env) (pxPerPageOf env canvas)
              (sliceStart newPdf canvas)) as [st|] eqn:Hrun.
  - apply (sliceLoop_grid env canvas (imgWidthOf env) (pxPerPageOf env canvas)
             (Canvas.heightD canvas) fuel (sliceStart newPdf canvas) st);
      cbn [sliceStart heightLeftPx sourceY pageNum slices]; try exact Hrun.
    + intros _. split; [reflexivity|]. split; [reflexivity|]. intros s' [].
    + reflexivity.
    + intros k' s' Hk'. destruct k'; discriminate.
  - destruct k; discriminate.
Qed.

Lemma slices_on_a_grid_witness :
  let canvas := Canvas.make 10 277 in
  let env := mkEnv (doubleOfZ 210) (doubleOfZ 297)
                   (fun _ _ => Rendered (Canvas.make 380 1080))
                   (fun _ => Rendered canvas) true in
  sliceHeight (mkSlice (S754_finite false 8207217741984391 (-48))
                       (S754_finite false 8207217741984391 (-49)))
  = pxPerPageOf env canvas.
Proof.
  intros canvas env.
  refine (proj2 (proj2 (slices_on_a_grid 21 env canvas 2
                          (mkSlice (S754_finite false 8207217741984391 (-48))
                                   (S754_finite false 8207217741984391 (-49))) _)) _).
  - vm_compute. reflexivity.
  - vm_compute. lia.
Defined.



Lemma notesLoop_fails (fuel : nat) (env : Env) (pre post : list Types.Note)
  (bad : Types.Note) (m : string) :
  21 <= fuel ->
  (forall note, In note pre -> exists canvas, renderNote env note = Rendered canvas) ->
  renderNote env bad = RenderError m ->
  forall pdf0, notesLoop fuel env (pre ++ bad :: post) pdf0 = Some (inr m).
Proof.
  intros Hfuel Hpre Hbad. induction pre as [|note pre IH]; intros pdf0.
  - simpl. rewrite Hbad. reflexivity.
  - cbn [app notesLoop].
    destruct (Hpre note (or_introl eq_refl)) as [canvas Hc]. rewrite Hc.
    destruct (paginate_slices fuel env canvas (addPage pdf0) Hfuel) as [st [Hrun _]].
    rewrite Hrun. apply IH. intros n Hn. apply Hpre. right. exact Hn.
Qed.

(** X21: one failure discards the whole export.  When the cover fails to
    render, or the cover and the notes before some note render and that
    note fails, the export saves nothing, whatever the notes after it are:
    it sets the error to 'Failed to export PDF: ' followed by the message
    of the failure ('Unknown error' when the message is empty) and
    '. Check console for details.', and clears the exporting flag. *)
Theorem export_fails_as_a_whole (fuel : nat) (env : Env) (v : View)
  (project : Types.Project) (user : option Types.User) (m : string) :
  21 <= fuel ->
  (forall notes, notes <> [] ->
     renderCover env project user = RenderError m ->
     exportToPDF fuel env v project user notes = Some (exportFailed v m)) /\
  (forall cover pre bad post,
     renderCover env project user = Rendered cover ->
     (forall note, In note pre -> exists canvas, renderNote env note = Rendered canvas) ->
     renderNote env bad = RenderError m ->
     exportToPDF fuel env v project user (pre ++ bad :: post)
     = Some (exportFailed v m)) /\
  saved (exportFailed v m) = None /\
  isExporting (view (exportFailed v m)) = false /\
  error (view (exportFailed v m))
  = Some ("Failed to export PDF: "
          ++ (if String.eqb m "" then "Unknown error" else m)
          ++ ". Check console for details.")%string.
Proof.
  intros Hfuel. split; [|split].
  - intros notes Hne Hcover. unfold exportToPDF.
    destruct notes as [|n rest]; [contradiction|].
    cbn [length Nat.eqb]. rewrite Hcover. reflexivity.
  - intros cover pre bad post Hcover Hpre Hbad. unfold exportToPDF.
    replace (Nat.eqb (length (pre ++ bad :: post)) 0) with false
      by (symmetry; apply Nat.eqb_neq; rewrite length_app; simpl; lia).
    rewrite Hcover, (notesLoop_fails fuel env pre post bad m Hfuel Hpre Hbad).
    reflexivity.
  - repeat split.
Qed.

Lemma export_fails_as_a_whole_witness :
  let good := Types.mkNote "Day 1" "notes" "2024-01-01" in
  let bad := Types.mkNote "Day 2" "" "2024-01-02" in
  let env := mkEnv (doubleOfZ 210) (doubleOfZ 297) (fun _ _ => Rendered (Canvas.make 380 1080))
                   (fun n => if String.eqb (Types.title n) "Day 2"
                             then RenderError "Unable to find element in cloned iframe"
                             else Rendered (Canvas.make 380 1884)) true in
  exportToPDF 21 env (mkView None true) (Types.mkProject "Amy" "") None [good; bad; good]
  = Some (mkExported
            (mkView (Some "Failed to export PDF: Unable to find element in cloned iframe. Check console for details.")
                    false)
            None).
Proof.
  intros good bad env.
  apply (proj1 (proj2 (export_fails_as_a_whole 21 env (mkView None true)
                         (Types.mkProject "Amy" "") None
                         "Unable to find element in cloned iframe" (Nat.le_refl 21)))
           (Canvas.make 380 1080) [good] bad [good]).
  - reflexivity.
  - intros note [E|[]]. subst note. exists (Canvas.make 380 1884). reflexivity.
  - reflexivity.
Defined.

(** ** Header edits *)

Lemma traverse_Some {A : Type} (l : list A) :
  traverse (fun x : option A => x) (map Some l) = Some l.
Proof.
  induction l as [|x l IH]; simpl; [|rewrite IH]; reflexivity.
Qed.

Lemma map_Some_mapi_from {A B : Type} (f : A -> nat -> B) (k : nat) (l : list A) :
  mapi_from k (fun x i => Some (f x i)) l = map Some (mapi_from k f l).
Proof.
  revert k. induction l as [|x l IH]; intros k; simpl; [|rewrite IH]; reflexivity.
Qed.

(** A write inside the list replaces one entry and leaves no hole. *)
Lemma arrayWrite_inside (l : list string) (i : nat) (v : string) :
  i < length l ->
  traverse (fun x => x) (arrayWrite l i v)
  = Some (mapi (fun x k => if Nat.eqb k i then v else x) l).
Proof.
  intros Hlt. unfold arrayWrite.
  replace (Nat.ltb i (length l)) with true by (symmetry; apply Nat.ltb_lt; exact Hlt).
  unfold mapi. rewrite map_Some_mapi_from. apply traverse_Some.
Qed.

Lemma traverse_hole {A : Type} (l : list A) (rest : list (option A)) :
  traverse (fun x : option A => x) (map Some l ++ None :: rest) = None.
Proof.
  induction l as [|x l IH]; simpl; [reflexivity|].
  rewrite IH. reflexivity.
Qed.

(** A write more than one place past the end leaves a hole. *)
Lemma arrayWrite_outside (l : list string) (i : nat) (v : string) :
  length l < i -> traverse (fun x => x) (arrayWrite l i v) = None.
Proof.
  intros Hlt. unfold arrayWrite.
  replace (Nat.ltb i (length l)) with false by (symmetry; apply Nat.ltb_ge; lia).
  destruct (i - length l) as [|m] eqn:E; [lia|].
  cbn [repeat app]. apply traverse_hole.
Qed.

Lemma nth_error_defaults {A : Type} (f : nat -> string) (l : list A) (j : nat) :
  nth_error (mapi (fun _ k => f k) l) j
  = if Nat.ltb j (length l) then Some (f j) else None.
Proof.
  rewrite nth_error_mapi.
  destruct (Nat.ltb_spec j (length l)) as [Hlt|Hge].
  - destruct (nth_error l j) eqn:E; [reflexivity|].
    apply nth_error_None in E. lia.
  - apply nth_error_None in Hge. rewrite Hge. reflexivity.
Qed.

Lemma fromCharCode_nonempty (n : nat) : fromCharCode n <> "".
Proof.
  unfold fromCharCode, utf8.
  repeat match goal with |- context [if ?c then _ else _] => destruct c end;
    discriminate.
Qed.

Lemma toString_nonempty (z : Z) : toString z <> "".
Proof.
  intros E. pose proof (toString_read z) as H. rewrite E in H. discriminate.
Qed.

(** What a header cell shows after entry [i] of the list [base] was
    replaced by [v]. *)
Lemma shownHeader_replaced (base : list string) (dflt : nat -> string) (i j : nat)
  (v : string) :
  i < length base ->
  shownHeader (Some (mapi (fun x k => if Nat.eqb k i then v else x) base)) j (dflt j)
  = if Nat.eqb j i
    then (if String.eqb v "" then dflt j else v)
    else shownHeader (Some base) j (dflt j).
Proof.
  intros Hlt. unfold shownHeader. rewrite nth_error_mapi.
  destruct (Nat.eqb_spec j i) as [E|N].
  - subst j. destruct (nth_error base i) eqn:Ei; [reflexivity|].
    apply nth_error_None in Ei. lia.
  - destruct (nth_error base j); reflexivity.
Qed.

Lemma shownHeader_defaults {A : Type} (dflt : nat -> string) (l : list A) (j : nat) :
  (forall k, dflt k <> "") ->
  shownHeader (Some (mapi (fun _ k => dflt k) l)) j (dflt j) = dflt j.
Proof.
  intros Hne. unfold shownHeader. rewrite nth_error_defaults.
  destruct (Nat.ltb j (length l)); [|reflexivity].
  destruct (String.eqb_spec (dflt j) "") as [E|_]; [|reflexivity].
  exfalso. apply (Hne j E).
Qed.

Lemma length_mapi {A B : Type} (f : A -> nat -> B) (l : list A) :
  length (mapi f l) = length l.
Proof.
  apply length_mapi_from.
Qed.

(** X22: an edit of one header stores a full header list.  In a
    rectangular table, editing the header of an existing column hands
    [onChange] a table without holes that is again rectangular, with the
    same rows and row headers; its stored column headers are the former
    ones, or the letters A, B, C, ... when none were stored, with the
    edited entry replaced.  The edited cell then shows the new text, or its
    letter again when the new text is empty, and every other header cell
    shows what it showed before.  The same holds for the header of an
    existing row, with the row numbers 1, 2, 3, ... as defaults.  An edit
    more than one place past the end of the stored list leaves a hole, and
    the result is no table. *)
Theorem header_edit_stores_labels (d : TableData) (i : nat) (v : string) :
  rectangular d = true ->
  (i < colCount d ->
   exists w d' h',
     updateColHeader d i v = Emit w /\ tableOfWritten w = Some d' /\
     rows d' = rows d /\ rowHeaders d' = rowHeaders d /\
     colHeaders d' = Some h' /\ length h' = colCount d /\
     nth_error h' i = Some v /\
     rectangular d' = true /\
     shownColHeader d' i = (if String.eqb v "" then fromCharCode (65 + i) else v) /\
     (forall j, j <> i -> shownColHeader d' j = shownColHeader d j)) /\
  (i < length (rows d) ->
   exists w d' h',
     updateRowHeader d i v = Emit w /\ tableOfWritten w = Some d' /\
     rows d' = rows d /\ colHeaders d' = colHeaders d /\
     rowHeaders d' = Some h' /\ length h' = length (rows d) /\
     nth_error h' i = Some v /\
     rectangular d' = true /\
     shownRowHeader d' i = (if String.eqb v "" then toString (Z.of_nat (i + 1)) else v) /\
     (forall j, j <> i -> shownRowHeader d' j = shownRowHeader d j)) /\
  (forall h, colHeaders d = Some h -> length h < i ->
     exists w, updateColHeader d i v = Emit w /\ tableOfWritten w = None).
Proof.
  intros HR. pose proof HR as HR'. apply rectangular_Rect in HR'. destruct HR' as [n HRect].
  pose proof (Rect_colCount n d HRect) as Hcc.
  destruct HRect as [Hn [Hne [Hall [Hch Hrh]]]].
  destruct d as [rs ch rh]. cbn [rows colHeaders rowHeaders] in *.
  assert (Hdense : forall o : option (list string),
             dense (option_map (map Some) o) = Some o).
  { intros [l|]; simpl; [rewrite traverse_Some|]; reflexivity. }
  split; [|split].
  - (* a column header *)
    intros Hi. rewrite Hcc in *.
    destruct rs as [|r0 rest]; [contradiction|].
    assert (E0 : length r0 = n) by (apply Hall; left; reflexivity).
    set (base := match ch with
                 | Some h => h
                 | None => mapi (fun (_ : string) k => fromCharCode (65 + k)) r0
                 end).
    assert (Hbase : length base = n).
    { unfold base. destruct ch as [h|]; [apply Nat.eqb_eq; exact Hch|].
      rewrite length_mapi. exact E0. }
    assert (Hshown : forall j, shownHeader (Some base) j (fromCharCode (65 + j))
                               = shownHeader ch j (fromCharCode (65 + j))).
    { intros j. unfold base. destruct ch as [h|]; [reflexivity|].
      apply (shownHeader_defaults (fun k => fromCharCode (65 + k))).
      intros k. apply fromCharCode_nonempty. }
    set (h' := mapi (fun x k => if Nat.eqb k i then v else x) base).
    assert (Hrun : updateColHeader (mkTable (r0 :: rest) ch rh) i v
                   = Emit (mkWritten (r0 :: rest) (Some (arrayWrite base i v))
                             (option_map (map Some) rh))).
    { unfold updateColHeader, base. cbn [rows colHeaders rowHeaders].
      destruct ch; reflexivity. }
    exists (mkWritten (r0 :: rest) (Some (arrayWrite base i v)) (option_map (map Some) rh)),
           (mkTable (r0 :: rest) (Some h') rh), h'.
    split; [exact Hrun|].
    split.
    { unfold tableOfWritten. cbn [writtenColHeaders writtenRowHeaders writtenRows dense].
      rewrite (arrayWrite_inside base i v) by (rewrite Hbase; exact Hi).
      rewrite Hdense. reflexivity. }
    cbn [rows colHeaders rowHeaders].
    split; [reflexivity|]. split; [reflexivity|]. split; [reflexivity|].
    split; [unfold h'; rewrite length_mapi; exact Hbase|].
    split.
    { unfold h'. rewrite nth_error_mapi.
      destruct (nth_error base i) eqn:Ei.
      - rewrite Nat.eqb_refl. reflexivity.
      - apply nth_error_None in Ei. lia. }
    split.
    { apply rectangular_Rect. exists n. unfold Rect. cbn [rows colHeaders rowHeaders].
      split; [exact Hn|]. split; [discriminate|]. split; [exact Hall|].
      split; [|exact Hrh]. simpl. apply Nat.eqb_eq.
      unfold h'. rewrite length_mapi. exact Hbase. }
    unfold shownColHeader. cbn [colHeaders]. split.
    + unfold h'. rewrite (shownHeader_replaced base (fun k => fromCharCode (65 + k)))
        by (rewrite Hbase; exact Hi).
      rewrite Nat.eqb_refl. reflexivity.
    + intros j Hj. unfold h'.
      rewrite (shownHeader_replaced base (fun k => fromCharCode (65 + k)))
        by (rewrite Hbase; exact Hi).
      destruct (Nat.eqb_spec j i); [contradiction|]. apply Hshown.
  - (* a row header *)
    intros Hi.
    set (base := match rh with
                 | Some h => h
                 | None => mapi (fun (_ : list string) k => toString (Z.of_nat (k + 1))) rs
                 end).
    assert (Hbase : length base = length rs).
    { unfold base. destruct rh as [h|]; [apply Nat.eqb_eq; exact Hrh|].
      apply length_mapi. }
    assert (Hshown : forall j, shownHeader (Some base) j (toString (Z.of_nat (j + 1)))
                               = shownHeader rh j (toString (Z.of_nat (j + 1)))).
    { intros j. unfold base. destruct rh as [h|]; [reflexivity|].
      apply (shownHeader_defaults (fun k => toString (Z.of_nat (k + 1)))).
      intros k. apply toString_nonempty. }
    set (h' := mapi (fun x k => if Nat.eqb k i then v else x) base).
    exists (mkWritten rs (option_map (map Some) ch) (Some (arrayWrite base i v))),
           (mkTable rs ch (Some h')), h'.
    split; [reflexivity|].
    split.
    { unfold tableOfWritten. cbn [writtenColHeaders writtenRowHeaders writtenRows dense].
      rewrite (arrayWrite_inside base i v) by (rewrite Hbase; exact Hi).
      rewrite Hdense. reflexivity. }
    cbn [rows colHeaders rowHeaders].
    split; [reflexivity|]. split; [reflexivity|]. split; [reflexivity|].
    split; [unfold h'; rewrite length_mapi; exact Hbase|].
    split.
    { unfold h'. rewrite nth_error_mapi.
      destruct (nth_error base i) eqn:Ei.
      - rewrite Nat.eqb_refl. reflexivity.
      - apply nth_error_None in Ei. lia. }
    split.
    { apply rectangular_Rect. exists n. unfold Rect. cbn [rows colHeaders rowHeaders].
      split; [exact Hn|]. split; [exact Hne|]. split; [exact Hall|].
      split; [exact Hch|]. simpl. apply Nat.eqb_eq.
      unfold h'. rewrite length_mapi. exact Hbase. }
    unfold shownRowHeader. cbn [rowHeaders]. split.
    + unfold h'. rewrite (shownHeader_replaced base (fun k => toString (Z.of_nat (k + 1))))
        by (rewrite Hbase; exact Hi).
      rewrite Nat.eqb_refl. reflexivity.
    + intros j Hj. unfold h'.
      rewrite (shownHeader_replaced base (fun k => toString (Z.of_nat (k + 1))))
        by (rewrite Hbase; exact Hi).
      destruct (Nat.eqb_spec j i); [contradiction|]. apply Hshown.
  - (* a write past the end *)
    intros h Eh Hout. subst ch. eexists. split; [reflexivity|].
    unfold tableOfWritten. cbn [writtenColHeaders writtenRowHeaders writtenRows dense].
    rewrite (arrayWrite_outside h i v Hout). reflexivity.
Qed.

Lemma header_edit_stores_labels_witness :
  let plain := mkTable [[""; ""; ""]; [""; ""; ""]] None None in
  exists w d',
    updateColHeader plain 1 "mass" = Emit w /\ tableOfWritten w = Some d' /\
    colHeaders d' = Some ["A"; "mass"; "C"] /\
    rowHeaders d' = None.
Proof.
  intros plain.
  destruct (proj1 (header_edit_stores_labels plain 1 "mass" eq_refl))
    as [w [d' [h' [Hrun [Hd [_ [Hrh [Hch [_ [_ _]]]]]]]]]].
  - unfold plain, colCount. simpl. lia.
  - exists w, d'. split; [exact Hrun|]. split; [exact Hd|].
    split; [|exact Hrh].
    unfold plain in Hrun. vm_compute in Hrun. inversion Hrun; subst w.
    vm_compute in Hd. inversion Hd; subst d'. reflexivity.
Defined.

(** ** Saving a note and previewing it *)

Lemma encode_nonempty (blocks : list Block) : encode blocks <> "".
Proof.
  unfold encode, JSON_stringify, jsonOfBlocks.
  change (stringify (JArray (map jsonOfBlock blocks)))
    with (String "[" (joinWith "," (map stringify (map jsonOfBlock blocks)) ++ "]")).
  discriminate.
Qed.

(** X23: a note whose editor was never touched is not saved.  In the form
    opened by 'New Note' the content stays empty until the editor reports
    a document, so with a title alone the save handler returns without
    sending anything; once the editor has reported a document, whatever it
    holds, a non-empty title makes the handler send one insert that carries
    the title and the encoded document, dated with the date of the form, or
    with today's date when the date field was cleared. *)
Theorem untouched_note_is_not_saved (today opened : string) (t : string) :
  handleSaveNote today (Some (onTitle (Some (newNote opened)) t)) = None /\
  (t <> "" ->
   forall blocks,
     handleSaveNote today
       (Some (onContent (Some (onTitle (Some (newNote opened)) t)) (encode blocks)))
     = Some (InsertNote t (encode blocks)
               (if String.eqb opened "" then today else opened))).
Proof.
  split.
  - unfold handleSaveNote, onTitle, newNote. cbn [editingTitle editingContent].
    rewrite String.eqb_refl, orb_true_r. reflexivity.
  - intros Ht blocks. unfold handleSaveNote, onContent, onTitle, newNote.
    cbn [editingTitle editingContent editingDate editingId].
    destruct (String.eqb_spec t "") as [E|_]; [contradiction|].
    destruct (String.eqb_spec (encode blocks) "") as [E|_];
      [exfalso; apply (encode_nonempty blocks E)|].
    reflexivity.
Qed.

Lemma untouched_note_is_not_saved_witness :
  handleSaveNote "2024-03-02"
    (Some (onContent (Some (onTitle (Some (newNote "2024-03-01")) "Run 7")) (encode [])))
  = Some (InsertNote "Run 7" "[]" "2024-03-01").
Proof.
  apply (proj2 (untouched_note_is_not_saved "2024-03-02" "2024-03-01" "Run 7")).
  discriminate.
Defined.

(** X24: the dashboard preview of a note written by the editor.  For a
    document whose stored numbers are finite, the preview of its encoded
    form is the contents of its text blocks joined by single blanks, with
    the image placeholder standing for every block of another type, a
    table or a chart included. *)
Theorem preview_of_document (blocks : list Block) :
  forallb finiteBlock blocks = true ->
  getNotePreview (encode blocks)
  = joinWith " " (map (fun b => if BlockType_eqb (type b) text
                                then content b else imagePlaceholder) blocks).
Proof.
  intros Hfin. destruct (parse_encode blocks Hfin) as [Hb Hp].
  unfold getNotePreview. rewrite Hb, Hp. cbn [arrayOf bind].
  rewrite (mapM_map _ jsonOfBlock
             (fun b => Some (JString (if BlockType_eqb (type b) text
                                      then content b else imagePlaceholder)))).
  - cbn [bind]. rewrite <- (map_map _ (fun s => Some (JString s))).
    rewrite join_strings. reflexivity.
  - intros b. rewrite hasType_text. cbn [bind].
    destruct (BlockType_eqb (type b) text); [apply content_jsonOfBlock | reflexivity].
Qed.

Lemma preview_of_document_witness :
  getNotePreview (encode (addTableBlock 1700000000000 1700000000000 [textBlock "initial" "Method"]))
  = ("Method " ++ imagePlaceholder ++ " ")%string.
Proof.
  apply (preview_of_document (addTableBlock 1700000000000 1700000000000 [textBlock "initial" "Method"])).
  reflexivity.
Defined.

Lemma stripTags_without_close (s : string) :
  hasClose s = false -> stripTags s = s.
Proof.
  induction s as [|c r IH]; [reflexivity|].
  cbn [hasClose stripTags]. intros H. apply orb_false_elim in H. destruct H as [_ Hr].
  rewrite Hr, andb_false_r, (IH Hr). reflexivity.
Qed.

Lemma tagFree_strip_skip (s : string) :
  tagFree (stripTags s) = true /\ tagFree (skipTag s) = true.
Proof.
  induction s as [|c r [IHs IHk]]; [split; reflexivity|].
  split.
  - cbn [stripTags]. destruct (Ascii.eqb c "<") eqn:Ec; cbn [andb].
    + destruct (hasClose r) eqn:Hr; [exact IHk|].
      cbn [tagFree]. rewrite Ec, IHs, (stripTags_without_close r Hr), Hr. reflexivity.
    + cbn [tagFree]. rewrite Ec, IHs. reflexivity.
  - cbn [skipTag]. destruct (Ascii.eqb c ">"); assumption.
Qed.

Lemma stripTags_tagFree (s : string) : tagFree s = true -> stripTags s = s.
Proof.
  induction s as [|c r IH]; [reflexivity|].
  cbn [tagFree stripTags]. intros H. apply andb_prop in H. destruct H as [Hc Hr].
  destruct (Ascii.eqb c "<"); cbn [andb].
  - apply negb_true_iff in Hc. rewrite Hc, (IH Hr). reflexivity.
  - rewrite (IH Hr). reflexivity.
Qed.

Lemma hasClose_app (a b : string) : hasClose (a ++ String ">" b) = true.
Proof.
  induction a as [|c a IH]; simpl; [reflexivity|].
  rewrite IH. apply orb_true_r.
Qed.

Lemma tagFree_app (a b : string) : tagFree (a ++ b) = true -> tagFree b = true.
Proof.
  induction a as [|c a IH]; simpl; [trivial|].
  intros H. apply andb_prop in H. apply IH. apply H.
Qed.

(** X25: the preview of a note that is not a document has no tag left.
    Removing the tags from a text leaves no ['<'] with a ['>'] after it, so
    the result cannot be cut into a text, a ['<'], a text, a ['>'] and a
    text; removing the tags again changes nothing; and a text that holds no
    complete tag is left as it is.  For a text that is not bracketed the
    preview is the text with its tags removed. *)
Theorem preview_has_no_tags (s : string) :
  tagFree (stripTags s) = true /\
  (forall a b c, stripTags s <> (a ++ String "<" (b ++ String ">" c))%string) /\
  stripTags (stripTags s) = stripTags s /\
  (tagFree s = true -> stripTags s = s) /\
  (bracketed s = false -> getNotePreview s = stripTags s).
Proof.
  pose proof (proj1 (tagFree_strip_skip s)) as Hfree.
  split; [exact Hfree|]. split; [|split; [|split]].
  - intros a b c E. rewrite E in Hfree. apply tagFree_app in Hfree.
    cbn [tagFree] in Hfree. rewrite hasClose_app in Hfree. discriminate.
  - apply stripTags_tagFree. exact Hfree.
  - apply stripTags_tagFree.
  - intros Hb. unfold getNotePreview. rewrite Hb. reflexivity.
Qed.

Lemma preview_has_no_tags_witness :
  getNotePreview "<p>Yield <b>up</b> by 3 < 4</p>" = "Yield up by 3 "
  /\ stripTags "a > b and c < d" = "a > b and c < d".
Proof.
  split.
  - rewrite (proj2 (proj2 (proj2 (proj2
               (preview_has_no_tags "<p>Yield <b>up</b> by 3 < 4</p>")))) eq_refl).
    reflexivity.
  - apply (proj1 (proj2 (proj2 (proj2 (preview_has_no_tags "a > b and c < d"))))).
    reflexivity.
Defined.
